(** * Mouse Gestures browser extension: recognition engine, site policy,
      configuration reader and service worker, embedded from the JavaScript sources.

    Source files and the modules that embed them:
    - [JS]        the fragment of JavaScript values the sources manipulate;
    - [Str], [Num] the string and [Math] functions they call;
    - [Content]   scripts/content.js (the current content script, "Option 2");
    - [Sectors]   the content-script variant with the nearest-of-eight-sectors [dir8];
    - [Swipe]     the content-script variant with [normalizePattern] and the left link swipe;
    - [Batch]     the content-script variant that recomputes [detectPattern] on every move;
    - [Sw]        scripts/sw.js ([safeUrl], [openNewTab], the message listener), and
                  the listener of the older service worker, which checks the URL inline;
    - [Trail]     scripts/content.js again: the comet trail ([drawComet]);
    - [Install]   scripts/sw.js again: the settings written on install
                  ([ensureDefaultsExist]);
    - [Overlay]   the [Swipe] variant's trail colour ([hexToRgb], with [parseInt]);
    - [LinkSwipe] the [Swipe] variant's site gate and left-button link swipe
                  ([shouldRunOnThisSite], the pointer listeners);
    - [Options]   scripts/options.js: the domain list editor ([uniq], [isValidHost],
                  the save handler).

    Numbers.  Pointer coordinates, distances, angles and thresholds are JavaScript
    numbers; they are idealised here as real numbers ([R]), so [Math.hypot] is the
    Euclidean norm and [Math.atan2] the two-argument arctangent.  Stored configuration
    values are finite decimal numbers or the special values NaN and the infinities;
    they are carried as rationals ([Q]) so that [clamp] computes. *)

From Stdlib Require Import ZArith QArith Qminmax Qreals Reals Lra Lia String Ascii List Bool.
From Stdlib Require Lqa.
From stdpp Require Import base option list strings gmap pretty.

#[local] Set Warnings "-register-all".

(* ===================================================================== *)
(** * JavaScript values *)
(* ===================================================================== *)

Module JS.

(** A completion record: a statement either completes normally with a value or
    throws.  [try { body } catch { handler }] is [try_catch]. *)
Inductive completion (A : Type) : Type :=
| Normal (a : A)
| Throw (e : string).
Arguments Normal {A} a.
Arguments Throw {A} e.

#[global] Instance completion_ret : MRet completion := fun A a => Normal a.
#[global] Instance completion_bind : MBind completion := fun A B k c =>
  match c with
  | Normal a => k a
  | Throw e => Throw e
  end.

Definition try_catch {A} (body : completion A) (handler : completion A) : completion A :=
  match body with
  | Normal a => Normal a
  | Throw _ => handler
  end.

(** Numbers: a finite value, NaN, or an infinity. *)
Inductive number : Type :=
| Fin (q : Q)
| NaN
| PosInf
| NegInf.

(** [Number.isFinite]. *)
Definition isFinite (n : number) : bool :=
  match n with
  | Fin _ => true
  | _ => false
  end.

(** Values as [chrome.storage] hands them out (JSON-like data) plus [undefined]. *)
Inductive value : Type :=
| VUndef
| VNull
| VBool (b : bool)
| VNum (n : number)
| VStr (s : string)
| VArr (l : list value)
| VObj (m : gmap string value).

(** ToBoolean. *)
Definition truthy (v : value) : bool :=
  match v with
  | VUndef | VNull => false
  | VBool b => b
  | VNum (Fin q) => negb (Qeq_bool q 0)
  | VNum NaN => false
  | VNum _ => true
  | VStr s => negb (String.eqb s "")
  | VArr _ | VObj _ => true
  end.

(** [typeof v === "object"]. *)
Definition typeof_object (v : value) : bool :=
  match v with
  | VNull | VArr _ | VObj _ => true
  | _ => false
  end.

(** [Array.isArray(v)]. *)
Definition isArray (v : value) : bool :=
  match v with
  | VArr _ => true
  | _ => false
  end.

(** [v === s] for a string literal [s]. *)
Definition strict_eq_str (v : value) (s : string) : bool :=
  match v with
  | VStr t => String.eqb t s
  | _ => false
  end.

(** The own enumerable properties of a value, as the object spread [{...v}] copies
    them: the fields of an object, the indices of an array, nothing for the rest. *)
Definition own_props (v : value) : gmap string value :=
  match v with
  | VObj m => m
  | VArr l => list_to_map (imap (fun i x => (pretty i, x)) l)
  | _ => ∅
  end.

(** Property read [o[k]] on a map of own properties: a missing key reads [undefined].
    (Names inherited from [Object.prototype] are outside the model.) *)
Definition read (m : gmap string value) (k : string) : value :=
  default VUndef (m !! k).

(** Property read [v.k] on a value. *)
Definition get (v : value) (k : string) : value :=
  match v with
  | VObj m => read m k
  | _ => VUndef
  end.

(** [v && typeof v === "object" ? v : {}]: the guard every stored object goes through. *)
Definition object_or_empty (v : value) : value :=
  if truthy v && typeof_object v then v else VObj ∅.

Section ToNumber.
(** Two conversions of the host language are taken as given: StringToNumber on a
    string, and ToPrimitive followed by ToNumber on an object or array (which can
    throw a TypeError, for instance on an object whose own [toString] is not
    callable). *)
Variable StringToNumber : string → number.
Variable ObjectToNumber : value → completion number.

(** [Number(v)]. *)
Definition Number (v : value) : completion number :=
  match v with
  | VUndef => Normal NaN
  | VNull => Normal (Fin 0)
  | VBool true => Normal (Fin 1)
  | VBool false => Normal (Fin 0)
  | VNum n => Normal n
  | VStr s => Normal (StringToNumber s)
  | VArr _ | VObj _ => ObjectToNumber v
  end.
End ToNumber.

End JS.

(* ===================================================================== *)
(** * String helpers ([String.prototype] methods the sources call) *)
(* ===================================================================== *)

Module Str.

(** [s.toUpperCase()] and [s.toLowerCase()] on the ASCII letters. *)
Definition upper_char (c : ascii) : ascii :=
  let n := nat_of_ascii c in
  if (97 <=? n)%nat && (n <=? 122)%nat then ascii_of_nat (n - 32) else c.

Definition lower_char (c : ascii) : ascii :=
  let n := nat_of_ascii c in
  if (65 <=? n)%nat && (n <=? 90)%nat then ascii_of_nat (n + 32) else c.

Fixpoint map (f : ascii → ascii) (s : string) : string :=
  match s with
  | EmptyString => EmptyString
  | String c s' => String (f c) (map f s')
  end.

Definition toUpperCase : string → string := map upper_char.
Definition toLowerCase : string → string := map lower_char.

(** [s.trim()]: leading and trailing white space removed. *)
Fixpoint trimStart (s : string) : string :=
  match s with
  | EmptyString => EmptyString
  | String c s' => if Ascii.is_space c then trimStart s' else s
  end.

Definition trim (s : string) : string :=
  String.rev (trimStart (String.rev (trimStart s))).

(** [s.split(sep)] for a one-character separator. *)
Fixpoint split (sep : ascii) (s : string) : list string :=
  match s with
  | EmptyString => [EmptyString]
  | String c s' =>
      if Ascii.eqb c sep then EmptyString :: split sep s'
      else match split sep s' with
           | h :: t => String c h :: t
           | [] => [String c EmptyString]
           end
  end.

(** [l.join(sep)]. *)
Fixpoint join (sep : string) (l : list string) : string :=
  match l with
  | [] => EmptyString
  | [a] => a
  | a :: rest => a +:+ sep +:+ join sep rest
  end.

(** [s.endsWith(suffix)]. *)
Definition endsWith (s suffix : string) : bool :=
  String.prefix (String.rev suffix) (String.rev s).

(** The last character of a string, [s[s.length - 1]] ([None] for [undefined]). *)
Fixpoint last_char (s : string) : option ascii :=
  match s with
  | EmptyString => None
  | String c EmptyString => Some c
  | String _ s' => last_char s'
  end.

(** Whether the character [c] occurs in [s] ([s.includes(c)] for a one-character [c]). *)
Fixpoint includes (s : string) (c : ascii) : bool :=
  match s with
  | EmptyString => false
  | String d s' => Ascii.eqb d c || includes s' c
  end.

End Str.

(* ===================================================================== *)
(** * Real-number helpers ([Math] functions the recognisers call) *)
(* ===================================================================== *)

Module Num.
#[local] Open Scope R_scope.

(** Comparisons as booleans. *)
Definition leR (a b : R) : bool := if Rle_dec a b then true else false.
Definition ltR (a b : R) : bool := if Rlt_dec a b then true else false.

(** [Math.hypot(dx, dy)]. *)
Definition hypot (dx dy : R) : R := sqrt (dx * dx + dy * dy).

(** [Math.atan2(y, x)], in radians, in the interval (-PI, PI]. *)
Definition atan2 (y x : R) : R :=
  if Rlt_dec 0 x then atan (y / x)
  else if Rlt_dec x 0 then
    if Rle_dec 0 y then atan (y / x) + PI else atan (y / x) - PI
  else if Rlt_dec 0 y then PI / 2
  else if Rlt_dec y 0 then - PI / 2
  else 0.

(** [Math.atan2(dy, dx) * 180 / Math.PI]: the angle of a displacement in degrees
    (screen coordinates: y grows downwards). *)
Definition angle_deg (dx dy : R) : R := atan2 dy dx * 180 / PI.

(** A trajectory point [{x, y}] (the time stamp [t] is never read by the recogniser). *)
Record point : Type := Point { px : R; py : R }.

(** [dist(a, b)]. *)
Definition dist (a b : point) : R := hypot (px a - px b) (py a - py b).

#[global] Arguments leR : simpl never.
#[global] Arguments ltR : simpl never.
#[global] Arguments hypot : simpl never.
#[global] Arguments atan2 : simpl never.
#[global] Arguments angle_deg : simpl never.
#[global] Arguments dist : simpl never.

End Num.

(* ===================================================================== *)
(** * scripts/content.js *)
(* ===================================================================== *)

Module Content.
Import JS.

Definition KEYS_cfg : string := "mg_config_v1".
Definition KEYS_list : string := "mg_blacklist_v1".
Definition KEYS_policies : string := "mg_site_policies_v1".

(** The configuration object [cfg] that [readAll] builds. *)
Record config : Type := {
  cfg_enabled : bool;
  cfg_mode : string;
  cfg_prefs : gmap string value;
  cfg_gestureMap : gmap string value
}.

Definition num (q : Q) : value := VNum (Fin q).

Definition DEFAULTS_prefs : gmap string value :=
  <["minSegmentPx" := num 8]> (<["jitterPx" := num 4]> (<["sampleMinPx" := num 3]>
  (<["movedPx" := num 3]> (<["lineWidth" := num 3]> (<["trailColor" := VStr "#00e5ff"]>
  (<["trailAlpha" := num (85 # 100)]> ∅)))))).

Definition DEFAULTS_gestureMap : gmap string value :=
  <["L" := VStr "back"]> (<["R" := VStr "forward"]> (<["U" := VStr "top"]>
  (<["D" := VStr "bottom"]> ∅))).

Definition DEFAULTS : config := {|
  cfg_enabled := true;
  cfg_mode := "blacklist";
  cfg_prefs := DEFAULTS_prefs;
  cfg_gestureMap := DEFAULTS_gestureMap
|}.

Definition behavior (b : string) : value := VObj (<["behavior" := VStr b]> ∅).

Definition DEFAULT_POLICIES : gmap string value :=
  <["github.com" := behavior "require_alt"]> (<["gist.github.com" := behavior "require_alt"]>
  (<["docs.google.com" := behavior "require_alt"]> (<["drive.google.com" := behavior "require_alt"]>
  (<["figma.com" := behavior "require_alt"]> ∅)))).

(** What [readAll] returns: [{ cfg, list, policies }]. *)
Record readAll_result : Type := {
  r_cfg : config;
  r_list : list value;
  r_policies : gmap string value
}.

Section Config.
Variable StringToNumber : string → number.
Variable ObjectToNumber : value → completion number.

(** [clamp(n, a, b)]: the bounds are always finite literals in the callers. *)
Definition clamp (n : value) (a b : Q) : completion Q :=
  n ← Number StringToNumber ObjectToNumber n;
  match n with
  | Fin q => mret (Qmin b (Qmax a q))
  | _ => mret a
  end.

(** [cfg.prefs.k = clamp(cfg.prefs.k, a, b)]. *)
Definition clamp_field (k : string) (a b : Q) (p : gmap string value)
  : completion (gmap string value) :=
  q ← clamp (read p k) a b;
  mret (<[k := num q]> p).

(** The body of [readAll]'s [try], from the object [res] the storage returned. *)
Definition readAll_try (res : gmap string value) : completion readAll_result :=
  let cfgRaw := object_or_empty (read res KEYS_cfg) in
  let listRaw :=
    match read res KEYS_list with
    | VArr l => l
    | _ => []
    end in
  let enabled :=
    match get cfgRaw "enabled" with
    | VBool b => b
    | _ => cfg_enabled DEFAULTS
    end in
  let mode :=
    match get cfgRaw "mode" with
    | VStr s => if String.eqb s "whitelist" || String.eqb s "blacklist" then s
                else cfg_mode DEFAULTS
    | _ => cfg_mode DEFAULTS
    end in
  let prefs0 := own_props (object_or_empty (get cfgRaw "prefs")) ∪ cfg_prefs DEFAULTS in
  let gestureMap :=
    own_props (object_or_empty (get cfgRaw "gestureMap")) ∪ cfg_gestureMap DEFAULTS in
  p ← clamp_field "minSegmentPx" 6 60 prefs0;
  p ← clamp_field "jitterPx" 0 20 p;
  p ← clamp_field "sampleMinPx" 0 10 p;
  p ← clamp_field "movedPx" 1 20 p;
  p ← clamp_field "lineWidth" 1 18 p;
  p ← clamp_field "trailAlpha" (5 # 100) 1 p;
  let policiesRaw := object_or_empty (read res KEYS_policies) in
  let policies := own_props policiesRaw ∪ DEFAULT_POLICIES in
  mret {| r_cfg := {| cfg_enabled := enabled; cfg_mode := mode; cfg_prefs := p;
                      cfg_gestureMap := gestureMap |};
          r_list := listRaw;
          r_policies := policies |}.

(** [readAll()]: [storage] is the outcome of [chrome.storage.local.get], which may
    reject.  Anything thrown inside the [try] lands in the [catch]. *)
Definition readAll (storage : completion (gmap string value)) : completion readAll_result :=
  try_catch
    (res ← storage; readAll_try res)
    (mret {| r_cfg := DEFAULTS; r_list := []; r_policies := DEFAULT_POLICIES |}).
End Config.

(** ** Hosts, the domain list and the per-site policy *)

(** [normalizeHost(host)]: [String(host || "").trim().toLowerCase()]. *)
Definition normalizeHost (host : string) : string :=
  Str.toLowerCase (Str.trim host).

(** [hostMatchesRule(host, rule)]. *)
Definition hostMatchesRule (host rule : string) : bool :=
  let host := normalizeHost host in
  let rule := normalizeHost rule in
  if String.eqb host "" || String.eqb rule "" then false
  else String.eqb host rule || Str.endsWith host ("." +:+ rule).

(** The object literal [{ behavior: "normal" }]. *)
Definition normal : value := behavior "normal".

(** The [for] loop of [getSitePolicy]: [i] runs from its start value while
    [i < parts.length - 1]; [steps] is the number of iterations left. *)
Fixpoint walk_parents (policies : gmap string value) (parts : list string)
    (i steps : nat) : option value :=
  match steps with
  | O => None
  | S steps' =>
      let candidate := Str.join "." (drop i parts) in
      if truthy (read policies candidate) then Some (read policies candidate)
      else walk_parents policies parts (S i) steps'
  end.

(** [getSitePolicy(host)], reading [state.policies]. *)
Definition getSitePolicy (policies : gmap string value) (host : string) : value :=
  let host := normalizeHost host in
  if String.eqb host "" then normal
  else if truthy (read policies host) then read policies host
  else
    let parts := Str.split "." host in
    match walk_parents policies parts 1 (length parts - 1 - 1) with
    | Some policy => policy
    | None => normal
    end.

(** ** The runtime state *)

Import Num.
#[local] Open Scope R_scope.

(** The four recognition thresholds, as [Number(state.prefs.k ?? DEFAULTS.prefs.k)]
    evaluates them. *)
Record tuning : Type := {
  minSegmentPx : R;
  jitterPx : R;
  sampleMinPx : R;
  movedPx : R
}.

(** The configuration fields of [state]. *)
Record settings : Type := {
  enabled : bool;
  mode : string;
  list_ : list string;
  prefs : tuning;
  gestureMap : gmap string value;
  policies : gmap string value
}.

(** What the script asks the DOM about an element: whether
    [closestEditableOrEditor] finds an editable ancestor, and the closest enclosing
    [a[href]] with its [href] attribute and the absolute URL
    [new URL(href, location.href).href] ([None] when the constructor throws). *)
Record anchor_el : Type := {
  href_attr : string;
  resolved : option string
}.

Record element : Type := {
  editable : bool;
  closest_a : option anchor_el
}.

Record mouse_event : Type := {
  button : Z;
  altKey : bool;
  clientX : R;
  clientY : R;
  target : option element
}.

Record state : Type := {
  conf : settings;
  location_host : string;        (* domainFromUrl(location.href) *)
  tracking : bool;
  moved : bool;
  points : list point;
  tokens : list string;
  startTarget : option element;
  suppressContextOnce : bool;
  _lastTokenIndex : option nat   (* None: the property was never assigned *)
}.

(** The session fields replaced, the configuration kept. *)
Definition with_session (st : state) (tr mv : bool) (pts : list point)
    (toks : list string) (tgt : option element) (sup : bool) (idx : option nat) : state :=
  {| conf := conf st; location_host := location_host st;
     tracking := tr; moved := mv; points := pts; tokens := toks;
     startTarget := tgt; suppressContextOnce := sup; _lastTokenIndex := idx |}.

Definition closestEditableOrEditor (el : option element) : bool :=
  match el with
  | Some el => editable el
  | None => false
  end.

Definition isAllowedOnThisSite (st : state) : bool :=
  if negb (enabled (conf st)) then false
  else
    let host := location_host st in
    let policy := getSitePolicy (policies (conf st)) host in
    if strict_eq_str (get policy "behavior") "disabled" then false
    else
      let match_ := existsb (fun rule => hostMatchesRule host rule) (list_ (conf st)) in
      if String.eqb (mode (conf st)) "blacklist" then negb match_ else match_.

Definition shouldRequireAltHere (st : state) : bool :=
  strict_eq_str (get (getSitePolicy (policies (conf st)) (location_host st)) "behavior")
                "require_alt".

(** ** The direction classifier *)

(** [dir8(dx, dy, jitter)]; the empty string is the "no direction" result. *)
Definition dir8 (dx dy jitter : R) : string :=
  let adx := Rabs dx in
  let ady := Rabs dy in
  if ltR adx jitter && ltR ady jitter then ""
  else
    let ang := angle_deg dx dy in
    (* +-85 degrees tolerance for horizontal to forgive wobble *)
    if leR (Rabs ang) 85 || leR (Rabs (ang - 180)) 85 || leR (Rabs (ang + 180)) 85
    then (if leR 0 dx then "R" else "L")
    else if leR (Rabs (ang - 90)) 40 || leR (Rabs (ang + 90)) 40
    then (if leR 0 dy then "D" else "U")
    else if leR (Rabs (ang - 45)) 30 then "DR"
    else if leR (Rabs (ang + 45)) 30 then "UR"
    else if leR (Rabs (ang - 135)) 30 then "DL"
    else if leR (Rabs (ang + 135)) 30 then "UL"
    else "".

(** ** Link detection and actions *)

Definition getLinkHref (target : option element) : string :=
  match target with
  | None => ""
  | Some el =>
      match closest_a el with
      | None => ""
      | Some a =>
          if String.eqb (href_attr a) "" then ""
          else match resolved a with
               | Some url => url
               | None => ""
               end
      end
  end.

(** What [execAction] does to the outside world. *)
Inductive effect : Type :=
| HistoryBack
| HistoryForward
| ScrollToTop
| ScrollToBottom
| LocationReload
| SendMessage (action href : string).

Definition execAction (action : value) (gestureTarget : option element) : list effect :=
  match action with
  | VStr a =>
      if String.eqb a "back" then [HistoryBack]
      else if String.eqb a "forward" then [HistoryForward]
      else if String.eqb a "top" then [ScrollToTop]
      else if String.eqb a "bottom" then [ScrollToBottom]
      else if String.eqb a "reload" then [LocationReload]
      else if String.eqb a "new_tab" then [SendMessage "new_tab" (getLinkHref gestureTarget)]
      else if String.eqb a "close_tab" then [SendMessage "close_tab" ""]
      else []
  | _ => []
  end.

(** ** The event handlers *)

Definition pagePointFromMouse (e : mouse_event) : point :=
  Point (clientX e) (clientY e).

Definition cancelGesture (st : state) : state :=
  with_session st false false [] [] None false (_lastTokenIndex st).

Definition startGesture (st : state) (e : mouse_event) : state :=
  if negb (Z.eqb (button e) 2) then st
  else if shouldRequireAltHere st && negb (altKey e) then st
  else if closestEditableOrEditor (target e) then st
  else if negb (isAllowedOnThisSite st) then st
  else with_session st true false [pagePointFromMouse e] [] (target e)
         (suppressContextOnce st) (_lastTokenIndex st).

(** The trajectory sampler: [if (!last || dist(last, p) >= minPt) state.points.push(p)]. *)
Definition sample (st : state) (p : point) : list point :=
  match last (points st) with
  | None => points st ++ [p]
  | Some l => if leR (sampleMinPx (prefs (conf st))) (dist l p)
              then points st ++ [p] else points st
  end.

(** [state.tokens.length === 0 ? 0 : state._lastTokenIndex]. *)
Definition anchorIndex (st : state) : option nat :=
  match tokens st with
  | [] => Some O
  | _ :: _ => _lastTokenIndex st
  end.

(** [state.points[anchorIndex] || state.points[0]], over the array [pts]; [p] stands
    in when the array is empty, which the sampler rules out. *)
Definition anchor_in (st : state) (pts : list point) (p : point) : point :=
  match anchorIndex st ≫= (fun i => pts !! i) with
  | Some a => a
  | None => default p (pts !! O)
  end.

(** [state.tokens[state.tokens.length - 1] || ""]. *)
Definition lastToken (toks : list string) : string :=
  default "" (last toks).

Definition updateGesture (st : state) (e : mouse_event) : state :=
  if negb (tracking st) then st
  else if closestEditableOrEditor (target e) then cancelGesture st
  else
    let p := pagePointFromMouse e in
    let pts := sample st p in
    let moved' :=
      if moved st then true
      else leR (movedPx (prefs (conf st))) (dist (default p (pts !! O)) p) in
    let minSeg := minSegmentPx (prefs (conf st)) in
    let jitter := jitterPx (prefs (conf st)) in
    let anchor := anchor_in st pts p in
    if leR minSeg (dist anchor p) then
      let d := dir8 (px p - px anchor) (py p - py anchor) jitter in
      if negb (String.eqb d "") then
        let toks := if negb (String.eqb d (lastToken (tokens st)))
                    then tokens st ++ [d] else tokens st in
        with_session st true moved' pts toks (startTarget st) (suppressContextOnce st)
          (Some (length pts - 1)%nat)
      else
        with_session st true moved' pts (tokens st) (startTarget st)
          (suppressContextOnce st) (_lastTokenIndex st)
    else
      with_session st true moved' pts (tokens st) (startTarget st)
        (suppressContextOnce st) (_lastTokenIndex st).

(** [(state.tokens || []).join("")]. *)
Definition pattern_of (toks : list string) : string := Str.join "" toks.

(** The action [endGesture] settles on: the primary lookup
    [state.gestureMap[pattern] || ""], then the "Option 2" override. *)
Definition resolveAction (st : state) : value :=
  let pattern := pattern_of (tokens st) in
  let action :=
    if truthy (read (gestureMap (conf st)) pattern)
    then read (gestureMap (conf st)) pattern else VStr "" in
  if String.eqb pattern "R" && bool_decide (is_Some (startTarget st)) then
    let linkHref := getLinkHref (startTarget st) in
    if negb (String.eqb linkHref "") then VStr "new_tab" else action
  else action.

(** [endGesture(e)]: the new state and what was executed. *)
Definition endGesture (st : state) (e : mouse_event) : state * list effect :=
  if negb (tracking st) then (st, [])
  else if negb (moved st) then (cancelGesture st, [])
  else
    let action := resolveAction st in
    let done := if truthy action then execAction action (startTarget st) else [] in
    (with_session st false false [] [] None true (Some O), done).

Definition onContextMenu (st : state) : state :=
  if suppressContextOnce st
  then with_session st (tracking st) (moved st) (points st) (tokens st) (startTarget st)
         false (_lastTokenIndex st)
  else st.

(** [refreshConfig()], given the settings read from storage. *)
Definition refreshConfig (st : state) (c : settings) : state :=
  {| conf := c; location_host := location_host st;
     tracking := tracking st; moved := moved st; points := points st;
     tokens := tokens st; startTarget := startTarget st;
     suppressContextOnce := suppressContextOnce st;
     _lastTokenIndex := _lastTokenIndex st |}.

(** The page's event stream and the script's reaction to it. *)
Inductive input : Type :=
| MouseDown (e : mouse_event)
| MouseMove (e : mouse_event)
| MouseUp (e : mouse_event)
| ContextMenu
| ConfigChanged (c : settings).

Definition step (st : state) (i : input) : state :=
  match i with
  | MouseDown e => startGesture st e
  | MouseMove e => updateGesture st e
  | MouseUp e => fst (endGesture st e)
  | ContextMenu => onContextMenu st
  | ConfigChanged c => refreshConfig st c
  end.

Definition run (st : state) (inputs : list input) : state := fold_left step inputs st.

(** The [state] object as the script creates it, on a page whose host is [host]. *)
Definition initial (c : settings) (host : string) : state :=
  {| conf := c; location_host := host;
     tracking := false; moved := false; points := []; tokens := [];
     startTarget := None; suppressContextOnce := false; _lastTokenIndex := None |}.

End Content.

(* ===================================================================== *)
(** * The content-script variant with the nearest-sector classifier *)
(* ===================================================================== *)

Module Sectors.
Import JS Num Content.
#[local] Open Scope R_scope.

(** The table [sectors] of [dir8]: centre angle in degrees, direction token. *)
Definition sectors : list (R * string) :=
  [ (0, "R"); (45, "DR"); (90, "D"); (135, "DL");
    (180, "L"); (-135, "UL"); (-90, "U"); (-45, "UR") ].

(** [diff = Math.abs(ang - s.c); diff = Math.min(diff, 360 - diff)]. *)
Definition wrap_diff (ang c : R) : R :=
  let diff := Rabs (ang - c) in
  Rmin diff (360 - diff).

(** [diff < bestDiff], where [bestDiff] starts as [Infinity] ([None]). *)
Definition better (diff : R) (bestDiff : option R) : bool :=
  match bestDiff with
  | None => true
  | Some b => ltR diff b
  end.

(** One iteration of [for (const s of sectors)], on the pair (best, bestDiff). *)
Definition pick (ang : R) (acc : string * option R) (s : R * string) : string * option R :=
  let diff := wrap_diff ang (fst s) in
  if better diff (snd acc) then (snd s, Some diff) else acc.

Definition dir8 (dx dy jitter : R) : string :=
  let adx := Rabs dx in
  let ady := Rabs dy in
  if ltR adx jitter && ltR ady jitter then ""
  else
    let ang := angle_deg dx dy in
    fst (fold_left (pick ang) sectors ("R", None)).

(** [updateGesture(e)] of this variant: the anchor index is stored in both branches. *)
Definition updateGesture (st : state) (e : mouse_event) : state :=
  if negb (tracking st) then st
  else if closestEditableOrEditor (target e) then cancelGesture st
  else
    let p := pagePointFromMouse e in
    let pts := sample st p in
    let moved' :=
      if moved st then true
      else leR (movedPx (prefs (conf st))) (dist (default p (pts !! O)) p) in
    let minSeg := minSegmentPx (prefs (conf st)) in
    let jitter := jitterPx (prefs (conf st)) in
    let anchor := anchor_in st pts p in
    if leR minSeg (dist anchor p) then
      let d := dir8 (px p - px anchor) (py p - py anchor) jitter in
      if negb (String.eqb d "") && negb (String.eqb d (lastToken (tokens st))) then
        with_session st true moved' pts (tokens st ++ [d]) (startTarget st)
          (suppressContextOnce st) (Some (length pts - 1)%nat)
      else
        (* even if same token, update anchor index so it does not spam *)
        with_session st true moved' pts (tokens st) (startTarget st)
          (suppressContextOnce st) (Some (length pts - 1)%nat)
    else
      with_session st true moved' pts (tokens st) (startTarget st)
        (suppressContextOnce st) (_lastTokenIndex st).

End Sectors.

(* ===================================================================== *)
(** * The content-script variant with [normalizePattern] *)
(* ===================================================================== *)

Module Swipe.
Import Num.
#[local] Open Scope R_scope.

(** The loop of [normalizePattern] over [pattern[i]], accumulating [compact]. *)
Fixpoint compact_loop (rest compact : string) : string :=
  match rest with
  | EmptyString => compact
  | String c rest' =>
      if Str.includes "LRUD" c && negb (bool_decide (Str.last_char compact = Some c))
      then compact_loop rest' (compact +:+ String c EmptyString)
      else compact_loop rest' compact
  end.

(** [normalizePattern(pattern)]: two-step diagonals normalised so that UR == RU,
    DR == RD and so on. *)
Definition normalizePattern (pattern : string) : string :=
  let pattern := Str.toUpperCase pattern in
  if String.eqb pattern "" then ""
  else
    let compact := compact_loop pattern "" in
    if Nat.eqb (String.length compact) 2 then
      if String.eqb compact "RU" then "UR"
      else if String.eqb compact "RD" then "DR"
      else if String.eqb compact "LU" then "UL"
      else if String.eqb compact "LD" then "DL"
      else compact
    else compact.

(** [detectDir(dx, dy, jitter)]. *)
Definition detectDir (dx dy jitter : R) : string :=
  let adx := Rabs dx in
  let ady := Rabs dy in
  if ltR adx jitter && ltR ady jitter then ""
  else if leR ady adx then (if leR 0 dx then "R" else "L")
  else (if leR 0 dy then "D" else "U").

(** [out[out.length - 1] !== d] for a direction string [d]. *)
Definition last_differs (out d : string) : bool :=
  match Str.last_char out with
  | Some c => negb (String.eqb (String c EmptyString) d)
  | None => true
  end.

(** The loop state of [detectPattern]: [last], [acc], [out]. *)
Record loop : Type := Loop { l_last : point; l_acc : R; l_out : string }.

(** One iteration of [for (let i = 1; i < points.length; i++)]. *)
Definition detect_step (minSeg jitter : R) (s : loop) (p : point) : loop :=
  let acc := l_acc s + dist (l_last s) p in
  if leR minSeg acc then
    let d := detectDir (px p - px (l_last s)) (py p - py (l_last s)) jitter in
    let out := if negb (String.eqb d "") && last_differs (l_out s) d
               then l_out s +:+ d else l_out s in
    Loop p 0 out
  else Loop (l_last s) acc (l_out s).

Definition detectPattern (points : list point) (minSeg jitter : R) : string :=
  match points with
  | [] | [_] => ""
  | p0 :: rest => normalizePattern (l_out (fold_left (detect_step minSeg jitter) rest (Loop p0 0 "")))
  end.

End Swipe.

(* ===================================================================== *)
(** * The content-script variant that recomputes the pattern on every move *)
(* ===================================================================== *)

Module Batch.
Import JS Num.
#[local] Open Scope R_scope.

(** The arrow function [dir] inside [detectPattern]; [jitter] is captured. *)
Definition dir (jitter dx dy : R) : string :=
  let adx := Rabs dx in
  let ady := Rabs dy in
  if ltR adx jitter && ltR ady jitter then ""
  else if leR ady adx then (if leR 0 dx then "R" else "L")
  else (if leR 0 dy then "D" else "U").

(** The loop state of [detectPattern]: [last], [acc], [out]. *)
Record loop : Type := Loop { l_last : point; l_acc : R; l_out : string }.

(** One iteration of [for (let i = 1; i < pts.length; i++)]. *)
Definition detect_step (minSeg jitter : R) (s : loop) (p : point) : loop :=
  let acc := l_acc s + dist (l_last s) p in
  if leR minSeg acc then
    let d := dir jitter (px p - px (l_last s)) (py p - py (l_last s)) in
    let out := if negb (String.eqb d "") && Swipe.last_differs (l_out s) d
               then l_out s +:+ d else l_out s in
    Loop p 0 out
  else Loop (l_last s) acc (l_out s).

Definition detectPattern (pts : list point) (minSeg jitter : R) : string :=
  match pts with
  | [] | [_] => ""
  | p0 :: rest => l_out (fold_left (detect_step minSeg jitter) rest (Loop p0 0 ""))
  end.

(** The configuration fields of [gestureState]; [prefs] keeps the two numbers the
    recogniser reads. *)
Record settings : Type := {
  enabled : bool;
  mode : string;
  list_ : list string;
  minSegmentPx : R;
  jitterPx : R;
  gestureMap : gmap string value
}.

Record gestureState : Type := {
  conf : settings;
  location_host : string;
  tracking : bool;
  moved : bool;
  points : list point;
  pattern : string;
  startTarget : option Content.element;
  suppressContextOnce : bool;
  altOverride : bool;
  altOverrideActive : bool
}.

Definition with_session (st : gestureState) (tr mv : bool) (pts : list point)
    (pat : string) (tgt : option Content.element) (sup alt : bool) : gestureState :=
  {| conf := conf st; location_host := location_host st;
     tracking := tr; moved := mv; points := pts; pattern := pat;
     startTarget := tgt; suppressContextOnce := sup;
     altOverride := altOverride st; altOverrideActive := alt |}.

Definition isAllowedOnThisSite (st : gestureState) : bool :=
  if negb (enabled (conf st)) then false
  else
    let match_ := existsb (fun rule => Content.hostMatchesRule (location_host st) rule)
                          (list_ (conf st)) in
    if String.eqb (mode (conf st)) "blacklist" then negb match_ else match_.

Definition shouldIgnoreGestureStart (st : gestureState) (target : option Content.element) : bool :=
  if negb (Content.closestEditableOrEditor target) then false
  else if altOverride st && altOverrideActive st then false
  else true.

Definition cancelGesture (st : gestureState) : gestureState :=
  with_session st false false [] "" None false (altOverrideActive st).

Definition startGesture (st : gestureState) (e : Content.mouse_event) : gestureState :=
  if negb (Z.eqb (Content.button e) 2) then st
  else
    let st := with_session st (tracking st) (moved st) (points st) (pattern st)
                (startTarget st) (suppressContextOnce st) (Content.altKey e) in
    if shouldIgnoreGestureStart st (Content.target e) then st
    else if negb (isAllowedOnThisSite st) then st
    else with_session st true false [Content.pagePointFromMouse e] "" (Content.target e)
           (suppressContextOnce st) (altOverrideActive st).

Definition updateGesture (st : gestureState) (e : Content.mouse_event) : gestureState :=
  if negb (tracking st) then st
  else if Content.closestEditableOrEditor (Content.target e) then cancelGesture st
  else
    let p := Content.pagePointFromMouse e in
    let pts := points st ++ [p] in
    let moved' :=
      if moved st then true else leR 6 (dist (default p (pts !! O)) p) in
    let pat := detectPattern pts (minSegmentPx (conf st)) (jitterPx (conf st)) in
    with_session st true moved' pts pat (startTarget st) (suppressContextOnce st)
      (altOverrideActive st).

(** The action [endGesture] executes, read before the state is cleared:
    [pattern ? (gestureMap?.[pattern] || "") : ""]. *)
Definition resolveAction (st : gestureState) : value :=
  if String.eqb (pattern st) "" then VStr ""
  else if truthy (read (gestureMap (conf st)) (pattern st))
  then read (gestureMap (conf st)) (pattern st) else VStr "".

Definition endGesture (st : gestureState) (e : Content.mouse_event) : gestureState * value :=
  if negb (tracking st) then (st, VStr "")
  else if negb (moved st) then (cancelGesture st, VStr "")
  else (with_session st false false [] "" None true (altOverrideActive st), resolveAction st).

(** Mouse and keyboard input under a fixed configuration. *)
Inductive input : Type :=
| MouseDown (e : Content.mouse_event)
| MouseMove (e : Content.mouse_event)
| MouseUp (e : Content.mouse_event)
| AltKey (down : bool).

Definition step (st : gestureState) (i : input) : gestureState :=
  match i with
  | MouseDown e => startGesture st e
  | MouseMove e => updateGesture st e
  | MouseUp e => fst (endGesture st e)
  | AltKey down =>
      with_session st (tracking st) (moved st) (points st) (pattern st) (startTarget st)
        (suppressContextOnce st) down
  end.

Definition run (st : gestureState) (inputs : list input) : gestureState :=
  fold_left step inputs st.

Definition initial (c : settings) (host : string) : gestureState :=
  {| conf := c; location_host := host;
     tracking := false; moved := false; points := []; pattern := "";
     startTarget := None; suppressContextOnce := false;
     altOverride := true; altOverrideActive := false |}.

End Batch.

(* ===================================================================== *)
(** * scripts/sw.js: the service worker *)
(* ===================================================================== *)

Module Sw.

(** What the script reads off a parsed URL: [u.protocol] and [u.toString()]. *)
Record url : Type := { protocol : string; serialized : string }.

(** A message [{ type, action, href }] from the content script. *)
Record message : Type := { m_type : string; m_action : string; m_href : string }.

(** Calls into the browser API, in the order the script makes them. *)
Inductive call : Type :=
| TabsCreate (url : string) (active : bool)
| TabsRemove (tabId : nat)
| TabsReload (tabId : nat)
| TabsGoBack (tabId : nat)
| TabsGoForward (tabId : nat)
| OpenOptionsPage
| SendResponse (ok : bool).

Section Worker.
(** The URL parser of the host, [new URL(s)]: [None] when it throws. *)
Variable URL : string → option url.

Definition safeUrl (url : string) : string :=
  if String.eqb url "" then ""
  else match URL url with
       | None => ""
       | Some u =>
           (* allow http(s) and chrome internal new tab fallback *)
           if String.eqb (protocol u) "http:" || String.eqb (protocol u) "https:"
           then serialized u else ""
       end.

Definition openNewTab (urlMaybe : string) (active : bool) : list call :=
  let url := safeUrl urlMaybe in
  if negb (String.eqb url "") then [TabsCreate url active]
  else (* fallback new tab page *) [TabsCreate "chrome://newtab/" active].

Definition execActionFromMessage (action : string) (tabId : option nat) (href : string)
  : list call :=
  if String.eqb action "new_tab" then openNewTab href true
  else if String.eqb action "close_tab" then
    match tabId with Some t => [TabsRemove t] | None => [] end
  else if String.eqb action "reload" then
    match tabId with Some t => [TabsReload t] | None => [] end
  else if String.eqb action "back" then
    match tabId with Some t => [TabsGoBack t] | None => [] end
  else if String.eqb action "forward" then
    match tabId with Some t => [TabsGoForward t] | None => [] end
  else [].

(** The [chrome.runtime.onMessage] listener of scripts/sw.js. *)
Definition onMessage (msg : message) (tabId : option nat) : list call :=
  if String.eqb (m_type msg) "MG_OPEN_OPTIONS" then [OpenOptionsPage; SendResponse true]
  else if String.eqb (m_type msg) "MG_EXEC_ACTION" then
    execActionFromMessage (m_action msg) tabId (m_href msg) ++ [SendResponse true]
  else if String.eqb (m_type msg) "MG_GET_DEFAULTS" then [SendResponse true]
  else [SendResponse false].

(** The listener of the service worker that ships with the [Batch] variant: the URL
    check is written inline. *)
Definition onMessage_inline (msg : message) (tabId : option nat) : list call :=
  if String.eqb (m_type msg) "MG_EXEC_ACTION" then
    if String.eqb (m_action msg) "new_tab" then
      let url :=
        if String.eqb (m_href msg) "" then ""
        else match URL (m_href msg) with
             | None => ""
             | Some u =>
                 if String.eqb (protocol u) "http:" || String.eqb (protocol u) "https:"
                 then serialized u else ""
             end in
      (if negb (String.eqb url "") then [TabsCreate url true]
       else [TabsCreate "chrome://newtab/" true]) ++ [SendResponse true]
    else if String.eqb (m_action msg) "close_tab" then
      match tabId with Some t => [TabsRemove t] | None => [] end ++ [SendResponse true]
    else [SendResponse true]
  else if String.eqb (m_type msg) "MG_OPEN_NEW_TAB" then
    [TabsCreate "chrome://newtab/" true; SendResponse true]
  else if String.eqb (m_type msg) "MG_CLOSE_TAB" then
    match tabId with Some t => [TabsRemove t] | None => [] end ++ [SendResponse true]
  else [SendResponse false].
End Worker.

End Sw.

(* ===================================================================== *)
(** * scripts/content.js: the comet trail *)
(* ===================================================================== *)

Module Trail.
Import JS Num.
#[local] Open Scope R_scope.

(** Calls on the 2D context of the overlay canvas, in the order the script makes
    them (property assignments included). *)
Inductive canvas_op : Type :=
| Save
| Restore
| SetLineJoin (v : string)
| SetLineCap (v : string)
| SetGlobalAlpha (a : R)
| SetLineWidth (w : R)
| SetStrokeStyle (color : string)
| SetFillStyle (color : string)
| BeginPath
| MoveTo (x y : R)
| LineTo (x y : R)
| Stroke
| ClosePath
| Fill.

(** [v ?? d]. *)
Definition nullish (v d : value) : value :=
  match v with
  | VUndef | VNull => d
  | _ => v
  end.

(** One iteration of [for (let i = 1; i < n; i++)]: the segment from
    [points[i - 1]] to [points[i]].  The loop bounds keep both reads in range. *)
Definition segment (color : string) (baseAlpha lw : R) (points : list point) (n i : nat)
  : list canvas_op :=
  let t := INR i / INR (n - 1) in
  match points !! (i - 1)%nat, points !! i with
  | Some a, Some b =>
      [ SetGlobalAlpha (baseAlpha * t); SetLineWidth (Rmax 1 (lw * t));
        SetStrokeStyle color;
        BeginPath; MoveTo (px a) (py a); LineTo (px b) (py b); Stroke ]
  | _, _ => []
  end.

(** The three corners of the tip triangle, for the last two points [a] and [b]:
    the apex ahead of [b] and the two ends of the base through [b]. *)
Definition tip_corners (lw : R) (a b : point) : point * point * point :=
  let dx := px b - px a in
  let dy := py b - py a in
  (* Math.hypot(dx, dy) || 1 *)
  let len := if Req_dec_T (hypot dx dy) 0 then 1 else hypot dx dy in
  let ux := dx / len in
  let uy := dy / len in
  let px' := - uy in
  let py' := ux in
  let tipLen := Rmax 6 (lw * 4) in
  let tipW := Rmax 4 (lw * 2) in
  let tipX := px b + ux * tipLen in
  let tipY := py b + uy * tipLen in
  (Point tipX tipY,
   Point (px b + px' * tipW) (py b + py' * tipW),
   Point (px b - px' * tipW) (py b - py' * tipW)).

(** The filled tip. *)
Definition tip (color : string) (baseAlpha lw : R) (a b : point) : list canvas_op :=
  let '(apex, base1, base2) := tip_corners lw a b in
  [ SetGlobalAlpha baseAlpha; SetFillStyle color;
    BeginPath; MoveTo (px apex) (py apex);
    LineTo (px base1) (py base1); LineTo (px base2) (py base2);
    ClosePath; Fill ].

Section Draw.
(** The conversions of the host language that the function relies on: see [JS.Number];
    [ToString] is [String(v)] on a value that is not a string. *)
Variable StringToNumber : string → number.
Variable ObjectToNumber : value → completion number.
Variable ToString : value → completion string.

(** [String(v)]. *)
Definition String_ (v : value) : completion string :=
  match v with
  | VStr s => Normal s
  | _ => ToString v
  end.

(** [drawComet(points)]: [ctx] tells whether [state.ctx] is set, [prefs] is
    [state.prefs].  The result lists the canvas calls made; a conversion that throws
    does so before the first call. *)
Definition drawComet (ctx : bool) (prefs : gmap string value) (points : list point)
  : completion (list canvas_op) :=
  if negb ctx || (length points <? 2)%nat then mret []
  else
    color ← String_ (if truthy (read prefs "trailColor") then read prefs "trailColor"
                     else VStr "#00e5ff");
    baseAlpha ← Content.clamp StringToNumber ObjectToNumber
                  (nullish (read prefs "trailAlpha") (Content.num (85 # 100))) (5 # 100) 1;
    lw ← Content.clamp StringToNumber ObjectToNumber
           (nullish (read prefs "lineWidth") (Content.num 3)) 1 18;
    let n := length points in
    match points !! (n - 2)%nat, points !! (n - 1)%nat with
    | Some a, Some b =>
        mret ([Save; SetLineJoin "round"; SetLineCap "round"]
              ++ flat_map (segment color (Q2R baseAlpha) (Q2R lw) points n) (seq 1 (n - 1))
              ++ tip color (Q2R baseAlpha) (Q2R lw) a b
              ++ [Restore])
    | _, _ => mret []
    end.
End Draw.

End Trail.

(* ===================================================================== *)
(** * scripts/sw.js: the settings written on install *)
(* ===================================================================== *)

Module Install.
Import JS.

Definition KEYS_cfg : string := "mg_config_v1".
Definition KEYS_list : string := "mg_blacklist_v1".

Definition num (q : Q) : value := VNum (Fin q).

Definition DEFAULTS_enabled : bool := true.
Definition DEFAULTS_mode : string := "blacklist".
Definition DEFAULTS_theme : string := "dark".

Definition DEFAULTS_prefs : gmap string value :=
  <["minSegmentPx" := num 18]> (<["jitterPx" := num 4]> (<["lineWidth" := num 3]>
  (<["trailColor" := VStr "#00e5ff"]> (<["trailAlpha" := num (85 # 100)]> ∅)))).

Definition DEFAULTS_gestureMap : gmap string value :=
  <["L" := VStr "back"]> (<["R" := VStr "forward"]> (<["U" := VStr "top"]>
  (<["D" := VStr "bottom"]> (<["UR" := VStr "new_tab"]> (<["DR" := VStr "close_tab"]>
  (<["DL" := VStr "reload"]> ∅)))))).

(** The object literal [merged]. *)
Definition merged_cfg (enabled : bool) (mode theme : string)
    (prefs gestureMap : gmap string value) : value :=
  VObj (<["enabled" := VBool enabled]> (<["mode" := VStr mode]>
       (<["theme" := VStr theme]> (<["prefs" := VObj prefs]>
       (<["gestureMap" := VObj gestureMap]> ∅))))).

Section Worker.
Variable StringToNumber : string → number.
Variable ObjectToNumber : value → completion number.

(** [clamp(n, a, b)] of scripts/sw.js. *)
Definition clamp (n : value) (a b : Q) : completion Q :=
  n ← Number StringToNumber ObjectToNumber n;
  match n with
  | Fin q => mret (Qmin b (Qmax a q))
  | _ => mret a
  end.

(** [merged.prefs.k = clamp(merged.prefs.k, a, b)]. *)
Definition clamp_field (k : string) (a b : Q) (p : gmap string value)
  : completion (gmap string value) :=
  q ← clamp (read p k) a b;
  mret (<[k := num q]> p).

(** [ensureDefaultsExist()], from the object [res] that
    [chrome.storage.local.get([KEYS.cfg, KEYS.list])] resolved to; the result is the
    object handed to [chrome.storage.local.set].  When a conversion throws, the
    function rejects before anything is written. *)
Definition ensureDefaultsExist (res : gmap string value) : completion (gmap string value) :=
  let cfg := read res KEYS_cfg in
  let list := read res KEYS_list in
  let cfgOk := truthy cfg && typeof_object cfg in
  let listOk := isArray list in
  let cfg := if cfgOk then cfg else VObj ∅ in
  let list := if listOk then list else VArr [] in
  let enabled :=
    match get cfg "enabled" with
    | VBool b => b
    | _ => DEFAULTS_enabled
    end in
  let mode :=
    match get cfg "mode" with
    | VStr s => if String.eqb s "blacklist" || String.eqb s "whitelist" then s
                else DEFAULTS_mode
    | _ => DEFAULTS_mode
    end in
  let theme :=
    match get cfg "theme" with
    | VStr s => if String.eqb s "dark" || String.eqb s "dim" || String.eqb s "light"
                then s else DEFAULTS_theme
    | _ => DEFAULTS_theme
    end in
  let prefs0 := own_props (object_or_empty (get cfg "prefs")) ∪ DEFAULTS_prefs in
  let gestureMap := own_props (object_or_empty (get cfg "gestureMap")) ∪ DEFAULTS_gestureMap in
  (* clamp a few prefs just to keep them sane *)
  p ← clamp_field "minSegmentPx" 6 60 prefs0;
  p ← clamp_field "jitterPx" 0 20 p;
  p ← clamp_field "lineWidth" 1 12 p;
  p ← clamp_field "trailAlpha" (5 # 100) 1 p;
  mret (<[KEYS_cfg := merged_cfg enabled mode theme p gestureMap]>
        (<[KEYS_list := if listOk then list else VArr []]> ∅)).
End Worker.

(** [chrome.storage.local.set(items)] on the stored object [store]. *)
Definition storage_set (items store : gmap string value) : gmap string value :=
  items ∪ store.

End Install.

(* ===================================================================== *)
(** * The content-script variant with the link swipe: trail colour *)
(* ===================================================================== *)

Module Overlay.
Import JS.
#[local] Open Scope Z_scope.

(** The value of a hexadecimal digit, [None] for any other character. *)
Definition hex_digit (c : ascii) : option Z :=
  let n := Z.of_nat (nat_of_ascii c) in
  if (48 <=? n) && (n <=? 57) then Some (n - 48)
  else if (97 <=? n) && (n <=? 102) then Some (n - 87)
  else if (65 <=? n) && (n <=? 70) then Some (n - 55)
  else None.

(** The longest prefix of [s] made of hexadecimal digits: the integer it spells
    after the digits already read ([acc]), and whether a digit was read. *)
Fixpoint hex_prefix (s : string) (acc : Z) (seen : bool) : Z * bool :=
  match s with
  | EmptyString => (acc, seen)
  | String c s' =>
      match hex_digit c with
      | Some d => hex_prefix s' (16 * acc + d) true
      | None => (acc, seen)
      end
  end.

Section ParseInt.
(** The Number value for a mathematical integer: an integer of magnitude up to
    2^53 is a double itself; how a larger one rounds (possibly to an infinity) is
    left to the host. *)
Variable round_to_double : Z → number.

Definition number_of_Z (z : Z) : number :=
  if Z.abs z <=? 2 ^ 53 then Fin (inject_Z z) else round_to_double z.

(** [parseInt(s, 16)]: leading white space, an optional sign, an optional 0x or
    0X, then the longest run of hexadecimal digits; NaN when there is none. *)
Definition parseInt16 (s : string) : number :=
  let s := Str.trimStart s in
  let '(sign, s) :=
    match s with
    | String "-"%char s' => (-1, s')
    | String "+"%char s' => (1, s')
    | _ => (1, s)
    end in
  let s :=
    match s with
    | String "0"%char (String "x"%char s') => s'
    | String "0"%char (String "X"%char s') => s'
    | _ => s
    end in
  let '(v, seen) := hex_prefix s 0 false in
  if seen then number_of_Z (sign * v) else NaN.

(** ToInt32, the conversion the bitwise operators apply to their operands. *)
Definition ToInt32 (n : number) : Z :=
  match n with
  | Fin q =>
      let int := Z.quot (Qnum q) (Z.pos (Qden q)) in
      let int32bit := int mod 2 ^ 32 in
      if int32bit <? 2 ^ 31 then int32bit else int32bit - 2 ^ 32
  | _ => 0
  end.

(** [{ r, g, b }]. *)
Record rgb : Type := { r : Z; g : Z; b : Z }.

(** [h.split("").map((c) => c + c).join("")]. *)
Fixpoint double_chars (h : string) : string :=
  match h with
  | EmptyString => EmptyString
  | String c h' => String c (String c (double_chars h'))
  end.

(** [hexToRgb(hex)] for a string [hex]. *)
Definition hexToRgb (hex : string) : rgb :=
  let h := Str.trim hex in
  match h with
  | String "#"%char h =>
      let h := if Nat.eqb (String.length h) 3 then double_chars h else h in
      let n := parseInt16 h in
      if negb (isFinite n) then {| r := 0; g := 229; b := 255 |}
      else {| r := Z.land (Z.shiftr (ToInt32 n) 16) 255;
              g := Z.land (Z.shiftr (ToInt32 n) 8) 255;
              b := Z.land (ToInt32 n) 255 |}
  | _ => {| r := 0; g := 229; b := 255 |}
  end.
End ParseInt.

End Overlay.

(* ===================================================================== *)
(** * The content-script variant with the link swipe: the left-button swipe *)
(* ===================================================================== *)

Module LinkSwipe.
Import Num.
#[local] Open Scope R_scope.

Definition LEFT_THRESHOLD : R := 26.
Definition LEFT_DOMINANCE : R := 135 / 100.
Definition LEFT_MAX_VERTICAL : R := 220.

(** [shouldRunOnThisSite(cfg, list, url)]: [enabled] and [mode] are the fields of
    [cfg] it reads, [host] is [domainFromUrl(url)]. *)
Definition shouldRunOnThisSite (enabled : bool) (mode : string) (list : list string)
    (host : string) : bool :=
  if negb enabled then false
  else if String.eqb host "" then true
  else
    let matched := existsb (fun rule => Content.hostMatchesRule host rule) list in
    if String.eqb mode "whitelist" then matched
    else negb matched (* blacklist mode *).

(** What the handlers read off a pointer event: [typing] is
    [isTypingTarget(e.target)], [href] is
    [getLinkHrefUnderPointer(e.clientX, e.clientY, e.target)]. *)
Record pointer_event : Type := {
  button : Z;
  pointerId : Z;
  clientX : R;
  clientY : R;
  typing : bool;
  href : string
}.

(** The module-level variables of the swipe, the two configuration flags the
    handlers test ([enabledOnSite] and [liveCfg?.enabled]), and what is still due:
    [pointerup] handlers suspended at their [await], and 350 ms timers. *)
Record state : Type := {
  enabledOnSite : bool;
  enabled : bool;
  leftActive : bool;
  leftPointerId : option Z;
  leftStart : option point;
  leftHref : string;
  leftTriggered : bool;
  awaiting : nat;
  timers : nat
}.

(** What a handler does to the outside: whether it called [preventDefault] on its
    event, and the [href] of each "new_tab" message it sent. *)
Record reaction : Type := { prevented : bool; sent : list string }.

Definition nothing : reaction := {| prevented := false; sent := [] |}.
Definition prevent : reaction := {| prevented := true; sent := [] |}.

Definition resetLeftSwipe (st : state) : state :=
  {| enabledOnSite := enabledOnSite st; enabled := enabled st;
     leftActive := false; leftPointerId := None; leftStart := None; leftHref := "";
     (* leftTriggered is kept: it is cleared after click suppression *)
     leftTriggered := leftTriggered st;
     awaiting := awaiting st; timers := timers st |}.

Definition set_triggered (st : state) (t : bool) : state :=
  {| enabledOnSite := enabledOnSite st; enabled := enabled st;
     leftActive := leftActive st; leftPointerId := leftPointerId st;
     leftStart := leftStart st; leftHref := leftHref st;
     leftTriggered := t;
     awaiting := awaiting st; timers := timers st |}.

(** The [dragstart] listener. *)
Definition onDragStart (st : state) : state * reaction :=
  if leftActive st then (st, prevent) else (st, nothing).

(** The [click] listener. *)
Definition onClick (st : state) : state * reaction :=
  if leftTriggered st then (set_triggered st false, prevent) else (st, nothing).

(** The [pointerdown] listener. *)
Definition onPointerDown (st : state) (e : pointer_event) : state * reaction :=
  if negb (Z.eqb (button e) 0) then (st, nothing)
  else if negb (enabledOnSite st) || negb (enabled st) then (st, nothing)
  else if typing e then (st, nothing)
  else if String.eqb (href e) "" then (st, nothing)
  else
    ({| enabledOnSite := enabledOnSite st; enabled := enabled st;
        leftActive := true; leftPointerId := Some (pointerId e);
        leftStart := Some (Point (clientX e) (clientY e)); leftHref := href e;
        leftTriggered := false;
        awaiting := awaiting st; timers := timers st |}, nothing).

(** [leftPointerId !== e.pointerId]. *)
Definition other_pointer (st : state) (e : pointer_event) : bool :=
  match leftPointerId st with
  | Some id => negb (Z.eqb id (pointerId e))
  | None => true
  end.

(** The test of [pointermove] that triggers the swipe:
    [dx > 0 && adx >= LEFT_THRESHOLD && adx >= ady * LEFT_DOMINANCE]. *)
Definition mostly_right (dx dy : R) : bool :=
  ltR 0 dx && leR LEFT_THRESHOLD (Rabs dx) && leR (Rabs dy * LEFT_DOMINANCE) (Rabs dx).

(** The [pointermove] listener. *)
Definition onPointerMove (st : state) (e : pointer_event) : state * reaction :=
  if negb (leftActive st) then (st, nothing)
  else if other_pointer st e then (st, nothing)
  else
    match leftStart st with
    | None => (st, nothing) (* not reached: leftStart is set whenever leftActive is *)
    | Some start =>
        let dx := clientX e - px start in
        let dy := clientY e - py start in
        if ltR LEFT_MAX_VERTICAL (Rabs dy) then
          (* user is doing something else; bail *)
          (resetLeftSwipe st, nothing)
        else
          let st := if negb (leftTriggered st) && mostly_right dx dy
                    then set_triggered st true else st in
          if leftTriggered st then (st, prevent) else (st, nothing)
    end.

(** The [pointerup] listener up to its [await]: when the swipe triggered it sends
    the message and suspends; otherwise it resets at once. *)
Definition onPointerUp (st : state) (e : pointer_event) : state * reaction :=
  if negb (leftActive st) then (st, nothing)
  else if other_pointer st e then (st, nothing)
  else if leftTriggered st && negb (String.eqb (leftHref st) "") then
    ({| enabledOnSite := enabledOnSite st; enabled := enabled st;
        leftActive := leftActive st; leftPointerId := leftPointerId st;
        leftStart := leftStart st; leftHref := leftHref st;
        leftTriggered := leftTriggered st;
        awaiting := S (awaiting st); timers := timers st |},
     {| prevented := true; sent := [leftHref st] |})
  else (resetLeftSwipe st, nothing).

(** The rest of a suspended [pointerup] handler, once [execAction] has settled:
    it arms the 350 ms timer and resets the swipe. *)
Definition onSettled (st : state) : state :=
  match awaiting st with
  | O => st
  | S k =>
      resetLeftSwipe
        {| enabledOnSite := enabledOnSite st; enabled := enabled st;
           leftActive := leftActive st; leftPointerId := leftPointerId st;
           leftStart := leftStart st; leftHref := leftHref st;
           leftTriggered := leftTriggered st;
           awaiting := k; timers := S (timers st) |}
  end.

(** A 350 ms timer firing: [leftTriggered = false]. *)
Definition onTimer (st : state) : state :=
  match timers st with
  | O => st
  | S k =>
      {| enabledOnSite := enabledOnSite st; enabled := enabled st;
         leftActive := leftActive st; leftPointerId := leftPointerId st;
         leftStart := leftStart st; leftHref := leftHref st;
         leftTriggered := false;
         awaiting := awaiting st; timers := k |}
  end.

(** The [pointercancel] listener. *)
Definition onPointerCancel (st : state) (e : pointer_event) : state * reaction :=
  if negb (leftActive st) then (st, nothing)
  else if other_pointer st e then (st, nothing)
  else (resetLeftSwipe st, nothing).

(** [refreshConfig()], given what [readAll] returned and the host of the page. *)
Definition refreshConfig (st : state) (cfg_enabled : bool) (cfg_mode : string)
    (list : list string) (host : string) : state :=
  {| enabledOnSite := shouldRunOnThisSite cfg_enabled cfg_mode list host;
     enabled := cfg_enabled;
     leftActive := leftActive st; leftPointerId := leftPointerId st;
     leftStart := leftStart st; leftHref := leftHref st;
     leftTriggered := leftTriggered st;
     awaiting := awaiting st; timers := timers st |}.

Inductive input : Type :=
| DragStart
| Click
| PointerDown (e : pointer_event)
| PointerMove (e : pointer_event)
| PointerUp (e : pointer_event)
| PointerCancel (e : pointer_event)
| Settled
| Timer
| ConfigRead (cfg_enabled : bool) (cfg_mode : string) (list : list string) (host : string).

Definition step (st : state) (i : input) : state * reaction :=
  match i with
  | DragStart => onDragStart st
  | Click => onClick st
  | PointerDown e => onPointerDown st e
  | PointerMove e => onPointerMove st e
  | PointerUp e => onPointerUp st e
  | PointerCancel e => onPointerCancel st e
  | Settled => (onSettled st, nothing)
  | Timer => (onTimer st, nothing)
  | ConfigRead cfg_enabled cfg_mode list host =>
      (refreshConfig st cfg_enabled cfg_mode list host, nothing)
  end.

(** The state after an input sequence and the reaction to each input, in order. *)
Fixpoint run (st : state) (inputs : list input) : state * list reaction :=
  match inputs with
  | [] => (st, [])
  | i :: rest =>
      let '(st', out) := step st i in
      let '(st'', outs) := run st' rest in
      (st'', out :: outs)
  end.

End LinkSwipe.

(* ===================================================================== *)
(** * scripts/options.js: the domain list editor *)
(* ===================================================================== *)

Module Options.

(** [new Set(l)] in insertion order: [seen] holds the elements added so far. *)
Fixpoint set_add_all (seen l : list string) : list string :=
  match l with
  | [] => seen
  | x :: l' =>
      if bool_decide (x ∈ seen) then set_add_all seen l'
      else set_add_all (seen ++ [x]) l'
  end.

(** [uniq(arr)]: [Array.from(new Set(arr.filter(Boolean)))], on an array of strings. *)
Definition uniq (arr : list string) : list string :=
  set_add_all [] (List.filter (fun s => negb (String.eqb s "")) arr).

(** [s.includes(t)]. *)
Fixpoint includes (s t : string) : bool :=
  String.prefix t s ||
  match s with
  | EmptyString => false
  | String _ s' => includes s' t
  end.

(** [isValidHost(s)]. *)
Definition isValidHost (s : string) : bool :=
  let s := Content.normalizeHost s in
  if String.eqb s "" then false
  else if includes s "://" then false
  else if includes s "/" then false
  else true.

(** The click handler of the save button: the list written for the text [raw] of
    the textarea. *)
Definition saved_list (raw : string) : list string :=
  uniq (List.filter isValidHost (List.map Content.normalizeHost (Str.split "010" raw))).

(** The text the page puts into the textarea for a stored list:
    [(list || []).join("\n")]. *)
Definition shown (list : list string) : string :=
  Str.join (String "010" EmptyString) list.

End Options.

(* ===================================================================== *)
(** * Properties *)
(* ===================================================================== *)

(** ** Real-number facts *)

Section NumFacts.
Import Num.
#[local] Open Scope R_scope.

Lemma leR_true (a b : R) : a <= b → leR a b = true.
Proof. intros H. unfold leR. destruct (Rle_dec a b); [reflexivity | contradiction]. Qed.

Lemma leR_false (a b : R) : b < a → leR a b = false.
Proof. intros H. unfold leR. destruct (Rle_dec a b); [lra | reflexivity]. Qed.

Lemma ltR_true (a b : R) : a < b → ltR a b = true.
Proof. intros H. unfold ltR. destruct (Rlt_dec a b); [reflexivity | contradiction]. Qed.

Lemma ltR_false (a b : R) : b <= a → ltR a b = false.
Proof. intros H. unfold ltR. destruct (Rlt_dec a b); [lra | reflexivity]. Qed.

Lemma leR_iff (a b : R) : leR a b = true ↔ a <= b.
Proof. unfold leR. destruct (Rle_dec a b); split; intros; try discriminate; tauto. Qed.

Lemma ltR_iff (a b : R) : ltR a b = true ↔ a < b.
Proof. unfold ltR. destruct (Rlt_dec a b); split; intros; try discriminate; tauto. Qed.

(** A distance whose square is known. *)
Lemma hypot_eval (dx dy d : R) : 0 <= d → dx * dx + dy * dy = d * d → hypot dx dy = d.
Proof. intros Hd H. unfold hypot. rewrite H. apply sqrt_square. exact Hd. Qed.

Lemma dist_eval (a b : point) (d : R) :
  0 <= d →
  (px a - px b) * (px a - px b) + (py a - py b) * (py a - py b) = d * d →
  dist a b = d.
Proof. intros Hd H. unfold dist. apply hypot_eval; assumption. Qed.

Lemma atan2_bounds (y x : R) : - PI < atan2 y x <= PI.
Proof.
  pose proof PI_RGT_0 as Hpi. pose proof (atan_bound (y / x)) as Hb.
  unfold atan2.
  destruct (Rlt_dec 0 x) as [Hx|Hx]; [lra|].
  destruct (Rlt_dec x 0) as [Hx'|Hx'].
  - assert (Hinv : / x < 0) by (apply Rinv_lt_0_compat; exact Hx').
    destruct (Rle_dec 0 y) as [Hy|Hy].
    + assert (y / x <= 0) by (unfold Rdiv; nra).
      assert (atan (y / x) <= 0).
      { destruct (Req_dec (y / x) 0) as [->|Hne]; [rewrite atan_0; lra|].
        apply Rlt_le. rewrite <- atan_0. apply atan_increasing. lra. }
      lra.
    + assert (0 < y / x) by (unfold Rdiv; nra).
      assert (0 < atan (y / x)) by (rewrite <- atan_0; apply atan_increasing; assumption).
      lra.
  - destruct (Rlt_dec 0 y); [lra|]. destruct (Rlt_dec y 0); lra.
Qed.

Lemma angle_deg_bounds (dx dy : R) : -180 < angle_deg dx dy <= 180.
Proof.
  pose proof PI_RGT_0 as Hpi. pose proof (atan2_bounds dy dx) as [H1 H2].
  unfold angle_deg.
  assert (Hinv : 0 < / PI) by (apply Rinv_0_lt_compat; exact Hpi).
  assert (E : atan2 dy dx * 180 / PI = 180 * (atan2 dy dx * / PI)) by (unfold Rdiv; ring).
  rewrite E.
  assert (-1 < atan2 dy dx * / PI <= 1).
  { split.
    - replace (-1) with (- PI * / PI) by (field; lra). apply Rmult_lt_compat_r; assumption.
    - replace 1 with (PI * / PI) by (field; lra). apply Rmult_le_compat_r; lra. }
  lra.
Qed.

(** The angle of a displacement along the positive x axis, and along the
    down-right diagonal. *)
Lemma angle_deg_right (k : R) : 0 < k → angle_deg k 0 = 0.
Proof.
  intros Hk. unfold angle_deg, atan2.
  destruct (Rlt_dec 0 k); [|contradiction].
  replace (0 / k) with 0 by (field; lra). rewrite atan_0. field. pose proof PI_RGT_0. lra.
Qed.

Lemma angle_deg_diagonal (k : R) : 0 < k → angle_deg k k = 45.
Proof.
  intros Hk. unfold angle_deg, atan2.
  destruct (Rlt_dec 0 k); [|contradiction].
  replace (k / k) with 1 by (field; lra). rewrite atan_1. field. pose proof PI_RGT_0. lra.
Qed.
End NumFacts.

(** ** Sample configurations and events *)

Section Samples.
Import JS Num Content.
#[local] Open Scope R_scope.

(** The default configuration with the recognition thresholds [t]. *)
Definition settings_with (t : tuning) : settings :=
  {| enabled := true; mode := "blacklist"; list_ := []; prefs := t;
     gestureMap := DEFAULTS_gestureMap; policies := DEFAULT_POLICIES |}.

(** The thresholds scripts/content.js ships with. *)
Definition default_tuning : tuning :=
  {| minSegmentPx := 8; jitterPx := 4; sampleMinPx := 3; movedPx := 3 |}.

(** minSegmentPx at its minimum and jitterPx at its maximum. *)
Definition coarse_jitter : tuning :=
  {| minSegmentPx := 6; jitterPx := 20; sampleMinPx := 3; movedPx := 3 |}.

(** A right-button event at (x, y) over the element [el]. *)
Definition mouse_on (el : option element) (x y : R) : mouse_event :=
  {| button := 2; altKey := false; clientX := x; clientY := y; target := el |}.

Definition mouse_at (x y : R) : mouse_event := mouse_on None x y.

(** A hyperlink whose [href] is already absolute. *)
Definition link_to (u : string) : option element :=
  Some {| editable := false;
          closest_a := Some {| href_attr := u; resolved := Some u |} |}.

(** Distances along a horizontal line. *)
Lemma dist_x_axis (a b y : R) : a <= b → dist (Point a y) (Point b y) = b - a.
Proof. intros H. apply dist_eval; [lra | simpl; ring]. Qed.
End Samples.

(** ** Adjacent duplicates *)

Inductive NoAdjDup {A : Type} : list A → Prop :=
| nad_nil : NoAdjDup []
| nad_one (x : A) : NoAdjDup [x]
| nad_cons (x y : A) (l : list A) : x ≠ y → NoAdjDup (y :: l) → NoAdjDup (x :: y :: l).

Lemma NoAdjDup_snoc {A} (l : list A) (x : A) :
  NoAdjDup l → last l ≠ Some x → NoAdjDup (l ++ [x]).
Proof.
  induction 1 as [|y|y z l Hne Hl IH]; simpl; intros Hlast.
  - constructor.
  - constructor; [congruence | constructor].
  - constructor; [exact Hne | apply IH; exact Hlast].
Qed.

Lemma NoAdjDup_app_inv {A} (l : list A) (x : A) (k : list A) :
  NoAdjDup (l ++ x :: k) → last l ≠ Some x ∧ NoAdjDup (l ++ [x]).
Proof.
  revert x k. induction l as [|a l IH]; intros x k H; simpl in *.
  - split; [discriminate | constructor].
  - destruct l as [|b l]; simpl in *.
    + inversion H as [| |? ? ? Hne Hrest]; subst.
      split; [congruence|]. constructor; [assumption | constructor].
    + inversion H as [| |? ? ? Hne Hrest]; subst.
      destruct (IH x k Hrest) as [G1 G2].
      split; [exact G1 | constructor; assumption].
Qed.

(** Strings as lists of characters. *)
Definition chars : string → list ascii := list_ascii_of_string.

Lemma app_cons (a : ascii) (s t : string) : String a s +:+ t = String a (s +:+ t).
Proof. reflexivity. Qed.

Lemma app_nil_l (t : string) : "" +:+ t = t.
Proof. reflexivity. Qed.

Lemma chars_app (s t : string) : chars (s +:+ t) = chars s ++ chars t.
Proof.
  induction s as [|a s IH]; [reflexivity|].
  rewrite app_cons. simpl. rewrite IH. reflexivity.
Qed.

Lemma chars_snoc (s : string) (c : ascii) :
  chars (s +:+ String c EmptyString) = chars s ++ [c].
Proof. apply chars_app. Qed.

Lemma last_char_chars (s : string) : Str.last_char s = last (chars s).
Proof.
  induction s as [|a s IH]; [reflexivity|].
  simpl. destruct s; [reflexivity | exact IH].
Qed.

Lemma app_snoc_assoc (s t : string) (c : ascii) :
  (s +:+ String c EmptyString) +:+ t = s +:+ String c t.
Proof.
  induction s as [|a s IH]; [reflexivity|].
  rewrite !app_cons, IH. reflexivity.
Qed.

Lemma app_empty_r (s : string) : s +:+ "" = s.
Proof. induction s as [|a s IH]; [reflexivity | rewrite app_cons, IH; reflexivity]. Qed.

(** ** The pattern normaliser *)

Definition is_LRUD (c : ascii) : Prop := Str.includes "LRUD" c = true.

(** A string of the letters L, R, U, D with no letter repeated in a row. *)
Definition Clean (s : string) : Prop := Forall is_LRUD (chars s) ∧ NoAdjDup (chars s).

Lemma upper_LRUD (c : ascii) : is_LRUD c → Str.upper_char c = c.
Proof.
  unfold is_LRUD.
  destruct c as [[] [] [] [] [] [] [] []]; intros H; try discriminate H; reflexivity.
Qed.

Lemma toUpperCase_clean (s : string) : Forall is_LRUD (chars s) → Str.toUpperCase s = s.
Proof.
  induction s as [|a s IH]; intros H; [reflexivity|].
  inversion H as [|? ? Ha Hs]; subst.
  change (Str.toUpperCase (String a s))
    with (String (Str.upper_char a) (Str.toUpperCase s)).
  rewrite (upper_LRUD a Ha), (IH Hs). reflexivity.
Qed.

Lemma compact_loop_cons (c : ascii) (rest compact : string) :
  Swipe.compact_loop (String c rest) compact =
  if Str.includes "LRUD" c && negb (bool_decide (Str.last_char compact = Some c))
  then Swipe.compact_loop rest (compact +:+ String c EmptyString)
  else Swipe.compact_loop rest compact.
Proof. reflexivity. Qed.

Lemma compact_loop_clean (rest compact : string) :
  Clean compact → Clean (Swipe.compact_loop rest compact).
Proof.
  revert compact. induction rest as [|c rest IH]; intros compact Hc; [exact Hc|].
  rewrite compact_loop_cons.
  destruct (Str.includes "LRUD" c) eqn:Hin; [|apply IH; exact Hc].
  case_bool_decide as Hlast; [apply IH; exact Hc|].
  rewrite andb_true_l. change (negb false) with true. cbv iota.
  apply IH. destruct Hc as [H1 H2]. split; rewrite chars_snoc.
  - apply Forall_app. split; [exact H1 | constructor; [exact Hin | constructor]].
  - apply NoAdjDup_snoc; [exact H2 | rewrite <- last_char_chars; exact Hlast].
Qed.

Lemma compact_loop_fixed (t acc : string) :
  Clean (acc +:+ t) → Swipe.compact_loop t acc = acc +:+ t.
Proof.
  revert acc. induction t as [|c t IH]; intros acc Hc.
  - rewrite app_empty_r. reflexivity.
  - rewrite compact_loop_cons.
    assert (Hc2 : Clean ((acc +:+ String c EmptyString) +:+ t))
      by (rewrite app_snoc_assoc; exact Hc).
    destruct Hc as [H1 H2]. rewrite chars_app in H1, H2. simpl in H1, H2.
    apply Forall_app in H1 as [_ H1]. inversion H1 as [|? ? Hc' _]; subst.
    destruct (NoAdjDup_app_inv _ _ _ H2) as [Hlast _].
    unfold is_LRUD in Hc'. rewrite Hc'.
    rewrite bool_decide_eq_false_2 by (rewrite last_char_chars; exact Hlast).
    cbv beta iota delta [andb negb].
    rewrite IH by exact Hc2. apply app_snoc_assoc.
Qed.

(** The strings the two-letter rule rewrites. *)
Definition swappable (s : string) : Prop :=
  s = "RU" ∨ s = "RD" ∨ s = "LU" ∨ s = "LD".

Lemma normalizePattern_clean_fixed (r : string) :
  Clean r → ¬ swappable r → Swipe.normalizePattern r = r.
Proof.
  intros Hc Hns. unfold Swipe.normalizePattern.
  rewrite toUpperCase_clean by apply Hc.
  destruct (String.eqb r "") eqn:He; [apply String.eqb_eq in He; congruence|].
  rewrite (compact_loop_fixed r "") by exact Hc. rewrite app_nil_l.
  destruct (Nat.eqb (String.length r) 2); [|reflexivity].
  destruct (String.eqb r "RU") eqn:E1; [apply String.eqb_eq in E1; exfalso; apply Hns; unfold swappable; tauto|].
  destruct (String.eqb r "RD") eqn:E2; [apply String.eqb_eq in E2; exfalso; apply Hns; unfold swappable; tauto|].
  destruct (String.eqb r "LU") eqn:E3; [apply String.eqb_eq in E3; exfalso; apply Hns; unfold swappable; tauto|].
  destruct (String.eqb r "LD") eqn:E4; [apply String.eqb_eq in E4; exfalso; apply Hns; unfold swappable; tauto|].
  reflexivity.
Qed.

Lemma Clean_literal (s : string) :
  forallb (Str.includes "LRUD") (chars s) = true →
  NoAdjDup (chars s) → Clean s.
Proof.
  intros H1 H2. split; [|exact H2].
  apply Forall_forall. intros c Hc. rewrite forallb_forall in H1. apply H1.
  apply list_elem_of_In. exact Hc.
Qed.

Lemma normalizePattern_result (p : string) :
  Clean (Swipe.normalizePattern p) ∧ ¬ swappable (Swipe.normalizePattern p).
Proof.
  unfold Swipe.normalizePattern.
  destruct (String.eqb (Str.toUpperCase p) "").
  { split; [split; constructor | unfold swappable; intuition discriminate]. }
  assert (Hc : Clean (Swipe.compact_loop (Str.toUpperCase p) ""))
    by (apply compact_loop_clean; split; constructor).
  set (compact := Swipe.compact_loop (Str.toUpperCase p) "") in *.
  destruct (Nat.eqb (String.length compact) 2) eqn:Hlen.
  - destruct (String.eqb compact "RU") eqn:E1.
    { split; [apply Clean_literal; [reflexivity | repeat constructor; discriminate]
             | unfold swappable; intuition discriminate]. }
    destruct (String.eqb compact "RD") eqn:E2.
    { split; [apply Clean_literal; [reflexivity | repeat constructor; discriminate]
             | unfold swappable; intuition discriminate]. }
    destruct (String.eqb compact "LU") eqn:E3.
    { split; [apply Clean_literal; [reflexivity | repeat constructor; discriminate]
             | unfold swappable; intuition discriminate]. }
    destruct (String.eqb compact "LD") eqn:E4.
    { split; [apply Clean_literal; [reflexivity | repeat constructor; discriminate]
             | unfold swappable; intuition discriminate]. }
    split; [exact Hc|]. apply String.eqb_neq in E1, E2, E3, E4.
    unfold swappable. tauto.
  - split; [exact Hc|]. intros [->|[->|[->| ->]]]; discriminate.
Qed.

(** C7: [normalizePattern] is idempotent; a horizontal+vertical pair collapses to its
    diagonal in either order, and each diagonal is a fixed point. *)
Theorem C7_normalizePattern_idempotent (p : string) :
  Swipe.normalizePattern (Swipe.normalizePattern p) = Swipe.normalizePattern p ∧
  (Swipe.normalizePattern "RU" = "UR" ∧ Swipe.normalizePattern "RD" = "DR" ∧
   Swipe.normalizePattern "LU" = "UL" ∧ Swipe.normalizePattern "LD" = "DL") ∧
  Forall (fun d => Swipe.normalizePattern d = d) ["UR"; "DR"; "UL"; "DL"].
Proof.
  split; [|split; [repeat split | repeat constructor]].
  destruct (normalizePattern_result p) as [Hc Hns].
  apply normalizePattern_clean_fixed; assumption.
Qed.

(** ** The direction classifiers *)

Section Classifier.
Import Num.
#[local] Open Scope R_scope.

Lemma leR_false_iff (a b : R) : leR a b = false ↔ b < a.
Proof.
  unfold leR. destruct (Rle_dec a b); split; intros; try discriminate; try lra;
    reflexivity.
Qed.

Lemma ltR_false_iff (a b : R) : ltR a b = false ↔ b <= a.
Proof.
  unfold ltR. destruct (Rlt_dec a b); split; intros; try discriminate; try lra;
    reflexivity.
Qed.

(** Case analysis on every absolute value in sight. *)
Ltac abs_cases :=
  unfold Rabs in *;
  repeat match goal with
         | H : context [Rcase_abs ?x] |- _ => destruct (Rcase_abs x)
         | |- context [Rcase_abs ?x] => destruct (Rcase_abs x)
         end.

(** The first test of [dir8] in scripts/content.js, on an angle in (-180, 180]. *)
Lemma horizontal_band_in (ang : R) :
  -180 < ang <= 180 → Rabs ang <= 85 ∨ 95 <= Rabs ang →
  leR (Rabs ang) 85 || leR (Rabs (ang - 180)) 85 || leR (Rabs (ang + 180)) 85 = true.
Proof.
  intros Hb [H|H].
  - rewrite (leR_true _ _ H). reflexivity.
  - destruct (Rle_dec 0 ang) as [Hs|Hs].
    + rewrite (leR_true (Rabs (ang - 180)) 85) by (abs_cases; lra).
      apply orb_true_iff. left. apply orb_true_r.
    + rewrite (leR_true (Rabs (ang + 180)) 85) by (abs_cases; lra).
      apply orb_true_r.
Qed.

Lemma horizontal_band_out (ang : R) :
  85 < Rabs ang < 95 →
  leR (Rabs ang) 85 || leR (Rabs (ang - 180)) 85 || leR (Rabs (ang + 180)) 85 = false.
Proof.
  intros H.
  rewrite (leR_false (Rabs ang) 85) by lra.
  rewrite (leR_false (Rabs (ang - 180)) 85) by (abs_cases; lra).
  rewrite (leR_false (Rabs (ang + 180)) 85) by (abs_cases; lra).
  reflexivity.
Qed.

(** The second test, on what the first one lets through. *)
Lemma vertical_band (ang : R) :
  85 < Rabs ang < 95 →
  leR (Rabs (ang - 90)) 40 || leR (Rabs (ang + 90)) 40 = true.
Proof.
  intros H. destruct (Rle_dec 0 ang) as [Hs|Hs].
  - rewrite (leR_true (Rabs (ang - 90)) 40) by (abs_cases; lra). reflexivity.
  - rewrite (leR_true (Rabs (ang + 90)) 40) by (abs_cases; lra). apply orb_true_r.
Qed.

(** The tolerance bands of scripts/content.js: within 85 degrees of the x axis the
    token is horizontal, and everything else is vertical. *)
Lemma band_dir8 (dx dy jitter : R) :
  ltR (Rabs dx) jitter && ltR (Rabs dy) jitter = false →
  (Rabs (angle_deg dx dy) <= 85 ∨ 95 <= Rabs (angle_deg dx dy) →
     Content.dir8 dx dy jitter = if leR 0 dx then "R" else "L") ∧
  (85 < Rabs (angle_deg dx dy) < 95 →
     Content.dir8 dx dy jitter = if leR 0 dy then "D" else "U").
Proof.
  intros Hj. pose proof (angle_deg_bounds dx dy) as Hb.
  unfold Content.dir8. rewrite Hj.
  split; intros H.
  - rewrite (horizontal_band_in _ Hb H). reflexivity.
  - rewrite (horizontal_band_out _ H), (vertical_band _ H). reflexivity.
Qed.

(** *** Nearest sector *)

Import Sectors.

(** The loop invariant of [dir8]'s scan: the pair (best, bestDiff) names a sector
    already seen whose wrapped distance is minimal among those seen. *)
Definition scanned (ang : R) (seen : list (R * string)) (acc : string * option R) : Prop :=
  ∃ c, (c, fst acc) ∈ seen ∧ snd acc = Some (wrap_diff ang c) ∧
       ∀ s, s ∈ seen → wrap_diff ang c <= wrap_diff ang (fst s).

Lemma pick_scanned (ang : R) (seen : list (R * string)) (acc : string * option R)
    (s : R * string) :
  scanned ang seen acc → scanned ang (seen ++ [s]) (pick ang acc s).
Proof.
  intros (c & Hin & Hbest & Hmin). unfold pick. rewrite Hbest. simpl.
  destruct (ltR (wrap_diff ang (fst s)) (wrap_diff ang c)) eqn:E.
  - apply ltR_iff in E. exists (fst s). simpl. split; [|split].
    + apply elem_of_app. right. destruct s. simpl. apply list_elem_of_singleton. reflexivity.
    + reflexivity.
    + intros s' Hs'. apply elem_of_app in Hs' as [Hs'|Hs'].
      * specialize (Hmin s' Hs'). lra.
      * apply list_elem_of_singleton in Hs'. subst. lra.
  - apply ltR_false_iff in E. exists c. split; [|split].
    + apply elem_of_app. left. exact Hin.
    + exact Hbest.
    + intros s' Hs'. apply elem_of_app in Hs' as [Hs'|Hs'].
      * exact (Hmin s' Hs').
      * apply list_elem_of_singleton in Hs'. subst. exact E.
Qed.

Lemma fold_pick_scanned (ang : R) (l seen : list (R * string)) (acc : string * option R) :
  scanned ang seen acc → scanned ang (seen ++ l) (fold_left (pick ang) l acc).
Proof.
  revert seen acc. induction l as [|s l IH]; intros seen acc H; simpl.
  - rewrite app_nil_r. exact H.
  - replace (seen ++ s :: l) with ((seen ++ [s]) ++ l) by (rewrite <- app_assoc; reflexivity).
    apply IH. apply pick_scanned. exact H.
Qed.

Lemma nearest_dir8 (dx dy jitter : R) :
  ltR (Rabs dx) jitter && ltR (Rabs dy) jitter = false →
  ∃ c, (c, Sectors.dir8 dx dy jitter) ∈ sectors ∧
       ∀ s, s ∈ sectors →
            wrap_diff (angle_deg dx dy) c <= wrap_diff (angle_deg dx dy) (fst s).
Proof.
  intros Hj. unfold Sectors.dir8. rewrite Hj.
  set (ang := angle_deg dx dy).
  assert (H : scanned ang ([(0, "R")] ++ tail sectors)
                (fold_left (pick ang) (tail sectors) (pick ang ("R", None) (0, "R")))).
  { apply fold_pick_scanned.
    exists 0. split; [|split].
    - apply list_elem_of_singleton. reflexivity.
    - reflexivity.
    - intros s Hs. apply list_elem_of_singleton in Hs. subst. simpl. lra. }
  destruct H as (c & Hin & _ & Hmin). exists c. split; assumption.
Qed.

Lemma wrap_diff_cases (ang c : R) :
  (0 <= ang - c ∧ wrap_diff ang c = ang - c ∧ ang - c <= 180) ∨
  (0 <= ang - c ∧ wrap_diff ang c = 360 - (ang - c) ∧ 180 <= ang - c) ∨
  (ang - c < 0 ∧ wrap_diff ang c = c - ang ∧ c - ang <= 180) ∨
  (ang - c < 0 ∧ wrap_diff ang c = 360 - (c - ang) ∧ 180 <= c - ang).
Proof.
  unfold wrap_diff, Rmin, Rabs.
  destruct (Rcase_abs (ang - c)); destruct (Rle_dec _ _); lra.
Qed.

(** Two sector centres cannot both be closer than 22.5 degrees to one angle. *)
Lemma sector_unique (ang : R) (s t : R * string) :
  -180 < ang <= 180 → s ∈ sectors → t ∈ sectors →
  wrap_diff ang (fst s) < 22.5 → wrap_diff ang (fst t) <= wrap_diff ang (fst s) →
  snd t = snd s.
Proof.
  intros Hb Hs Ht H1 H2.
  assert (H3 : wrap_diff ang (fst t) < 22.5) by lra. clear H2.
  pose proof (wrap_diff_cases ang (fst s)) as Cs.
  pose proof (wrap_diff_cases ang (fst t)) as Ct.
  set (ws := wrap_diff ang (fst s)) in *. set (wt := wrap_diff ang (fst t)) in *.
  clearbody ws wt.
  unfold sectors in Hs, Ht.
  repeat (apply elem_of_cons in Hs as [->|Hs]); [..| inversion Hs];
    simpl in Cs;
    (destruct Cs as [Cs|[Cs|[Cs|Cs]]]; try (exfalso; lra));
    repeat (apply elem_of_cons in Ht as [->|Ht]); try (inversion Ht; fail);
    simpl in Ct |- *; try reflexivity;
    exfalso; destruct Ct as [Ct|[Ct|[Ct|Ct]]]; lra.
Qed.

Lemma not_below_jitter_10_4 : ltR (Rabs 10) 4 && ltR (Rabs 10) 4 = false.
Proof. rewrite (ltR_false (Rabs 10) 4) by (abs_cases; lra). reflexivity. Qed.

Lemma wrap_diff_centre (c : R) : wrap_diff c c = 0.
Proof.
  destruct (wrap_diff_cases c c) as [H|[H|[H|H]]]; lra.
Qed.
End Classifier.

(** C2, as stated, fails on scripts/content.js: the displacement (10, 10) is not
    below a jitter of 4 and points at 45 degrees, the centre of the sector DR, yet
    [dir8] answers R. *)
Lemma C2_diagonal_read_as_horizontal :
  Num.ltR (Rabs 10) 4 && Num.ltR (Rabs 10) 4 = false ∧
  Num.angle_deg 10 10 = 45%R ∧
  (45%R, "DR") ∈ Sectors.sectors ∧
  Content.dir8 10 10 4 = "R".
Proof.
  split; [exact not_below_jitter_10_4|].
  split; [apply angle_deg_diagonal; lra|].
  split; [unfold Sectors.sectors; set_solver|].
  destruct (band_dir8 10 10 4 not_below_jitter_10_4) as [Hh _].
  rewrite Hh.
  - rewrite leR_true by lra. reflexivity.
  - left. rewrite angle_deg_diagonal by lra. unfold Rabs. destruct (Rcase_abs 45); lra.
Qed.

(** C2 (amended): for a displacement not below the jitter threshold, the
    nearest-sector variant answers the token of a sector whose centre is at minimum
    wrapped angular distance from the displacement's angle, hence the token of any
    sector (the four diagonals among them) whose centre is strictly closer than 22.5
    degrees; scripts/content.js instead answers R or L for every angle within 85
    degrees of the horizontal axis and D or U for all others, never a diagonal. *)
Theorem C2_classifier_by_variant (dx dy jitter : R) :
  Num.ltR (Rabs dx) jitter && Num.ltR (Rabs dy) jitter = false →
  (∃ c, (c, Sectors.dir8 dx dy jitter) ∈ Sectors.sectors ∧
        ∀ s, s ∈ Sectors.sectors →
             (Sectors.wrap_diff (Num.angle_deg dx dy) c
              <= Sectors.wrap_diff (Num.angle_deg dx dy) (fst s))%R) ∧
  (∀ c d, (c, d) ∈ Sectors.sectors →
          (Sectors.wrap_diff (Num.angle_deg dx dy) c < 22.5)%R →
          Sectors.dir8 dx dy jitter = d) ∧
  ((Rabs (Num.angle_deg dx dy) <= 85 ∨ 95 <= Rabs (Num.angle_deg dx dy))%R →
     Content.dir8 dx dy jitter = if Num.leR 0 dx then "R" else "L") ∧
  ((85 < Rabs (Num.angle_deg dx dy) < 95)%R →
     Content.dir8 dx dy jitter = if Num.leR 0 dy then "D" else "U").
Proof.
  intros Hj.
  destruct (nearest_dir8 dx dy jitter Hj) as (c0 & Hin0 & Hmin0).
  destruct (band_dir8 dx dy jitter Hj) as [Hh Hv].
  split; [exists c0; split; assumption|].
  split; [|split; assumption].
  intros c d Hin Hclose.
  apply (sector_unique (Num.angle_deg dx dy) (c, d) (c0, Sectors.dir8 dx dy jitter)).
  - apply angle_deg_bounds.
  - exact Hin.
  - exact Hin0.
  - exact Hclose.
  - apply (Hmin0 (c, d)). exact Hin.
Qed.

(** C2 (amended) at the displacement (10, 10) with jitter 4: the nearest-sector
    variant answers DR. *)
Lemma C2_classifier_by_variant_witness :
  Num.ltR (Rabs 10) 4 && Num.ltR (Rabs 10) 4 = false ∧
  Sectors.dir8 10 10 4 = "DR".
Proof.
  split; [exact not_below_jitter_10_4|].
  destruct (C2_classifier_by_variant 10 10 4 not_below_jitter_10_4) as (_ & Hd & _).
  apply (Hd 45%R "DR").
  - unfold Sectors.sectors. set_solver.
  - rewrite angle_deg_diagonal by lra. rewrite wrap_diff_centre. lra.
Defined.

(** ** The pattern accumulators *)

Section Accumulator.
Import JS Num Content.
#[local] Open Scope R_scope.

(** [updateGesture] on a tracked gesture whose pointer is not over an editor. *)
Lemma updateGesture_tracked (st : state) (e : mouse_event) :
  tracking st = true → closestEditableOrEditor (target e) = false →
  updateGesture st e =
    let p := pagePointFromMouse e in
    let pts := sample st p in
    let moved' :=
      if moved st then true
      else leR (movedPx (prefs (conf st))) (dist (default p (pts !! O)) p) in
    let anchor := anchor_in st pts p in
    if leR (minSegmentPx (prefs (conf st))) (dist anchor p) then
      let d := dir8 (px p - px anchor) (py p - py anchor) (jitterPx (prefs (conf st))) in
      if negb (String.eqb d "") then
        with_session st true moved' pts
          (if negb (String.eqb d (lastToken (tokens st))) then tokens st ++ [d]
           else tokens st)
          (startTarget st) (suppressContextOnce st) (Some (length pts - 1)%nat)
      else
        with_session st true moved' pts (tokens st) (startTarget st)
          (suppressContextOnce st) (_lastTokenIndex st)
    else
      with_session st true moved' pts (tokens st) (startTarget st)
        (suppressContextOnce st) (_lastTokenIndex st).
Proof. intros Ht He. unfold updateGesture. rewrite Ht, He. reflexivity. Qed.

(** The tokens after one move: unchanged, cleared, or extended by a token that
    differs from the last one. *)
Lemma updateGesture_tokens (st : state) (e : mouse_event) :
  tokens (updateGesture st e) = tokens st ∨
  tokens (updateGesture st e) = [] ∨
  ∃ d, last (tokens st) ≠ Some d ∧ tokens (updateGesture st e) = tokens st ++ [d].
Proof.
  destruct (tracking st) eqn:Ht; [|left; unfold updateGesture; rewrite Ht; reflexivity].
  destruct (closestEditableOrEditor (target e)) eqn:He.
  { right. left. unfold updateGesture. rewrite Ht, He. reflexivity. }
  rewrite (updateGesture_tracked st e Ht He). cbv zeta.
  destruct (leR _ (dist _ _)); [|left; reflexivity].
  destruct (negb (String.eqb _ "")); [|left; reflexivity].
  match goal with |- context [String.eqb ?d (lastToken (tokens st))] =>
    destruct (String.eqb d (lastToken (tokens st))) eqn:Hd; [left; reflexivity|];
    right; right; exists d end.
  split; [|reflexivity].
  intros Hlast. apply String.eqb_neq in Hd. apply Hd.
  unfold lastToken. rewrite Hlast. reflexivity.
Qed.

Lemma step_NoAdjDup (st : state) (i : input) :
  NoAdjDup (tokens st) → NoAdjDup (tokens (step st i)).
Proof.
  intros H. destruct i as [e|e|e| |c]; simpl.
  - unfold startGesture.
    repeat match goal with |- context [if ?b then _ else _] => destruct b end;
      simpl; first [exact H | constructor].
  - destruct (updateGesture_tokens st e) as [-> | [-> | (d & Hd & ->)]].
    + exact H.
    + constructor.
    + apply NoAdjDup_snoc; assumption.
  - unfold endGesture.
    repeat match goal with |- context [if ?b then _ else _] => destruct b end;
      simpl; first [exact H | constructor].
  - unfold onContextMenu. destruct (suppressContextOnce st); exact H.
  - exact H.
Qed.

Lemma run_NoAdjDup (st : state) (inputs : list input) :
  NoAdjDup (tokens st) → NoAdjDup (tokens (run st inputs)).
Proof.
  revert st. induction inputs as [|i inputs IH]; intros st H; [exact H|].
  apply IH. apply step_NoAdjDup. exact H.
Qed.

(** The four-way classifier answers one letter or nothing. *)
Lemma dir_cases (jitter dx dy : R) :
  Batch.dir jitter dx dy = "" ∨
  ∃ c, Batch.dir jitter dx dy = String c EmptyString.
Proof.
  unfold Batch.dir.
  repeat match goal with |- context [if ?b then _ else _] => destruct b end;
    first [left; reflexivity | right; eexists; reflexivity].
Qed.

Lemma last_differs_char (out : string) (c : ascii) :
  Swipe.last_differs out (String c EmptyString) = true → last (chars out) ≠ Some c.
Proof.
  unfold Swipe.last_differs. rewrite last_char_chars.
  destruct (last (chars out)) as [c'|]; [|discriminate].
  intros H Heq. inversion Heq; subst. rewrite String.eqb_refl in H. discriminate.
Qed.

Lemma detect_step_NoAdjDup (minSeg jitter : R) (s : Batch.loop) (p : point) :
  NoAdjDup (chars (Batch.l_out s)) →
  NoAdjDup (chars (Batch.l_out (Batch.detect_step minSeg jitter s p))).
Proof.
  intros H. unfold Batch.detect_step.
  destruct (leR minSeg _); [|exact H]. cbn [Batch.l_out].
  destruct (dir_cases jitter (px p - px (Batch.l_last s)) (py p - py (Batch.l_last s)))
    as [-> | [c ->]]; [exact H|].
  cbn [String.eqb negb andb].
  destruct (Swipe.last_differs _ _) eqn:Hd; [|exact H].
  rewrite chars_snoc. apply NoAdjDup_snoc; [exact H|].
  apply last_differs_char. exact Hd.
Qed.

Lemma detect_fold_NoAdjDup (minSeg jitter : R) (pts : list point) (s : Batch.loop) :
  NoAdjDup (chars (Batch.l_out s)) →
  NoAdjDup (chars (Batch.l_out (fold_left (Batch.detect_step minSeg jitter) pts s))).
Proof.
  revert s. induction pts as [|p pts IH]; intros s H; [exact H|].
  apply IH. apply detect_step_NoAdjDup. exact H.
Qed.
End Accumulator.

(** C5: no pattern the accumulator produces has two equal adjacent tokens: not the
    token array of scripts/content.js in any state the event handlers can reach
    (every intermediate step, and the state a gesture ends in), and not the string
    the batch [detectPattern] returns. *)
Theorem C5_no_adjacent_equal_tokens :
  (∀ (c : Content.settings) (host : string) (inputs : list Content.input),
     NoAdjDup (Content.tokens (Content.run (Content.initial c host) inputs))) ∧
  (∀ (pts : list Num.point) (minSeg jitter : R),
     NoAdjDup (chars (Batch.detectPattern pts minSeg jitter))).
Proof.
  split.
  - intros c host inputs. apply run_NoAdjDup. constructor.
  - intros pts minSeg jitter. unfold Batch.detectPattern.
    destruct pts as [|p0 [|p1 rest]]; [constructor | constructor |].
    apply detect_fold_NoAdjDup. constructor.
Qed.

(** ** The jitter boundary *)

Section Jitter.
Import JS Num Content.
#[local] Open Scope R_scope.

(** Every two points of [pts] are closer than [jitter] in both coordinates. *)
Definition within_jitter (pts : list point) (jitter : R) : Prop :=
  ∀ a b, a ∈ pts → b ∈ pts →
         Rabs (px b - px a) < jitter ∧ Rabs (py b - py a) < jitter.

Lemma dir8_below_jitter (dx dy jitter : R) :
  Rabs dx < jitter → Rabs dy < jitter → dir8 dx dy jitter = "".
Proof.
  intros Hx Hy. unfold dir8. rewrite (ltR_true _ _ Hx), (ltR_true _ _ Hy). reflexivity.
Qed.

Lemma detectDir_below_jitter (dx dy jitter : R) :
  Rabs dx < jitter → Rabs dy < jitter → Swipe.detectDir dx dy jitter = "".
Proof.
  intros Hx Hy. unfold Swipe.detectDir.
  rewrite (ltR_true _ _ Hx), (ltR_true _ _ Hy). reflexivity.
Qed.

(** The sampler only ever stores points it was given. *)
Lemma sample_subset (st : state) (p a : point) :
  a ∈ sample st p → a ∈ points st ∨ a = p.
Proof.
  unfold sample. destruct (last (points st)) as [l|].
  - destruct (leR _ _); [|auto].
    intros H. apply elem_of_app in H as [H|H]; [auto|].
    apply list_elem_of_singleton in H. auto.
  - intros H. apply elem_of_app in H as [H|H]; [auto|].
    apply list_elem_of_singleton in H. auto.
Qed.

Lemma anchor_in_elem (st : state) (pts : list point) (p : point) :
  anchor_in st pts p ∈ pts ∨ anchor_in st pts p = p.
Proof.
  unfold anchor_in.
  destruct (anchorIndex st ≫= _) as [a|] eqn:Ha.
  - left. destruct (anchorIndex st) as [i|]; [|discriminate].
    simpl in Ha. apply list_elem_of_lookup. exists i. exact Ha.
  - destruct (pts !! O) as [a|] eqn:H0; simpl; [|auto].
    left. apply list_elem_of_lookup. exists O. exact H0.
Qed.

(** What a gesture made of samples of [pts] keeps true: no token was recorded, the
    stored points are samples, and the configuration is the one it started with. *)
Definition quiet (c : settings) (pts : list point) (st : state) : Prop :=
  tokens st = [] ∧ (∀ a, a ∈ points st → a ∈ pts) ∧ conf st = c.

Lemma updateGesture_quiet (c : settings) (pts : list point) (st : state)
    (e : mouse_event) :
  within_jitter pts (jitterPx (prefs c)) → pagePointFromMouse e ∈ pts →
  quiet c pts st → quiet c pts (updateGesture st e).
Proof.
  intros Hw Hp (Htok & Hpts & Hc).
  destruct (tracking st) eqn:Ht;
    [|unfold updateGesture; rewrite Ht; repeat split; assumption].
  destruct (closestEditableOrEditor (target e)) eqn:He.
  { unfold updateGesture. rewrite Ht, He. repeat split; try assumption.
    intros a Ha. simpl in Ha. inversion Ha. }
  rewrite (updateGesture_tracked st e Ht He). cbv zeta.
  set (p := pagePointFromMouse e) in *.
  assert (Hsub : ∀ a, a ∈ sample st p → a ∈ pts).
  { intros a Ha. apply sample_subset in Ha as [Ha| ->]; auto. }
  assert (Ha : anchor_in st (sample st p) p ∈ pts).
  { destruct (anchor_in_elem st (sample st p) p) as [H| ->]; auto. }
  destruct (Hw _ _ Ha Hp) as [Hx Hy]. rewrite Hc.
  rewrite (dir8_below_jitter _ _ _ Hx Hy). cbn [String.eqb negb].
  destruct (leR _ (dist _ _)); repeat split; try assumption.
Qed.

Lemma moves_quiet (c : settings) (pts : list point) (moves : list mouse_event)
    (st : state) :
  within_jitter pts (jitterPx (prefs c)) →
  (∀ e, e ∈ moves → pagePointFromMouse e ∈ pts) →
  quiet c pts st → quiet c pts (run st (MouseMove <$> moves)).
Proof.
  intros Hw. revert st. induction moves as [|e moves IH]; intros st Hm Hq; [exact Hq|].
  simpl. apply IH.
  - intros e' He'. apply Hm. apply elem_of_cons. auto.
  - apply updateGesture_quiet; try assumption. apply Hm. apply elem_of_cons. auto.
Qed.

Lemma startGesture_quiet (c : settings) (host : string) (pts : list point)
    (e0 : mouse_event) :
  pagePointFromMouse e0 ∈ pts → quiet c pts (startGesture (initial c host) e0).
Proof.
  intros Hp. unfold startGesture.
  repeat match goal with |- context [if ?b then _ else _] => destruct b end;
    repeat split; simpl; try reflexivity; intros a Ha.
  all: try (inversion Ha; fail).
  apply list_elem_of_singleton in Ha. subst. exact Hp.
Qed.

(** The loop of the batch recogniser never leaves the empty output. *)
Lemma detect_fold_quiet (minSeg jitter : R) (pts rest : list point) (s : Swipe.loop) :
  within_jitter pts jitter → (∀ a, a ∈ rest → a ∈ pts) →
  Swipe.l_last s ∈ pts → Swipe.l_out s = "" →
  Swipe.l_out (fold_left (Swipe.detect_step minSeg jitter) rest s) = "".
Proof.
  intros Hw. revert s. induction rest as [|p rest IH]; intros s Hr Hl Ho; [exact Ho|].
  simpl. assert (Hp : p ∈ pts) by (apply Hr, elem_of_cons; auto).
  apply IH.
  - intros a Ha. apply Hr, elem_of_cons. auto.
  - unfold Swipe.detect_step. destruct (leR minSeg _); simpl; assumption.
  - unfold Swipe.detect_step. destruct (leR minSeg _); [|exact Ho].
    destruct (Hw _ _ Hl Hp) as [Hx Hy].
    rewrite (detectDir_below_jitter _ _ _ Hx Hy). simpl. exact Ho.
Qed.
End Jitter.

Section JitterStored.
Import JS Num Content.
#[local] Open Scope R_scope.

(** Bounds on a distance from bounds on its square. *)
Lemma dist_at_least (a b : point) (d : R) :
  0 <= d →
  d * d <= (px a - px b) * (px a - px b) + (py a - py b) * (py a - py b) →
  leR d (dist a b) = true.
Proof.
  intros Hd H. apply leR_true. unfold dist, hypot.
  rewrite <- (sqrt_square d Hd). apply sqrt_le_1_alt. exact H.
Qed.

Lemma dist_below (a b : point) (d : R) :
  0 <= d →
  (px a - px b) * (px a - px b) + (py a - py b) * (py a - py b) < d * d →
  leR d (dist a b) = false.
Proof.
  intros Hd H. apply leR_false. unfold dist, hypot.
  rewrite <- (sqrt_square d Hd). apply sqrt_lt_1_alt. split; [|exact H].
  pose proof (Rle_0_sqr (px a - px b)). pose proof (Rle_0_sqr (py a - py b)).
  unfold Rsqr in *. lra.
Qed.

(** The thresholds of the trace below: minSegmentPx at its minimum, the rest as
    shipped. *)
Definition short_segments : tuning :=
  {| minSegmentPx := 6; jitterPx := 4; sampleMinPx := 3; movedPx := 3 |}.

(** A press at (0, 0) followed by moves to (3, 3) and to (5, 5). *)
Definition dropped_move : list input :=
  [MouseDown (mouse_at 0 0); MouseMove (mouse_at 3 3); MouseMove (mouse_at 5 5)].

Definition after_dropped_move : state :=
  run (initial (settings_with short_segments) "x.test") dropped_move.

Lemma first_move_stored :
  updateGesture
    (with_session (initial (settings_with short_segments) "x.test")
       true false [Point 0 0] [] None false None)
    (mouse_at 3 3)
  = with_session (initial (settings_with short_segments) "x.test")
      true true [Point 0 0; Point 3 3] [] None false None.
Proof.
  rewrite updateGesture_tracked by reflexivity. cbv zeta.
  change (pagePointFromMouse (mouse_at 3 3)) with (Point 3 3).
  unfold sample.
  cbn [points with_session last sampleMinPx movedPx minSegmentPx jitterPx prefs conf
       initial settings_with short_segments moved tokens].
  rewrite (dist_at_least (Point 0 0) (Point 3 3) 3) by (simpl; lra).
  unfold anchor_in, anchorIndex.
  cbn [tokens with_session mbind option_bind lookup list_lookup default from_option
       Datatypes.id app].
  rewrite (dist_at_least (Point 0 0) (Point 3 3) 3) by (simpl; lra).
  rewrite (dist_below (Point 0 0) (Point 3 3) 6) by (simpl; lra).
  reflexivity.
Qed.

Lemma second_move_dropped :
  updateGesture
    (with_session (initial (settings_with short_segments) "x.test")
       true true [Point 0 0; Point 3 3] [] None false None)
    (mouse_at 5 5)
  = with_session (initial (settings_with short_segments) "x.test")
      true true [Point 0 0; Point 3 3] ["R"] None false (Some 1%nat).
Proof.
  rewrite updateGesture_tracked by reflexivity. cbv zeta.
  change (pagePointFromMouse (mouse_at 5 5)) with (Point 5 5).
  unfold sample.
  cbn [points with_session last app sampleMinPx movedPx minSegmentPx jitterPx prefs conf
       initial settings_with short_segments moved tokens].
  rewrite (dist_below (Point 3 3) (Point 5 5) 3) by (simpl; lra).
  unfold anchor_in, anchorIndex.
  cbn [tokens with_session mbind option_bind lookup list_lookup default from_option
       Datatypes.id px py].
  rewrite (dist_at_least (Point 0 0) (Point 5 5) 6) by (simpl; lra).
  replace (5 - 0) with 5 by lra.
  assert (Hj : ltR (Rabs 5) 4 && ltR (Rabs 5) 4 = false).
  { rewrite ltR_false; [reflexivity|]. unfold Rabs. destruct (Rcase_abs 5); lra. }
  destruct (band_dir8 5 5 4 Hj) as [Hh _]. rewrite Hh.
  - rewrite leR_true by lra. reflexivity.
  - left. rewrite angle_deg_diagonal by lra. unfold Rabs. destruct (Rcase_abs 45); lra.
Qed.

Lemma after_dropped_move_eq :
  after_dropped_move
  = with_session (initial (settings_with short_segments) "x.test")
      true true [Point 0 0; Point 3 3] ["R"] None false (Some 1%nat).
Proof.
  unfold after_dropped_move, dropped_move, run. cbn [fold_left step].
  change (startGesture (initial (settings_with short_segments) "x.test") (mouse_at 0 0))
    with (with_session (initial (settings_with short_segments) "x.test")
            true false [Point 0 0] [] None false None).
  rewrite first_move_stored. exact second_move_dropped.
Qed.
End JitterStored.

(** C6, as stated, fails on scripts/content.js: with minSegmentPx 6, jitterPx 4 and
    sampleMinPx 3, a press at (0, 0) followed by moves to (3, 3) and (5, 5) stores
    the trajectory (0, 0), (3, 3), whose points differ by less than jitterPx in both
    coordinates, yet the pattern is R: the move to (5, 5) is dropped by the sampler
    and still classified against the anchor (0, 0). *)
Lemma C6_dropped_move_is_classified :
  Content.points after_dropped_move = [Num.Point 0 0; Num.Point 3 3] ∧
  within_jitter (Content.points after_dropped_move)
                (Content.jitterPx (Content.prefs (Content.conf after_dropped_move))) ∧
  Content.pattern_of (Content.tokens after_dropped_move) = "R".
Proof.
  rewrite after_dropped_move_eq. split; [reflexivity|]. split; [|reflexivity].
  intros a b Ha Hb. cbn [Content.points Content.with_session] in Ha, Hb.
  cbn [Content.jitterPx Content.prefs Content.conf Content.with_session Content.initial
       settings_with short_segments].
  apply elem_of_cons in Ha as [->|Ha]; [|apply list_elem_of_singleton in Ha as ->];
  (apply elem_of_cons in Hb as [->|Hb]; [|apply list_elem_of_singleton in Hb as ->]);
  simpl; split; unfold Rabs; destruct (Rcase_abs _); lra.
Qed.

(** C6 (amended): when every two pointer positions of a gesture (the press and every
    move, stored by the sampler or dropped) differ by less than jitterPx in both
    coordinates, the token array of scripts/content.js is still empty after the
    gesture's last move; and the batch [detectPattern] returns the empty string for
    every trajectory whose points differ pairwise by less than jitterPx in both
    coordinates. Both hold whatever minSegmentPx is. *)
Theorem C6_jitter_boundary (c : Content.settings) (host : string)
    (e0 : Content.mouse_event) (moves : list Content.mouse_event) (minSeg : R) :
  within_jitter (Content.pagePointFromMouse <$> (e0 :: moves))
                (Content.jitterPx (Content.prefs c)) →
  Swipe.detectPattern (Content.pagePointFromMouse <$> (e0 :: moves)) minSeg
                      (Content.jitterPx (Content.prefs c)) = "" ∧
  Content.pattern_of
    (Content.tokens
       (Content.run (Content.initial c host)
                    (Content.MouseDown e0 :: (Content.MouseMove <$> moves)))) = "".
Proof.
  intros Hw. split.
  - unfold Swipe.detectPattern. cbn [fmap list_fmap].
    destruct moves as [|e1 moves]; [reflexivity|]. cbn [fmap list_fmap].
    rewrite detect_fold_quiet with (pts := Content.pagePointFromMouse <$> (e0 :: e1 :: moves));
      [reflexivity | exact Hw | | | reflexivity].
    + intros a Ha. apply elem_of_cons. right. exact Ha.
    + apply elem_of_cons. left. reflexivity.
  - cbn [Content.run fold_left Content.step].
    destruct (moves_quiet c (Content.pagePointFromMouse <$> (e0 :: moves)) moves
                (Content.startGesture (Content.initial c host) e0) Hw) as (Htok & _).
    + intros e He. apply elem_of_cons. right. apply list_elem_of_fmap. exists e. auto.
    + apply startGesture_quiet. apply elem_of_cons. left. reflexivity.
    + unfold Content.run in Htok. rewrite Htok. reflexivity.
Qed.

(** C6 (amended) at the trajectory (0,0), (1,1) with jitterPx 20 and minSegmentPx 1: the
    segment threshold is reached and the pattern stays empty. *)
Lemma C6_jitter_boundary_witness :
  within_jitter (Content.pagePointFromMouse <$> [mouse_at 0 0; mouse_at 1 1]) 20 ∧
  Swipe.detectPattern [Num.Point 0 0; Num.Point 1 1] 1 20 = "".
Proof.
  assert (Hw : within_jitter (Content.pagePointFromMouse <$> [mouse_at 0 0; mouse_at 1 1])
                 (Content.jitterPx (Content.prefs (settings_with coarse_jitter)))).
  { intros a b Ha Hb. cbn [fmap list_fmap] in Ha, Hb.
    apply elem_of_cons in Ha as [->|Ha]; [|apply list_elem_of_singleton in Ha as ->];
    (apply elem_of_cons in Hb as [->|Hb]; [|apply list_elem_of_singleton in Hb as ->]);
    simpl; split; unfold Rabs; destruct (Rcase_abs _); lra. }
  split; [exact Hw|].
  exact (proj1 (C6_jitter_boundary (settings_with coarse_jitter) "x.test" (mouse_at 0 0)
                  [mouse_at 1 1] 1 Hw)).
Defined.

(** ** The floating anchor *)

Section Anchor.
Import JS Num Content.
#[local] Open Scope R_scope.

(** While a gesture is tracked, the anchor index points into the stored trajectory. *)
Definition anchor_in_range (st : state) : Prop :=
tracking st = true →
∀ i, anchorIndex st = Some i → (i < length (points st))%nat.

Lemma sample_length (st : state) (p : point) :
(length (points st) <= length (sample st p))%nat ∧ (0 < length (sample st p))%nat.
Proof.
unfold sample. destruct (last (points st)) as [l|] eqn:Hl.
- assert (0 < length (points st))%nat
    by (destruct (points st); [discriminate | simpl; lia]).
  destruct (leR _ _); rewrite ?length_app; simpl; lia.
- rewrite length_app. simpl. lia.
Qed.

Lemma step_anchor_in_range (st : state) (i : input) :
anchor_in_range st → anchor_in_range (step st i).
Proof.
intros H. destruct i as [e|e|e| |c]; simpl.
- unfold startGesture.
  repeat match goal with |- context [if ?b then _ else _] => destruct b end;
    try exact H.
  intros _ i Hi. inversion Hi. simpl. lia.
- destruct (tracking st) eqn:Ht; [|unfold updateGesture; rewrite Ht; exact H].
  destruct (closestEditableOrEditor (target e)) eqn:He.
  { unfold updateGesture. rewrite Ht, He. intros Hc. discriminate Hc. }
  rewrite (updateGesture_tracked st e Ht He). cbv zeta.
  destruct (sample_length st (pagePointFromMouse e)) as [Hle Hpos].
  assert (Hold : ∀ i, anchorIndex st = Some i →
                      (i < length (sample st (pagePointFromMouse e)))%nat).
  { intros i Hi. specialize (H Ht i Hi). lia. }
  destruct (leR _ (dist _ _)); [destruct (negb (String.eqb _ ""))|];
    intros _ i; unfold anchorIndex; cbn [tokens _lastTokenIndex points with_session].
  + destruct (if negb _ then _ else _); intros [= <-]; lia.
  + exact (Hold i).
  + exact (Hold i).
- unfold endGesture.
  repeat match goal with |- context [if ?b then _ else _] => destruct b end;
    simpl; try exact H; intros Hc; discriminate Hc.
- unfold onContextMenu. destruct (suppressContextOnce st); exact H.
- exact H.
Qed.

Lemma run_anchor_in_range (c : settings) (host : string) (inputs : list input) :
anchor_in_range (run (initial c host) inputs).
Proof.
assert (G : ∀ st, anchor_in_range st → anchor_in_range (run st inputs)).
{ induction inputs as [|i inputs IH]; intros st H; [exact H|].
  apply IH. apply step_anchor_in_range. exact H. }
apply G. intros Hc. discriminate Hc.
Qed.

(** The anchor a state holds for the next move:
  [state.points[anchorIndex] || state.points[0]]. *)
Definition anchor (st : state) : option point :=
match anchorIndex st ≫= (fun i => points st !! i) with
| Some a => Some a
| None => points st !! O
end.

(** The next move of a tracked gesture measures from that anchor, whatever the
  sampler does. *)
Lemma anchor_in_sample (st : state) (a p : point) :
tracking st = true → anchor_in_range st →
anchor st = Some a → anchor_in st (sample st p) p = a.
Proof.
unfold anchor, anchor_in. intros Ht Hwf. specialize (Hwf Ht).
assert (Hpre : ∀ i x, points st !! i = Some x → sample st p !! i = Some x).
{ intros i x Hi. unfold sample.
  destruct (last (points st)); [destruct (leR _ _)|]; try exact Hi;
    apply lookup_app_l_Some; exact Hi. }
destruct (anchorIndex st) as [i|]; simpl.
- destruct (points st !! i) as [x|] eqn:Hi.
  + intros [= <-]. rewrite (Hpre _ _ Hi). reflexivity.
  + exfalso. apply lookup_ge_None in Hi. specialize (Hwf i eq_refl). lia.
- intros H0. rewrite (Hpre _ _ H0). reflexivity.
Qed.

(** For a move [e] in state [st]: the anchor the move is measured from, whether
  the segment threshold is met, and the token the classifier answers. *)
Definition move_anchor (st : state) (e : mouse_event) : point :=
anchor_in st (sample st (pagePointFromMouse e)) (pagePointFromMouse e).

Definition threshold_met (st : state) (e : mouse_event) : bool :=
leR (minSegmentPx (prefs (conf st))) (dist (move_anchor st e) (pagePointFromMouse e)).

Definition move_token (st : state) (e : mouse_event) : string :=
dir8 (px (pagePointFromMouse e) - px (move_anchor st e))
     (py (pagePointFromMouse e) - py (move_anchor st e))
     (jitterPx (prefs (conf st))).

Definition Sectors_move_token (st : state) (e : mouse_event) : string :=
Sectors.dir8 (px (pagePointFromMouse e) - px (move_anchor st e))
             (py (pagePointFromMouse e) - py (move_anchor st e))
             (jitterPx (prefs (conf st))).

Lemma sample_last (st : state) (p : point) : is_Some (last (sample st p)).
Proof.
unfold sample. destruct (last (points st)) as [l|] eqn:Hl.
- destruct (leR _ _); [rewrite last_snoc; eauto | rewrite Hl; eauto].
- rewrite last_snoc. eauto.
Qed.

Lemma lastToken_nonempty (toks : list string) (d : string) :
d ≠ "" → lastToken toks = d → toks ≠ [].
Proof. intros Hd Hl ->. apply Hd. symmetry. exact Hl. Qed.

(** scripts/content.js: a classified move stores the index of the last stored
  point as the anchor index; an unclassified one stores nothing. *)
Lemma updateGesture_anchor (st : state) (e : mouse_event) :
tracking st = true → closestEditableOrEditor (target e) = false →
threshold_met st e = true →
(move_token st e ≠ "" →
   _lastTokenIndex (updateGesture st e)
     = Some (length (sample st (pagePointFromMouse e)) - 1)%nat ∧
   anchor (updateGesture st e) = last (sample st (pagePointFromMouse e))) ∧
(move_token st e = "" →
   tokens (updateGesture st e) = tokens st ∧
   _lastTokenIndex (updateGesture st e) = _lastTokenIndex st ∧
   points (updateGesture st e) = sample st (pagePointFromMouse e)).
Proof.
unfold threshold_met, move_token, move_anchor. intros Ht He Hseg.
rewrite (updateGesture_tracked st e Ht He). cbv zeta.
set (p := pagePointFromMouse e) in *. set (pts := sample st p) in *.
rewrite Hseg. set (d := dir8 _ _ _). split.
- intros Hd. apply String.eqb_neq in Hd as Hd'. rewrite Hd'. cbn [negb].
  split; [reflexivity|].
  unfold anchor, anchorIndex. cbn [tokens _lastTokenIndex points with_session].
  assert (Hne : (if negb (String.eqb d (lastToken (tokens st)))
                 then tokens st ++ [d] else tokens st) ≠ []).
  { destruct (String.eqb d (lastToken (tokens st))) eqn:E; cbn [negb].
    - apply String.eqb_eq in E. apply (lastToken_nonempty _ d Hd). symmetry. exact E.
    - intros H. destruct (tokens st); discriminate H. }
  destruct (if negb _ then _ else _) as [|t ts]; [contradiction|].
  cbn [mbind option_bind]. rewrite last_lookup.
  replace (pred (length pts)) with (length pts - 1)%nat by lia.
  destruct (pts !! (length pts - 1)%nat) as [x|] eqn:Hx; [reflexivity|].
  destruct (sample_last st p) as [y Hy]. fold pts in Hy.
  rewrite last_lookup in Hy.
  replace (pred (length pts)) with (length pts - 1)%nat in Hy by lia. congruence.
- intros Hd. rewrite Hd. cbn [String.eqb negb]. repeat split.
Qed.

(** The nearest-sector variant stores the index on every move that reaches the
  threshold, yet keeps measuring from the first point while no token exists. *)
Lemma Sectors_updateGesture_anchor (st : state) (e : mouse_event) :
tracking st = true → closestEditableOrEditor (target e) = false →
threshold_met st e = true →
_lastTokenIndex (Sectors.updateGesture st e)
  = Some (length (sample st (pagePointFromMouse e)) - 1)%nat ∧
(Sectors_move_token st e = "" → tokens st = [] →
 anchorIndex (Sectors.updateGesture st e) = Some O).
Proof.
unfold threshold_met, Sectors_move_token, move_anchor.
intros Ht He Hseg. unfold Sectors.updateGesture. rewrite Ht, He. cbv zeta.
cbn [negb]. rewrite Hseg. split.
- destruct (negb _ && negb _); reflexivity.
- intros Hd Htok. rewrite Hd. cbn [String.eqb negb andb].
  unfold anchorIndex. cbn [tokens with_session]. rewrite Htok. reflexivity.
Qed.

(** A gesture just started at the origin under [coarse_jitter]. *)
Definition pressed_at_origin : state :=
run (initial (settings_with coarse_jitter) "x.test") [MouseDown (mouse_at 0 0)].

Lemma pressed_at_origin_eq :
pressed_at_origin
= with_session (initial (settings_with coarse_jitter) "x.test")
    true false [Point 0 0] [] None false None.
Proof. reflexivity. Qed.

Lemma pressed_sample_10 :
sample pressed_at_origin (Point 10 0) = [Point 0 0; Point 10 0].
Proof.
rewrite pressed_at_origin_eq. unfold sample.
cbn [points with_session last sampleMinPx prefs conf initial settings_with
     coarse_jitter].
rewrite dist_x_axis by lra. rewrite leR_true by lra. reflexivity.
Qed.

Lemma pressed_anchor_10 : move_anchor pressed_at_origin (mouse_at 10 0) = Point 0 0.
Proof.
unfold move_anchor. change (pagePointFromMouse (mouse_at 10 0)) with (Point 10 0).
rewrite pressed_sample_10. reflexivity.
Qed.

Lemma pressed_threshold_10 : threshold_met pressed_at_origin (mouse_at 10 0) = true.
Proof.
unfold threshold_met. rewrite pressed_anchor_10.
change (pagePointFromMouse (mouse_at 10 0)) with (Point 10 0).
change (minSegmentPx (prefs (conf pressed_at_origin))) with 6.
rewrite dist_x_axis by lra. apply leR_true. lra.
Qed.
End Anchor.

(** C3, as stated, fails: with minSegmentPx 6 and jitterPx 20, a move from the start
    point (0, 0) to (10, 0) reaches the segment threshold, is classified as "no
    direction", and leaves the anchor at (0, 0) instead of advancing it to the
    sample. *)
Lemma C3_anchor_stays_without_token :
  Content.tracking pressed_at_origin = true ∧
  anchor pressed_at_origin = Some (Num.Point 0 0) ∧
  threshold_met pressed_at_origin (mouse_at 10 0) = true ∧
  move_token pressed_at_origin (mouse_at 10 0) = "" ∧
  anchor (Content.updateGesture pressed_at_origin (mouse_at 10 0)) = Some (Num.Point 0 0) ∧
  Num.Point 0 0 ≠ Content.pagePointFromMouse (mouse_at 10 0).
Proof.
  assert (Hd : move_token pressed_at_origin (mouse_at 10 0) = "").
  { unfold move_token. rewrite pressed_anchor_10.
    change (Content.jitterPx (Content.prefs (Content.conf pressed_at_origin))) with 20%R.
    apply dir8_below_jitter; simpl; unfold Rabs; destruct (Rcase_abs _); lra. }
  split; [reflexivity|]. split; [reflexivity|].
  split; [exact pressed_threshold_10|]. split; [exact Hd|].
  split.
  - destruct (updateGesture_anchor pressed_at_origin (mouse_at 10 0) eq_refl eq_refl
                pressed_threshold_10) as [_ H].
    destruct (H Hd) as (Htok & Hidx & Hpts).
    unfold anchor, Content.anchorIndex. rewrite Htok, Hpts.
    change (Content.pagePointFromMouse (mouse_at 10 0)) with (Num.Point 10 0).
    rewrite pressed_sample_10. reflexivity.
  - intros H. inversion H. lra.
Qed.

(** C3 (amended): for a move whose distance from the current anchor reaches
    minSegmentPx, scripts/content.js advances the anchor index to the last stored
    trajectory point exactly when the classifier answers a token, appended or not,
    and leaves tokens and anchor index unchanged on the empty answer; the
    nearest-sector variant stores the index in every case, but a move with the empty
    answer made while no token exists is followed by a move measured from the first
    point again. *)
Theorem C3_anchor_advances_on_token (st : Content.state) (e : Content.mouse_event) :
  Content.tracking st = true →
  Content.closestEditableOrEditor (Content.target e) = false →
  threshold_met st e = true →
  (move_token st e ≠ "" →
     Content._lastTokenIndex (Content.updateGesture st e)
       = Some (length (Content.sample st (Content.pagePointFromMouse e)) - 1)%nat ∧
     anchor (Content.updateGesture st e)
       = last (Content.sample st (Content.pagePointFromMouse e))) ∧
  (move_token st e = "" →
     Content.tokens (Content.updateGesture st e) = Content.tokens st ∧
     Content._lastTokenIndex (Content.updateGesture st e) = Content._lastTokenIndex st ∧
     Content.points (Content.updateGesture st e)
       = Content.sample st (Content.pagePointFromMouse e)) ∧
  (Content._lastTokenIndex (Sectors.updateGesture st e)
     = Some (length (Content.sample st (Content.pagePointFromMouse e)) - 1)%nat ∧
   (Sectors_move_token st e = "" → Content.tokens st = [] →
    Content.anchorIndex (Sectors.updateGesture st e) = Some O)).
Proof.
  intros Ht He Hth.
  destruct (updateGesture_anchor st e Ht He Hth) as [H1 H2].
  split; [exact H1|]. split; [exact H2|].
  exact (Sectors_updateGesture_anchor st e Ht He Hth).
Qed.

(** C3 (amended) at the gesture pressed at the origin and moved to (10, 0): the
    nearest-sector variant stores index 1, the last stored point. *)
Lemma C3_anchor_advances_on_token_witness :
  Content.tracking pressed_at_origin = true ∧
  threshold_met pressed_at_origin (mouse_at 10 0) = true ∧
  Content._lastTokenIndex (Sectors.updateGesture pressed_at_origin (mouse_at 10 0))
    = Some 1%nat.
Proof.
  split; [reflexivity|]. split; [exact pressed_threshold_10|].
  destruct (C3_anchor_advances_on_token pressed_at_origin (mouse_at 10 0)
              eq_refl eq_refl pressed_threshold_10) as (_ & _ & Hidx & _).
  rewrite Hidx.
  change (Content.pagePointFromMouse (mouse_at 10 0)) with (Num.Point 10 0).
  rewrite pressed_sample_10. reflexivity.
Defined.

(** ** Incremental and batch recognition *)

Section Recompute.
Import JS Num.
#[local] Open Scope R_scope.

(** What every reachable state of the batch variant satisfies under the
    configuration [c]: the pattern it holds is [detectPattern] of the points it
    holds. *)
Definition in_step (c : Batch.settings) (st : Batch.gestureState) : Prop :=
  Batch.conf st = c ∧
  Batch.pattern st
  = Batch.detectPattern (Batch.points st) (Batch.minSegmentPx c) (Batch.jitterPx c).

Lemma Batch_step_in_step (c : Batch.settings) (st : Batch.gestureState)
    (i : Batch.input) :
  in_step c st → in_step c (Batch.step st i).
Proof.
  intros [Hc Hp]. destruct i as [e|e|e|down]; simpl.
  - unfold Batch.startGesture.
    repeat match goal with |- context [if ?b then _ else _] => destruct b end;
      split; simpl; first [exact Hc | exact Hp | reflexivity].
  - unfold Batch.updateGesture.
    repeat match goal with |- context [if ?b then _ else _] => destruct b end;
      split; simpl; first [exact Hc | exact Hp | reflexivity | rewrite Hc; reflexivity].
  - unfold Batch.endGesture.
    repeat match goal with |- context [if ?b then _ else _] => destruct b end;
      split; simpl; first [exact Hc | exact Hp | reflexivity].
  - split; simpl; assumption.
Qed.

Lemma Batch_run_in_step (c : Batch.settings) (st : Batch.gestureState)
    (inputs : list Batch.input) :
  in_step c st → in_step c (Batch.run st inputs).
Proof.
  revert st. induction inputs as [|i inputs IH]; intros st H; [exact H|].
  apply IH. apply Batch_step_in_step. exact H.
Qed.

(** Feeding one more sample to the loop state is the batch run on the longer
    trajectory. *)
Lemma detectPattern_snoc (p0 p : point) (rest : list point) (minSeg jitter : R) :
  Batch.detectPattern (p0 :: rest ++ [p]) minSeg jitter
  = Batch.l_out (Batch.detect_step minSeg jitter
                   (fold_left (Batch.detect_step minSeg jitter) rest (Batch.Loop p0 0 ""))
                   p).
Proof.
  unfold Batch.detectPattern. rewrite fold_left_app.
  destruct rest; reflexivity.
Qed.

(** A tracked gesture stores every sample. *)
Lemma Batch_moves_points (st : Batch.gestureState) (moves : list Content.mouse_event) :
  Batch.tracking st = true →
  Forall (fun e => Content.closestEditableOrEditor (Content.target e) = false) moves →
  Batch.tracking (Batch.run st (Batch.MouseMove <$> moves)) = true ∧
  Batch.points (Batch.run st (Batch.MouseMove <$> moves))
  = Batch.points st ++ (Content.pagePointFromMouse <$> moves).
Proof.
  revert st. induction moves as [|e moves IH]; intros st Ht Hm.
  - simpl. rewrite app_nil_r. auto.
  - inversion Hm as [|? ? He Hm']; subst. cbn [fmap list_fmap Batch.run fold_left Batch.step].
    assert (Hu : Batch.tracking (Batch.updateGesture st e) = true ∧
                 Batch.points (Batch.updateGesture st e)
                 = Batch.points st ++ [Content.pagePointFromMouse e]).
    { unfold Batch.updateGesture. rewrite Ht, He. simpl. auto. }
    destruct Hu as [Ht' Hp'].
    destruct (IH (Batch.updateGesture st e) Ht' Hm') as [H1 H2].
    unfold Batch.run in H1, H2. split; [exact H1|].
    rewrite H2, Hp', <- app_assoc. reflexivity.
Qed.

(** Three samples on a horizontal line: 4 and then 3 pixels to the right. *)
Definition short_hops : list point := [Point 0 0; Point 4 0; Point 7 0].

Definition short_hops_run : Content.state :=
  Content.run (Content.initial (settings_with default_tuning) "x.test")
    [Content.MouseDown (mouse_at 0 0); Content.MouseMove (mouse_at 4 0);
     Content.MouseMove (mouse_at 7 0)].

Lemma short_hops_first_move :
  Content.updateGesture
    (Content.with_session (Content.initial (settings_with default_tuning) "x.test")
       true false [Point 0 0] [] None false None)
    (mouse_at 4 0)
  = Content.with_session (Content.initial (settings_with default_tuning) "x.test")
      true true [Point 0 0; Point 4 0] [] None false None.
Proof.
  rewrite updateGesture_tracked by reflexivity. cbv zeta.
  change (Content.pagePointFromMouse (mouse_at 4 0)) with (Point 4 0).
  unfold Content.sample.
  cbn [Content.points Content.with_session last Content.sampleMinPx Content.prefs
       Content.conf Content.initial settings_with default_tuning Content.moved
       Content.movedPx Content.minSegmentPx Content.jitterPx Content.tokens
       Content.startTarget Content.suppressContextOnce Content._lastTokenIndex].
  rewrite (dist_x_axis 0 4 0) by lra. rewrite (leR_true 3 (4 - 0)) by lra.
  unfold Content.anchor_in, Content.anchorIndex.
  cbn [Content.tokens Content.with_session mbind option_bind lookup list_lookup default
       from_option Datatypes.id app].
  rewrite (dist_x_axis 0 4 0) by lra.
  rewrite (leR_true 3 (4 - 0)) by lra. rewrite (leR_false 8 (4 - 0)) by lra.
  reflexivity.
Qed.

Lemma short_hops_second_move :
  Content.updateGesture
    (Content.with_session (Content.initial (settings_with default_tuning) "x.test")
       true true [Point 0 0; Point 4 0] [] None false None)
    (mouse_at 7 0)
  = Content.with_session (Content.initial (settings_with default_tuning) "x.test")
      true true short_hops [] None false None.
Proof.
  rewrite updateGesture_tracked by reflexivity. cbv zeta.
  change (Content.pagePointFromMouse (mouse_at 7 0)) with (Point 7 0).
  unfold Content.sample.
  cbn [Content.points Content.with_session last Content.sampleMinPx Content.prefs
       Content.conf Content.initial settings_with default_tuning Content.moved
       Content.movedPx Content.minSegmentPx Content.jitterPx Content.tokens
       Content.startTarget Content.suppressContextOnce Content._lastTokenIndex].
  rewrite (dist_x_axis 4 7 0) by lra. rewrite (leR_true 3 (7 - 4)) by lra.
  unfold Content.anchor_in, Content.anchorIndex.
  cbn [Content.tokens Content.with_session mbind option_bind lookup list_lookup default
       from_option Datatypes.id app].
  rewrite (dist_x_axis 0 7 0) by lra. rewrite (leR_false 8 (7 - 0)) by lra.
  reflexivity.
Qed.

Lemma short_hops_run_eq :
  short_hops_run
  = Content.with_session (Content.initial (settings_with default_tuning) "x.test")
      true true short_hops [] None false None.
Proof.
  unfold short_hops_run, Content.run. cbn [fold_left Content.step].
  change (Content.startGesture _ (mouse_at 0 0))
    with (Content.with_session (Content.initial (settings_with default_tuning) "x.test")
            true false [Point 0 0] [] None false None).
  rewrite short_hops_first_move. apply short_hops_second_move.
Qed.

Lemma short_hops_batch : Batch.detectPattern short_hops 8 4 = "R".
Proof.
  unfold Batch.detectPattern, short_hops. cbn [fold_left].
  unfold Batch.detect_step at 2. cbn [Batch.l_acc Batch.l_last Batch.l_out].
  rewrite (dist_x_axis 0 4 0) by lra. rewrite (leR_false 8 (0 + (4 - 0))) by lra.
  unfold Batch.detect_step. cbn [Batch.l_acc Batch.l_last Batch.l_out].
  rewrite (dist_x_axis 0 7 0) by lra. rewrite (leR_true 8 (0 + (4 - 0) + (7 - 0))) by lra.
  unfold Batch.dir. cbn [px py].
  rewrite (ltR_false (Rabs (7 - 0)) 4) by (unfold Rabs; destruct (Rcase_abs _); lra).
  cbn [andb].
  rewrite (leR_true (Rabs (0 - 0)) (Rabs (7 - 0)))
    by (unfold Rabs; repeat destruct (Rcase_abs _); lra).
  rewrite (leR_true 0 (7 - 0)) by lra. reflexivity.
Qed.
End Recompute.

(** C4, as stated, fails: on the samples (0,0), (4,0), (7,0) with the default
    thresholds (minSegmentPx 8, jitterPx 4, sampleMinPx 3) the per-move token
    accumulation of scripts/content.js keeps all three points and records no token,
    while the batch [detectPattern] over the same three points returns R; with the
    default map the first resolves to nothing and the second to "forward". *)
Lemma C4_incremental_differs_from_batch :
  Content.points short_hops_run = short_hops ∧
  Content.pattern_of (Content.tokens short_hops_run) = "" ∧
  Batch.detectPattern short_hops 8 4 = "R" ∧
  Content.resolveAction short_hops_run = JS.VStr "" ∧
  JS.read Content.DEFAULTS_gestureMap "R" = JS.VStr "forward".
Proof.
  rewrite short_hops_run_eq.
  split; [reflexivity|]. split; [reflexivity|]. split; [exact short_hops_batch|].
  split; reflexivity.
Qed.

(** C4 (amended): in the variant built on the batch [detectPattern], the pattern
    held after any sequence of mouse events under a fixed configuration is
    [detectPattern] of the trajectory held at that moment (so recomputing on every
    move ends in the batch result over the complete trajectory); a tracked gesture
    stores every sample; and carrying the loop state from sample to sample gives the
    same output as the batch run.  The token accumulation of scripts/content.js is a
    different algorithm and is not covered. *)
Theorem C4_recompute_equals_batch (c : Batch.settings) (host : string)
    (inputs : list Batch.input) :
  Batch.pattern (Batch.run (Batch.initial c host) inputs)
  = Batch.detectPattern (Batch.points (Batch.run (Batch.initial c host) inputs))
                        (Batch.minSegmentPx c) (Batch.jitterPx c) ∧
  (∀ (st : Batch.gestureState) (moves : list Content.mouse_event),
     Batch.tracking st = true →
     Forall (fun e => Content.closestEditableOrEditor (Content.target e) = false) moves →
     Batch.points (Batch.run st (Batch.MouseMove <$> moves))
     = Batch.points st ++ (Content.pagePointFromMouse <$> moves)) ∧
  (∀ (p0 p : Num.point) (rest : list Num.point) (minSeg jitter : R),
     Batch.detectPattern (p0 :: rest ++ [p]) minSeg jitter
     = Batch.l_out (Batch.detect_step minSeg jitter
                      (fold_left (Batch.detect_step minSeg jitter) rest (Batch.Loop p0 0 ""))
                      p)).
Proof.
  split; [|split].
  - apply (Batch_run_in_step c). split; reflexivity.
  - intros st moves Ht Hm. apply Batch_moves_points; assumption.
  - intros. apply detectPattern_snoc.
Qed.

(** ** The scenarios of the specification, run on the model *)

Section Scenarios.
Import JS Num Content.
#[local] Open Scope R_scope.

Example normalizeHost_example : normalizeHost "  Gist.GitHub.com " = "gist.github.com".
Proof. reflexivity. Qed.

Example split_join_example :
Str.split "." "a.b.example.com" = ["a"; "b"; "example"; "com"] ∧
Str.join "." (drop 2 (Str.split "." "a.b.example.com")) = "example.com".
Proof. split; reflexivity. Qed.

(** Distances along a vertical line. *)
Lemma dist_y_axis (x a b : R) : a <= b → dist (Point x a) (Point x b) = b - a.
Proof. intros H. apply dist_eval; [lra | simpl; ring]. Qed.

Lemma Rabs_pos_eq (r : R) : 0 <= r → Rabs r = r.
Proof. intros H. unfold Rabs. destruct (Rcase_abs r); lra. Qed.

Lemma Batch_dir_right (jitter k : R) :
0 < k → jitter <= k → Batch.dir jitter (k - 0) (0 - 0) = "R".
Proof.
intros Hk Hj. unfold Batch.dir.
rewrite (Rabs_pos_eq (k - 0)), (Rabs_pos_eq (0 - 0)) by lra.
rewrite (ltR_false (k - 0) jitter) by lra. cbn [andb].
rewrite (leR_true (0 - 0) (k - 0)) by lra. rewrite (leR_true 0 (k - 0)) by lra.
reflexivity.
Qed.

Lemma Batch_dir_down (jitter x k : R) :
0 < k → jitter <= k → Batch.dir jitter (x - x) (k - 0) = "D".
Proof.
intros Hk Hj. unfold Batch.dir.
rewrite (Rabs_pos_eq (x - x)), (Rabs_pos_eq (k - 0)) by lra.
rewrite (ltR_false (k - 0) jitter) by lra. rewrite andb_false_r.
rewrite (leR_false (k - 0) (x - x)) by lra. rewrite (leR_true 0 (k - 0)) by lra.
reflexivity.
Qed.

(** Scenario 1: 40 pixels to the right with minSegmentPx 18 and jitterPx 4. *)
Example rightward_40 : Batch.detectPattern [Point 0 0; Point 40 0] 18 4 = "R".
Proof.
unfold Batch.detectPattern. cbn [fold_left].
unfold Batch.detect_step. cbn [Batch.l_acc Batch.l_last Batch.l_out px py].
rewrite (dist_x_axis 0 40 0) by lra. rewrite (leR_true 18 (0 + (40 - 0))) by lra.
rewrite Batch_dir_right by lra. reflexivity.
Qed.

(** Scenario 2: 20 pixels right, then 20 pixels down. *)
Definition right_then_down : list point := [Point 0 0; Point 20 0; Point 20 20].

Lemma right_then_down_first :
Batch.detect_step 18 4 (Batch.Loop (Point 0 0) 0 "") (Point 20 0)
= Batch.Loop (Point 20 0) 0 "R".
Proof.
unfold Batch.detect_step. cbn [Batch.l_acc Batch.l_last Batch.l_out px py].
rewrite (dist_x_axis 0 20 0) by lra. rewrite (leR_true 18 (0 + (20 - 0))) by lra.
rewrite Batch_dir_right by lra. reflexivity.
Qed.

Lemma right_then_down_second :
Batch.detect_step 18 4 (Batch.Loop (Point 20 0) 0 "R") (Point 20 20)
= Batch.Loop (Point 20 20) 0 "RD".
Proof.
unfold Batch.detect_step. cbn [Batch.l_acc Batch.l_last Batch.l_out px py].
rewrite (dist_y_axis 20 0 20) by lra. rewrite (leR_true 18 (0 + (20 - 0))) by lra.
rewrite Batch_dir_down by lra. reflexivity.
Qed.

Example right_then_down_raw : Batch.detectPattern right_then_down 18 4 = "RD".
Proof.
unfold Batch.detectPattern, right_then_down. cbn [fold_left].
rewrite right_then_down_first, right_then_down_second. reflexivity.
Qed.

Example right_then_down_normalized : Swipe.normalizePattern "RD" = "DR".
Proof. reflexivity. Qed.

(** Scenario 3: on gist.github.com the default policy asks for the Alt key. *)
Example gist_needs_alt :
tracking (startGesture (initial (settings_with default_tuning) "gist.github.com")
            (mouse_at 0 0)) = false ∧
tracking (startGesture (initial (settings_with default_tuning) "gist.github.com")
            {| button := 2; altKey := true; clientX := 0; clientY := 0;
               target := None |}) = true.
Proof. split; reflexivity. Qed.

(** Scenario 4: blacklist mode with example.com on the list. *)
Definition example_blacklisted : settings :=
{| enabled := true; mode := "blacklist"; list_ := ["example.com"];
   prefs := default_tuning; gestureMap := DEFAULTS_gestureMap;
   policies := DEFAULT_POLICIES |}.

Example blacklist_example :
isAllowedOnThisSite (initial example_blacklisted "example.com") = false ∧
isAllowedOnThisSite (initial example_blacklisted "other.com") = true.
Proof. split; reflexivity. Qed.

(** Mode inversion: with the extension enabled and the site policy not "disabled",
  blacklist mode allows the site iff no rule matches, whitelist mode iff one does. *)
Lemma mode_inversion (st : state) :
enabled (conf st) = true →
strict_eq_str (get (getSitePolicy (policies (conf st)) (location_host st)) "behavior")
              "disabled" = false →
isAllowedOnThisSite st
= if String.eqb (mode (conf st)) "blacklist"
  then negb (existsb (hostMatchesRule (location_host st)) (list_ (conf st)))
  else existsb (hostMatchesRule (location_host st)) (list_ (conf st)).
Proof. intros He Hp. unfold isAllowedOnThisSite. rewrite He, Hp. reflexivity. Qed.
End Scenarios.

(** ** Site policy lookup *)

Section SitePolicy.
Import JS Content.

(** The parent domains of a host, most specific first, without the last label on
    its own: for a.b.example.com these are b.example.com and example.com. *)
Definition parent_domains (host : string) : list string :=
  let labels := Str.split "." host in
  (fun i => Str.join "." (drop i labels)) <$> seq 1 (length labels - 2).

(** The first host of [hosts] that has a (truthy) entry in [policies]. *)
Fixpoint first_entry (policies : gmap string value) (hosts : list string) : option value :=
  match hosts with
  | [] => None
  | h :: hosts' =>
      if truthy (read policies h) then Some (read policies h)
      else first_entry policies hosts'
  end.

(** The lookup order in the words of the specification: exact host, then the parent
    domains, else normal. *)
Definition evaluate (policies : gmap string value) (host : string) : value :=
  let host := normalizeHost host in
  if String.eqb host "" then normal
  else default normal (first_entry policies (host :: parent_domains host)).

Lemma walk_parents_first_entry (policies : gmap string value) (parts : list string)
    (i steps : nat) :
  walk_parents policies parts i steps
  = first_entry policies ((fun j => Str.join "." (drop j parts)) <$> seq i steps).
Proof.
  revert i. induction steps as [|n IH]; intros i; [reflexivity|].
  cbn [walk_parents seq fmap list_fmap first_entry].
  rewrite IH. reflexivity.
Qed.

Lemma getSitePolicy_evaluate (policies : gmap string value) (host : string) :
  getSitePolicy policies host = evaluate policies host.
Proof.
  unfold getSitePolicy, evaluate, parent_domains.
  destruct (String.eqb (normalizeHost host) ""); [reflexivity|].
  cbn [first_entry].
  destruct (truthy (read policies (normalizeHost host))); [reflexivity|].
  rewrite walk_parents_first_entry.
  replace (length (Str.split "." (normalizeHost host)) - 1 - 1)%nat
    with (length (Str.split "." (normalizeHost host)) - 2)%nat by lia.
  destruct (first_entry _ _); reflexivity.
Qed.

Lemma read_insert_eq (m : gmap string value) (k : string) (v : value) :
  read (<[k := v]> m) k = v.
Proof. unfold read. rewrite lookup_insert_eq. reflexivity. Qed.

Lemma read_insert_ne (m : gmap string value) (k k' : string) (v : value) :
  k ≠ k' → read (<[k := v]> m) k' = read m k'.
Proof. intros H. unfold read. rewrite lookup_insert_ne by exact H. reflexivity. Qed.
End SitePolicy.

(** C8: [getSitePolicy] tries the exact host, then the parent domains from the most
    specific to the least specific one without the top-level label, and defaults to
    normal; so an entry for example.com governs example.com and (absent an entry of
    its own) sub.example.com, and has no effect on notexample.com.  The domain-list
    matcher [hostMatchesRule] draws the same line. *)
Theorem C8_policy_lookup_order (policies : gmap string JS.value) (v : JS.value) :
  JS.truthy v = true →
  (∀ host, Content.getSitePolicy policies host = evaluate policies host) ∧
  parent_domains "a.b.example.com" = ["b.example.com"; "example.com"] ∧
  Content.getSitePolicy (<["example.com" := v]> policies) "example.com" = v ∧
  (JS.truthy (JS.read policies "sub.example.com") = false →
   Content.getSitePolicy (<["example.com" := v]> policies) "sub.example.com" = v) ∧
  Content.getSitePolicy (<["example.com" := v]> policies) "notexample.com"
    = Content.getSitePolicy policies "notexample.com" ∧
  (Content.hostMatchesRule "example.com" "example.com" = true ∧
   Content.hostMatchesRule "sub.example.com" "example.com" = true ∧
   Content.hostMatchesRule "notexample.com" "example.com" = false).
Proof.
  intros Hv. split; [apply getSitePolicy_evaluate|].
  split; [reflexivity|].
  rewrite !getSitePolicy_evaluate.
  split; [|split; [|split]].
  - unfold evaluate.
    change (Content.normalizeHost "example.com") with "example.com".
    cbn [String.eqb Ascii.eqb Bool.eqb first_entry].
    rewrite read_insert_eq, Hv. reflexivity.
  - intros Hsub. unfold evaluate.
    change (Content.normalizeHost "sub.example.com") with "sub.example.com".
    change (parent_domains "sub.example.com") with ["example.com"].
    change (String.eqb "sub.example.com" "") with false.
    cbn [first_entry].
    rewrite read_insert_ne by discriminate. rewrite Hsub.
    rewrite read_insert_eq, Hv. reflexivity.
  - unfold evaluate.
    change (Content.normalizeHost "notexample.com") with "notexample.com".
    change (parent_domains "notexample.com") with (@nil string).
    change (String.eqb "notexample.com" "") with false.
    cbn [first_entry].
    rewrite read_insert_ne by discriminate. reflexivity.
  - repeat split; vm_compute; reflexivity.
Qed.

(** C8 at the default policy table extended with a "disabled" entry for example.com. *)
Lemma C8_policy_lookup_order_witness :
  JS.truthy (Content.behavior "disabled") = true ∧
  Content.getSitePolicy (<["example.com" := Content.behavior "disabled"]> Content.DEFAULT_POLICIES)
    "sub.example.com" = Content.behavior "disabled".
Proof.
  split; [reflexivity|].
  apply (C8_policy_lookup_order Content.DEFAULT_POLICIES (Content.behavior "disabled")
           eq_refl).
  reflexivity.
Defined.

(** ** Action resolution in scripts/content.js *)

Section ActionResolution.
Import JS Num Content.
#[local] Open Scope R_scope.

(** [state.gestureMap[pattern] || ""]: the outcome of the primary lookup. *)
Definition mapped_action (st : state) : value :=
  if truthy (read (gestureMap (conf st)) (pattern_of (tokens st)))
  then read (gestureMap (conf st)) (pattern_of (tokens st)) else VStr "".

(** The default map with the pattern R remapped from "forward" to "reload". *)
Definition R_remapped : gmap string value :=
  <["R" := VStr "reload"]> DEFAULTS_gestureMap.

Definition remapped_settings : settings :=
  {| enabled := true; mode := "blacklist"; list_ := []; prefs := default_tuning;
     gestureMap := R_remapped; policies := DEFAULT_POLICIES |}.

(** A gesture about to end: pressed on a link at (0, 0) and dragged 20 pixels to
    the right, under the remapped configuration. *)
Definition R_on_link : state :=
  run (initial remapped_settings "x.test")
    [MouseDown (mouse_on (link_to "https://x.test/a") 0 0); MouseMove (mouse_at 20 0)].

(** A displacement to the right is classified R. *)
Lemma dir8_right (k jitter : R) : 0 < k → jitter <= k → dir8 (k - 0) (0 - 0) jitter = "R".
Proof.
  intros Hk Hj. replace (k - 0) with k by ring. replace (0 - 0) with 0 by ring.
  assert (Hnb : ltR (Rabs k) jitter && ltR (Rabs 0) jitter = false).
  { rewrite (ltR_false (Rabs k) jitter); [reflexivity|].
    unfold Rabs. destruct (Rcase_abs k); lra. }
  destruct (band_dir8 k 0 jitter Hnb) as [Hh _]. rewrite Hh.
  - rewrite leR_true by lra. reflexivity.
  - left. rewrite angle_deg_right by exact Hk.
    unfold Rabs. destruct (Rcase_abs 0); lra.
Qed.

Lemma R_on_link_eq :
  R_on_link
  = with_session (initial remapped_settings "x.test") true true
      [Point 0 0; Point 20 0] ["R"] (link_to "https://x.test/a") false (Some 1%nat).
Proof.
  unfold R_on_link, run. cbn [fold_left step].
  change (startGesture _ (mouse_on _ 0 0))
    with (with_session (initial remapped_settings "x.test") true false [Point 0 0] []
            (link_to "https://x.test/a") false None).
  rewrite updateGesture_tracked by reflexivity. cbv zeta.
  change (pagePointFromMouse (mouse_at 20 0)) with (Point 20 0).
  unfold sample.
  cbn [points with_session last sampleMinPx prefs conf initial remapped_settings
       default_tuning moved movedPx minSegmentPx jitterPx tokens startTarget
       suppressContextOnce _lastTokenIndex].
  rewrite (dist_x_axis 0 20 0) by lra. rewrite (leR_true 3 (20 - 0)) by lra.
  unfold anchor_in, anchorIndex.
  cbn [tokens with_session mbind option_bind lookup list_lookup default from_option
       Datatypes.id app px py].
  rewrite (dist_x_axis 0 20 0) by lra.
  rewrite (leR_true 3 (20 - 0)) by lra. rewrite (leR_true 8 (20 - 0)) by lra.
  rewrite dir8_right by lra. reflexivity.
Qed.
End ActionResolution.

(** C1, as stated, fails: with the pattern R remapped to "reload", a gesture drawn
    to the right from a link with a resolvable URL records the pattern R and still
    ends in "new_tab" for that link, not in the remapped action. *)
Lemma C1_remap_overridden :
  JS.read R_remapped "R" = JS.VStr "reload" ∧
  Content.pattern_of (Content.tokens R_on_link) = "R" ∧
  Content.getLinkHref (Content.startTarget R_on_link) = "https://x.test/a" ∧
  Content.resolveAction R_on_link = JS.VStr "new_tab" ∧
  snd (Content.endGesture R_on_link (mouse_at 20 0))
    = [Content.SendMessage "new_tab" "https://x.test/a"].
Proof. rewrite R_on_link_eq. repeat split; vm_compute; reflexivity. Qed.

(** C1 (amended): the override is evaluated after the primary lookup and is keyed
    on the pattern, not on the looked-up action: for every pattern other than R the
    action is the mapped one (or none); for the pattern R it is "new_tab" whenever
    the start element lies in a link with a resolvable URL, whatever R is mapped to,
    and the mapped action otherwise; a moved gesture then executes exactly that. *)
Theorem C1_override_keyed_on_pattern (st : Content.state) (e : Content.mouse_event) :
  (Content.pattern_of (Content.tokens st) ≠ "R" →
     Content.resolveAction st = mapped_action st) ∧
  (Content.pattern_of (Content.tokens st) = "R" →
     Content.getLinkHref (Content.startTarget st) ≠ "" →
     Content.resolveAction st = JS.VStr "new_tab") ∧
  (Content.pattern_of (Content.tokens st) = "R" →
     Content.getLinkHref (Content.startTarget st) = "" →
     Content.resolveAction st = mapped_action st) ∧
  (Content.tracking st = true → Content.moved st = true →
     snd (Content.endGesture st e)
       = if JS.truthy (Content.resolveAction st)
         then Content.execAction (Content.resolveAction st) (Content.startTarget st)
         else []).
Proof.
  unfold Content.resolveAction, mapped_action.
  repeat split.
  - intros Hne. apply String.eqb_neq in Hne. rewrite Hne. reflexivity.
  - intros Heq Hlink. apply String.eqb_eq in Heq. rewrite Heq.
    destruct (Content.startTarget st) as [el|] eqn:Ht.
    + apply String.eqb_neq in Hlink. rewrite Hlink.
      rewrite bool_decide_eq_true_2 by eauto. reflexivity.
    + exfalso. apply Hlink. reflexivity.
  - intros Heq Hlink. rewrite Hlink.
    destruct (String.eqb _ "R" && _); reflexivity.
  - intros Htr Hmv. unfold Content.endGesture. rewrite Htr, Hmv. reflexivity.
Qed.

(** ** Reading the configuration *)

Section ReadAll.
Import JS Content.
Variable StringToNumber : string → number.
Variable ObjectToNumber : value → completion number.

#[local] Abbreviation Number := (JS.Number StringToNumber ObjectToNumber).
#[local] Abbreviation clamp := (Content.clamp StringToNumber ObjectToNumber).
#[local] Abbreviation clamp_field := (Content.clamp_field StringToNumber ObjectToNumber).
#[local] Abbreviation readAll_try := (Content.readAll_try StringToNumber ObjectToNumber).
#[local] Abbreviation readAll := (Content.readAll StringToNumber ObjectToNumber).

(** The numeric preferences with the range [readAll] clamps each one into. *)
Definition numeric_fields : list (string * Q * Q) :=
  [ ("minSegmentPx", 6, 60); ("jitterPx", 0, 20); ("sampleMinPx", 0, 10);
    ("movedPx", 1, 20); ("lineWidth", 1, 18); ("trailAlpha", 5 # 100, 1) ]%Q.

(** What [clamp] returns once its argument is converted to the number [n]. *)
Definition clamp_number (n : number) (a b : Q) : Q :=
  match n with
  | Fin q => Qmin b (Qmax a q)
  | _ => a
  end.

(** The stored preferences object, as [readAll] spreads it over the defaults. *)
Definition stored_prefs (storage : completion (gmap string value)) : gmap string value :=
  match storage with
  | Normal res =>
      own_props (object_or_empty (get (object_or_empty (read res KEYS_cfg)) "prefs"))
  | Throw _ => ∅
  end.

(** The result of the [catch] branch. *)
Definition fallback : readAll_result :=
  {| r_cfg := DEFAULTS; r_list := []; r_policies := DEFAULT_POLICIES |}.

(** Whether the body of the [try] ran to its [return]. *)
Definition try_succeeds (storage : completion (gmap string value)) : Prop :=
  ∃ r, (storage ≫= readAll_try) = Normal r.

Lemma clamp_number_range (n : number) (a b : Q) :
  (a <= b)%Q → (a <= clamp_number n a b <= b)%Q.
Proof.
  intros Hab. destruct n as [q| | |]; simpl; try (split; [apply Qle_refl | exact Hab]).
  split.
  - apply Q.min_glb; [exact Hab | apply Q.le_max_l].
  - apply Q.le_min_l.
Qed.

Lemma clamp_spec (v : value) (a b q : Q) :
  clamp v a b = Normal q ↔ ∃ n, Number v = Normal n ∧ q = clamp_number n a b.
Proof.
  unfold Content.clamp. destruct (Number v) as [n|e]; simpl.
  - split.
    + intros H. exists n. split; [reflexivity|].
      destruct n; simpl in *; inversion H; reflexivity.
    + intros (n' & Hn & ->). inversion Hn; subst. destruct n'; reflexivity.
  - split; [discriminate | intros (n' & Hn & _); discriminate].
Qed.

Lemma clamp_field_spec (k : string) (a b : Q) (p p' : gmap string value) :
  clamp_field k a b p = Normal p' →
  ∃ q, clamp (read p k) a b = Normal q ∧ p' = <[k := num q]> p.
Proof.
  unfold Content.clamp_field. destruct (clamp (read p k) a b) as [q|e]; simpl.
  - intros H. inversion H. exists q. split; reflexivity.
  - discriminate.
Qed.

Lemma bind_normal_inv {A B : Type} (c : completion A) (k : A → completion B) (b : B) :
  (c ≫= k) = Normal b → ∃ a, c = Normal a ∧ k a = Normal b.
Proof. destruct c as [a|e]; [intros H; exists a; split; [reflexivity | exact H] | discriminate]. Qed.

(** After a successful [try], each numeric preference holds the clamped conversion
    of what the merged object held under that key. *)
Lemma readAll_try_prefs (res : gmap string value) (r : readAll_result) :
  readAll_try res = Normal r →
  Forall (fun '(k, a, b) =>
            ∃ q, clamp (read (stored_prefs (Normal res) ∪ DEFAULTS_prefs) k) a b = Normal q
                 ∧ cfg_prefs (r_cfg r) !! k = Some (num q))
         numeric_fields.
Proof.
  unfold Content.readAll_try, stored_prefs. cbv zeta.
  change (cfg_prefs DEFAULTS) with DEFAULTS_prefs.
  set (p0 := own_props _ ∪ DEFAULTS_prefs).
  intros H.
  apply bind_normal_inv in H as (p1 & E1 & H).
  apply clamp_field_spec in E1 as (q1 & C1 & ->).
  apply bind_normal_inv in H as (p2 & E2 & H).
  apply clamp_field_spec in E2 as (q2 & C2 & ->).
  apply bind_normal_inv in H as (p3 & E3 & H).
  apply clamp_field_spec in E3 as (q3 & C3 & ->).
  apply bind_normal_inv in H as (p4 & E4 & H).
  apply clamp_field_spec in E4 as (q4 & C4 & ->).
  apply bind_normal_inv in H as (p5 & E5 & H).
  apply clamp_field_spec in E5 as (q5 & C5 & ->).
  apply bind_normal_inv in H as (p6 & E6 & H).
  apply clamp_field_spec in E6 as (q6 & C6 & ->).
  injection H as <-. cbn [r_cfg cfg_prefs].
  rewrite !read_insert_ne in C2 by discriminate.
  rewrite !read_insert_ne in C3 by discriminate.
  rewrite !read_insert_ne in C4 by discriminate.
  rewrite !read_insert_ne in C5 by discriminate.
  rewrite !read_insert_ne in C6 by discriminate.
  repeat constructor.
  - exists q1. split; [exact C1|].
    rewrite !lookup_insert_ne by discriminate. apply lookup_insert_eq.
  - exists q2. split; [exact C2|].
    rewrite !lookup_insert_ne by discriminate. apply lookup_insert_eq.
  - exists q3. split; [exact C3|].
    rewrite !lookup_insert_ne by discriminate. apply lookup_insert_eq.
  - exists q4. split; [exact C4|].
    rewrite !lookup_insert_ne by discriminate. apply lookup_insert_eq.
  - exists q5. split; [exact C5|].
    rewrite !lookup_insert_ne by discriminate. apply lookup_insert_eq.
  - exists q6. split; [exact C6|]. apply lookup_insert_eq.
Qed.

(** The fields of the result other than the numeric preferences, after a
    successful [try] on the stored object [res]: each one is the stored value when
    that is well-formed and the default otherwise. *)
Definition settings_contract (res : gmap string value) (r : readAll_result) : Prop :=
  cfg_enabled (r_cfg r)
    = match get (object_or_empty (read res KEYS_cfg)) "enabled" with
      | VBool b => b
      | _ => true
      end ∧
  cfg_mode (r_cfg r)
    = match get (object_or_empty (read res KEYS_cfg)) "mode" with
      | VStr s => if String.eqb s "whitelist" || String.eqb s "blacklist" then s
                  else "blacklist"
      | _ => "blacklist"
      end ∧
  (∀ k, cfg_gestureMap (r_cfg r) !! k
        = match own_props (object_or_empty
                   (get (object_or_empty (read res KEYS_cfg)) "gestureMap")) !! k with
          | Some v => Some v
          | None => DEFAULTS_gestureMap !! k
          end) ∧
  r_list r = match read res KEYS_list with VArr l => l | _ => [] end ∧
  (∀ k, r_policies r !! k
        = match own_props (object_or_empty (read res KEYS_policies)) !! k with
          | Some v => Some v
          | None => DEFAULT_POLICIES !! k
          end).

Lemma lookup_union_match (m d : gmap string value) (k : string) :
  (m ∪ d) !! k = match m !! k with Some v => Some v | None => d !! k end.
Proof.
  destruct (m !! k) as [v|] eqn:Hk.
  - apply lookup_union_Some_l. exact Hk.
  - apply lookup_union_r. exact Hk.
Qed.

Lemma readAll_try_settings (res : gmap string value) (r : readAll_result) :
  readAll_try res = Normal r → settings_contract res r.
Proof.
  unfold Content.readAll_try. cbv zeta. intros H.
  apply bind_normal_inv in H as (p1 & _ & H).
  apply bind_normal_inv in H as (p2 & _ & H).
  apply bind_normal_inv in H as (p3 & _ & H).
  apply bind_normal_inv in H as (p4 & _ & H).
  apply bind_normal_inv in H as (p5 & _ & H).
  apply bind_normal_inv in H as (p6 & _ & H).
  injection H as <-. unfold settings_contract.
  cbn [r_cfg r_list r_policies cfg_enabled cfg_mode cfg_gestureMap].
  split; [reflexivity|]. split; [reflexivity|].
  split; [intros k; apply lookup_union_match|].
  split; [reflexivity|]. intros k. apply lookup_union_match.
Qed.

(** What the amended claim promises for one numeric preference [k] with range
    [a..b], about the result [r] of reading [storage]. *)
Definition field_contract (storage : completion (gmap string value))
    (r : readAll_result) (f : string * Q * Q) : Prop :=
  let '(k, a, b) := f in
  (∃ q, cfg_prefs (r_cfg r) !! k = Some (num q) ∧ (a <= q <= b)%Q) ∧
  (stored_prefs storage !! k = None →
     cfg_prefs (r_cfg r) !! k = DEFAULTS_prefs !! k) ∧
  (∀ v, stored_prefs storage !! k = Some v → try_succeeds storage →
     ∃ n, Number v = Normal n ∧
          cfg_prefs (r_cfg r) !! k = Some (num (clamp_number n a b))).

Lemma fallback_contract (storage : completion (gmap string value)) :
  ¬ try_succeeds storage →
  Forall (field_contract storage fallback) numeric_fields.
Proof.
  intros Hno.
  repeat constructor; simpl;
    try (eexists; split; [reflexivity | split; unfold Qle; simpl; lia]);
    intros; contradiction.
Qed.

Lemma read_union_stored (m d : gmap string value) (k : string) (v : value) :
  m !! k = Some v → read (m ∪ d) k = v.
Proof. intros H. unfold read. rewrite (lookup_union_Some_l m d k v H). reflexivity. Qed.

Lemma read_union_missing (m d : gmap string value) (k : string) :
  m !! k = None → read (m ∪ d) k = read d k.
Proof. intros H. unfold read. rewrite lookup_union_r by exact H. reflexivity. Qed.

(** One numeric preference after a successful [try]. *)
Ltac field_after_try H :=
  let q := fresh "q" in let Hc := fresh "Hc" in let Hq := fresh "Hq" in
  let n := fresh "n" in let Hn := fresh "Hn" in
  destruct H as (q & Hc & Hq);
  apply clamp_spec in Hc as (n & Hn & ->);
  split; [| split];
  [ eexists; split;
    [ exact Hq | apply clamp_number_range; unfold Qle; simpl; lia ]
  | let Hmiss := fresh "Hmiss" in
    intros Hmiss; rewrite (read_union_missing _ _ _ Hmiss) in Hn;
    vm_compute in Hn; inversion Hn; subst n; rewrite Hq; reflexivity
  | let v := fresh "v" in let Hv := fresh "Hv" in
    intros v Hv _; rewrite (read_union_stored _ _ _ _ Hv) in Hn;
    exists n; split; [exact Hn | exact Hq] ].

Lemma success_contract (res : gmap string value) (r : readAll_result) :
  readAll_try res = Normal r →
  Forall (field_contract (Normal res) r) numeric_fields.
Proof.
  intros Hr. pose proof (readAll_try_prefs res r Hr) as Hp.
  unfold numeric_fields in *.
  apply Forall_cons in Hp as [H1 Hp]. apply Forall_cons in Hp as [H2 Hp].
  apply Forall_cons in Hp as [H3 Hp]. apply Forall_cons in Hp as [H4 Hp].
  apply Forall_cons in Hp as [H5 Hp]. apply Forall_cons in Hp as [H6 _].
  repeat (apply Forall_cons; split); [..| apply Forall_nil; exact I].
  - field_after_try H1.
  - field_after_try H2.
  - field_after_try H3.
  - field_after_try H4.
  - field_after_try H5.
  - field_after_try H6.
Qed.

(** C9 (amended): [readAll] returns a configuration for every outcome of the storage
    read, also when a conversion throws; every numeric preference of the result is
    a finite number inside its range; a preference that is not stored gets its
    default; a stored one is converted by [Number] and clamped, so a value whose
    conversion is not finite yields the lower bound of the range; the other fields
    take the stored value when it is well-formed and their default otherwise; and
    when the [try] does not run to its end the whole result is the default
    configuration. *)
Theorem C9_readAll_total_and_clamped (storage : completion (gmap string value)) :
  ∃ r, readAll storage = Normal r ∧
       Forall (field_contract storage r) numeric_fields ∧
       (∀ res, storage = Normal res → try_succeeds storage → settings_contract res r) ∧
       (¬ try_succeeds storage → r = fallback).
Proof.
  destruct storage as [res|e].
  - destruct (readAll_try res) as [r|e] eqn:E.
    + exists r. split; [|split; [|split]].
      * unfold Content.readAll. simpl. rewrite E. reflexivity.
      * apply success_contract. exact E.
      * intros res' [= <-] _. apply readAll_try_settings. exact E.
      * intros Hno. exfalso. apply Hno. exists r. exact E.
    + exists fallback. split; [|split; [|split]].
      * unfold Content.readAll. simpl. rewrite E. reflexivity.
      * apply fallback_contract. intros [r Hr]. simpl in Hr. congruence.
      * intros res' _ [r Hr]. simpl in Hr. congruence.
      * reflexivity.
  - exists fallback. split; [|split; [|split]].
    + reflexivity.
    + apply fallback_contract. intros [r Hr]. discriminate Hr.
    + intros res' Hres. discriminate Hres.
    + reflexivity.
Qed.
End ReadAll.

(** A stored configuration whose only preference is [minSegmentPx], set to [v]. *)
Definition stored_minSegmentPx (v : JS.value) : gmap string JS.value :=
  <[Content.KEYS_cfg :=
      JS.VObj (<["prefs" := JS.VObj (<["minSegmentPx" := v]> ∅)]> ∅)]> ∅.

Section StoredMinSegmentPx.
Import JS Content.

Lemma clamp_field_converted s2n o2n (k : string) (a b : Q) (p : gmap string value)
    (n : number) :
  Number s2n o2n (read p k) = Normal n →
  clamp_field s2n o2n k a b p = Normal (<[k := num (clamp_number n a b)]> p).
Proof.
  intros Hn. unfold clamp_field, clamp. rewrite Hn. destruct n; reflexivity.
Qed.

(** Reading [stored_minSegmentPx v] when [Number(v)] is [n]. *)
Lemma readAll_stored_minSegmentPx s2n o2n (v : value) (n : number) :
  Number s2n o2n v = Normal n →
  ∃ r, readAll s2n o2n (Normal (stored_minSegmentPx v)) = Normal r ∧
       cfg_prefs (r_cfg r) !! "minSegmentPx" = Some (num (clamp_number n 6 60)).
Proof.
  intros Hn. unfold readAll, readAll_try. cbv zeta.
  change (Normal (stored_minSegmentPx v) ≫= ?k) with (k (stored_minSegmentPx v)).
  cbv beta.
  change (own_props (object_or_empty (get (object_or_empty
            (read (stored_minSegmentPx v) KEYS_cfg)) "prefs")))
    with (<["minSegmentPx" := v]> (∅ : gmap string value)).
  change (cfg_prefs DEFAULTS) with DEFAULTS_prefs.
  set (p0 := <["minSegmentPx" := v]> ∅ ∪ DEFAULTS_prefs).
  assert (R0 : read p0 "minSegmentPx" = v)
    by (apply read_union_stored, lookup_insert_eq).
  assert (Rd : ∀ k, k ≠ "minSegmentPx" → read p0 k = read DEFAULTS_prefs k).
  { intros k Hk. apply read_union_missing. rewrite lookup_insert_ne by congruence.
    apply lookup_empty. }
  rewrite (clamp_field_converted _ _ "minSegmentPx" 6 60 p0 n) by (rewrite R0; exact Hn).
  change (Normal ?a ≫= ?k) with (k a). cbv beta.
  rewrite (clamp_field_converted _ _ "jitterPx" 0 20 _ (Fin 4))
    by (rewrite read_insert_ne, Rd by discriminate; reflexivity).
  change (Normal ?a ≫= ?k) with (k a). cbv beta.
  rewrite (clamp_field_converted _ _ "sampleMinPx" 0 10 _ (Fin 3))
    by (rewrite !read_insert_ne, Rd by discriminate; reflexivity).
  change (Normal ?a ≫= ?k) with (k a). cbv beta.
  rewrite (clamp_field_converted _ _ "movedPx" 1 20 _ (Fin 3))
    by (rewrite !read_insert_ne, Rd by discriminate; reflexivity).
  change (Normal ?a ≫= ?k) with (k a). cbv beta.
  rewrite (clamp_field_converted _ _ "lineWidth" 1 18 _ (Fin 3))
    by (rewrite !read_insert_ne, Rd by discriminate; reflexivity).
  change (Normal ?a ≫= ?k) with (k a). cbv beta.
  rewrite (clamp_field_converted _ _ "trailAlpha" (5 # 100) 1 _ (Fin (85 # 100)))
    by (rewrite !read_insert_ne, Rd by discriminate; reflexivity).
  change (Normal ?a ≫= ?k) with (k a). cbv beta.
  eexists. split; [reflexivity|]. cbn [r_cfg cfg_prefs].
  rewrite !lookup_insert_ne by discriminate. apply lookup_insert_eq.
Qed.
End StoredMinSegmentPx.

(** C9, as stated, fails: a stored [minSegmentPx] that is not a number ([null], or a
    string the host converts to NaN) is read as 6, the lower bound of the range, and
    not as the documented default 8. *)
Lemma C9_malformed_yields_lower_bound :
  (∀ s2n o2n,
     ∃ r, Content.readAll s2n o2n (JS.Normal (stored_minSegmentPx JS.VNull)) = JS.Normal r ∧
          Content.cfg_prefs (Content.r_cfg r) !! "minSegmentPx" = Some (Content.num 6)) ∧
  (∀ s2n o2n, s2n "abc" = JS.NaN →
     ∃ r, Content.readAll s2n o2n (JS.Normal (stored_minSegmentPx (JS.VStr "abc")))
            = JS.Normal r ∧
          Content.cfg_prefs (Content.r_cfg r) !! "minSegmentPx" = Some (Content.num 6)) ∧
  Content.DEFAULTS_prefs !! "minSegmentPx" = Some (Content.num 8) ∧
  Content.num 6 ≠ Content.num 8.
Proof.
  split; [|split; [|split]].
  - intros s2n o2n.
    exact (readAll_stored_minSegmentPx s2n o2n JS.VNull (JS.Fin 0) eq_refl).
  - intros s2n o2n Habc.
    apply (readAll_stored_minSegmentPx s2n o2n (JS.VStr "abc") JS.NaN).
    simpl. rewrite Habc. reflexivity.
  - reflexivity.
  - discriminate.
Qed.

(** ** The service worker's new-tab request *)

Section ServiceWorker.
Import Sw.
Variable URL : string → option url.

(** The message the content script sends for "new_tab". *)
Definition new_tab_request (href : string) : message :=
  {| m_type := "MG_EXEC_ACTION"; m_action := "new_tab"; m_href := href |}.

Definition newtab_page : string := "chrome://newtab/".

(** [href] parses as an absolute URL [u] whose scheme is http: or https:. *)
Definition http_url (href : string) (u : url) : Prop :=
  URL href = Some u ∧ (protocol u = "http:" ∨ protocol u = "https:").

Lemma safeUrl_cases (href : string) :
  (safeUrl URL href = "" ∧ (href = "" ∨ ∀ u, ¬ http_url href u))
  ∨ (∃ u, http_url href u ∧ href ≠ "" ∧ safeUrl URL href = serialized u).
Proof.
  unfold safeUrl, http_url.
  destruct (String.eqb href "") eqn:He.
  { left. split; [reflexivity|]. left. apply String.eqb_eq. exact He. }
  apply String.eqb_neq in He.
  destruct (URL href) as [u|] eqn:Hu.
  - destruct (String.eqb (protocol u) "http:") eqn:E1; simpl.
    { right. exists u. apply String.eqb_eq in E1. auto. }
    destruct (String.eqb (protocol u) "https:") eqn:E2.
    { right. exists u. apply String.eqb_eq in E2. auto. }
    left. split; [reflexivity|]. right.
    apply String.eqb_neq in E1, E2.
    intros u' [Hu' Hp]. inversion Hu'; subst. tauto.
  - left. split; [reflexivity|]. right. intros u' [Hu' _]. discriminate.
Qed.

Lemma onMessage_inline_new_tab (href : string) (tabId : option nat) :
  onMessage_inline URL (new_tab_request href) tabId
  = onMessage URL (new_tab_request href) tabId.
Proof. reflexivity. Qed.

(** C10: for a new_tab request the worker creates exactly one tab; its URL is the
    serialisation of the parsed [href] only when [href] parses as an absolute
    http: or https: URL, and the browser's new-tab page for every other input (an
    empty string, a string that does not parse, any other scheme).  Both service
    workers behave the same. *)
Theorem C10_new_tab_only_http (href : string) (tabId : option nat) :
  ∃ opened,
    onMessage URL (new_tab_request href) tabId
      = [TabsCreate opened true; SendResponse true] ∧
    onMessage_inline URL (new_tab_request href) tabId
      = [TabsCreate opened true; SendResponse true] ∧
    (opened = newtab_page ∨ ∃ u, http_url href u ∧ opened = serialized u) ∧
    ((∀ u, ¬ http_url href u) → opened = newtab_page) ∧
    (href = "" → opened = newtab_page) ∧
    (∀ u, http_url href u → href ≠ "" → serialized u ≠ "" → opened = serialized u).
Proof.
  rewrite onMessage_inline_new_tab.
  unfold onMessage, new_tab_request. cbn [m_type m_action m_href].
  change (String.eqb "MG_EXEC_ACTION" "MG_OPEN_OPTIONS") with false.
  change (String.eqb "MG_EXEC_ACTION" "MG_EXEC_ACTION") with true.
  cbv iota. unfold execActionFromMessage.
  change (String.eqb "new_tab" "new_tab") with true. cbv iota.
  unfold openNewTab.
  destruct (safeUrl_cases href) as [[Hs Hwhy] | (u & Hu & Hne & Hs)]; rewrite Hs.
  - exists newtab_page. split; [reflexivity|]. split; [reflexivity|].
    split; [left; reflexivity|]. split; [reflexivity|]. split; [reflexivity|].
    intros u' Hu' Hne _. destruct Hwhy as [->|Hno]; [congruence|].
    exfalso. exact (Hno u' Hu').
  - destruct (String.eqb (serialized u) "") eqn:Hser.
    + exists newtab_page. split; [reflexivity|]. split; [reflexivity|].
      split; [left; reflexivity|]. split; [reflexivity|]. split; [reflexivity|].
      intros u' [Hu' _] _ Hnz. destruct Hu as [Hu _]. rewrite Hu in Hu'.
      inversion Hu'; subst. apply String.eqb_eq in Hser. contradiction.
    + exists (serialized u). split; [reflexivity|]. split; [reflexivity|].
      split; [right; exists u; auto|].
      split; [intros Hno; exfalso; exact (Hno u Hu)|].
      split; [intros ->; congruence|].
      intros u' [Hu' _] _ _. destruct Hu as [Hu _]. rewrite Hu in Hu'.
      inversion Hu'; reflexivity.
Qed.
End ServiceWorker.

(** ** Host names: normal forms and rule matching *)

Section Hosts.
Import JS Content.

(** [trimStart] on the list of characters. *)
Fixpoint ltrim (l : list ascii) : list ascii :=
  match l with
  | [] => []
  | c :: l' => if Ascii.is_space c then ltrim l' else l
  end.

(** A list that [trimStart] leaves alone: empty, or starting with a character that
    is not white space. *)
Definition starts_solid (l : list ascii) : Prop :=
  match l with
  | [] => True
  | c :: _ => Ascii.is_space c = false
  end.

Lemma string_of_chars (s : string) : string_of_list_ascii (chars s) = s.
Proof. apply string_of_list_ascii_of_string. Qed.

Lemma chars_inj (s t : string) : chars s = chars t → s = t.
Proof. intros H. rewrite <- (string_of_chars s), <- (string_of_chars t), H. reflexivity. Qed.

Lemma chars_of_list (l : list ascii) : chars (string_of_list_ascii l) = l.
Proof. apply list_ascii_of_string_of_list_ascii. Qed.

Lemma chars_rev_app (s t : string) :
  chars (String.rev_app s t) = reverse (chars s) ++ chars t.
Proof.
  revert t. induction s as [|c s IH]; intros t; simpl; [reflexivity|].
  rewrite IH. simpl. rewrite reverse_cons, <- app_assoc. reflexivity.
Qed.

Lemma chars_rev (s : string) : chars (String.rev s) = reverse (chars s).
Proof. unfold String.rev. rewrite chars_rev_app. simpl. apply app_nil_r. Qed.

Lemma chars_map (f : ascii → ascii) (s : string) : chars (Str.map f s) = f <$> chars s.
Proof. induction s as [|c s IH]; simpl; [reflexivity|]. rewrite IH. reflexivity. Qed.

Lemma chars_trimStart (s : string) : chars (Str.trimStart s) = ltrim (chars s).
Proof.
  induction s as [|c s IH]; simpl; [reflexivity|].
  destruct (Ascii.is_space c); [exact IH | reflexivity].
Qed.

Lemma chars_trim (s : string) :
  chars (Str.trim s) = reverse (ltrim (reverse (ltrim (chars s)))).
Proof. unfold Str.trim. rewrite chars_rev, chars_trimStart, chars_rev, chars_trimStart. reflexivity. Qed.

Lemma chars_normalizeHost (host : string) :
  chars (normalizeHost host)
  = Str.lower_char <$> reverse (ltrim (reverse (ltrim (chars host)))).
Proof. unfold normalizeHost, Str.toLowerCase. rewrite chars_map, chars_trim. reflexivity. Qed.

Lemma ltrim_solid (l : list ascii) : starts_solid (ltrim l).
Proof.
  induction l as [|c l IH]; simpl; [exact I|].
  destruct (Ascii.is_space c) eqn:E; [exact IH | exact E].
Qed.

Lemma ltrim_fixed (l : list ascii) : starts_solid l → ltrim l = l.
Proof. destruct l as [|c l]; simpl; [reflexivity|]. intros ->. reflexivity. Qed.

Lemma ltrim_suffix (l : list ascii) : ∃ k, l = k ++ ltrim l.
Proof.
  induction l as [|c l (k & IH)]; simpl; [exists []; reflexivity|].
  destruct (Ascii.is_space c).
  - exists (c :: k). simpl. rewrite <- IH. reflexivity.
  - exists []. reflexivity.
Qed.

Lemma solid_prefix (a b : list ascii) : starts_solid (a ++ b) → starts_solid a.
Proof. destruct a as [|c a]; simpl; [intros _; exact I | auto]. Qed.

(** Trimming both ends, on lists, and its idempotence. *)
Definition ltrim_both (l : list ascii) : list ascii :=
  reverse (ltrim (reverse (ltrim l))).

Lemma ltrim_both_solid (l : list ascii) :
  starts_solid (ltrim_both l) ∧ starts_solid (reverse (ltrim_both l)).
Proof.
  unfold ltrim_both. rewrite reverse_involutive. split; [|apply ltrim_solid].
  destruct (ltrim_suffix (reverse (ltrim l))) as (k & Hk).
  apply (solid_prefix _ (reverse k)).
  rewrite <- reverse_app, <- Hk, reverse_involutive. apply ltrim_solid.
Qed.

Lemma ltrim_both_fixed (l : list ascii) :
  starts_solid l → starts_solid (reverse l) → ltrim_both l = l.
Proof.
  intros H1 H2. unfold ltrim_both.
  rewrite (ltrim_fixed l H1), (ltrim_fixed _ H2). apply reverse_involutive.
Qed.

Lemma is_space_lower (c : ascii) : Ascii.is_space (Str.lower_char c) = Ascii.is_space c.
Proof. destruct c as [[] [] [] [] [] [] [] []]; reflexivity. Qed.

Lemma lower_lower (c : ascii) : Str.lower_char (Str.lower_char c) = Str.lower_char c.
Proof. destruct c as [[] [] [] [] [] [] [] []]; reflexivity. Qed.

Lemma starts_solid_lower (l : list ascii) :
  starts_solid l → starts_solid (Str.lower_char <$> l).
Proof. destruct l as [|c l]; simpl; [auto|]. rewrite is_space_lower. auto. Qed.

(** A normal form is a fixed point of [normalizeHost]. *)
Lemma normalizeHost_fixed (host : string) : normalizeHost (normalizeHost host) = normalizeHost host.
Proof.
  apply chars_inj. rewrite (chars_normalizeHost (normalizeHost host)).
  rewrite (chars_normalizeHost host).
  fold (ltrim_both (chars host)).
  fold (ltrim_both (Str.lower_char <$> ltrim_both (chars host))).
  destruct (ltrim_both_solid (chars host)) as [H1 H2].
  rewrite ltrim_both_fixed.
  - rewrite <- list_fmap_compose. apply list_fmap_ext. intros _ c _. apply lower_lower.
  - apply starts_solid_lower. exact H1.
  - rewrite <- fmap_reverse. apply starts_solid_lower. exact H2.
Qed.

(** [String.prefix] and [endsWith] as equations between strings. *)
Lemma prefix_spec (a b : string) : String.prefix a b = true ↔ ∃ k, b = a +:+ k.
Proof.
  revert b. induction a as [|c a IH]; intros b.
  - destruct b; simpl; (split; [intros _; eexists; rewrite app_nil_l; reflexivity | reflexivity]).
  - destruct b as [|d b]; simpl.
    + split; [discriminate|]. intros (k & Hk). rewrite app_cons in Hk. discriminate.
    + destruct (ascii_dec c d) as [->|Hne].
      * rewrite IH. split; intros (k & Hk); exists k.
        -- rewrite app_cons, Hk. reflexivity.
        -- rewrite app_cons in Hk. congruence.
      * split; [discriminate|]. intros (k & Hk). rewrite app_cons in Hk. congruence.
Qed.

Lemma rev_app_distr (a b : string) : String.rev (a +:+ b) = String.rev b +:+ String.rev a.
Proof.
  apply chars_inj. rewrite chars_rev, !chars_app, !chars_rev. apply reverse_app.
Qed.

Lemma rev_rev (a : string) : String.rev (String.rev a) = a.
Proof. apply chars_inj. rewrite !chars_rev. apply reverse_involutive. Qed.

Lemma endsWith_spec (s suffix : string) :
  Str.endsWith s suffix = true ↔ ∃ pre, s = pre +:+ suffix.
Proof.
  unfold Str.endsWith. rewrite prefix_spec. split.
  - intros (k & Hk). exists (String.rev k).
    rewrite <- (rev_rev s), Hk, rev_app_distr, rev_rev. reflexivity.
  - intros (pre & ->). exists (String.rev pre). apply rev_app_distr.
Qed.

Lemma eqb_empty_false (s : string) : String.eqb s "" = false ↔ s ≠ "".
Proof. apply String.eqb_neq. Qed.

(** [hostMatchesRule] decided on the normal forms. *)
Lemma hostMatchesRule_spec (host rule : string) :
  hostMatchesRule host rule = true ↔
  normalizeHost host ≠ "" ∧ normalizeHost rule ≠ "" ∧
  (normalizeHost host = normalizeHost rule ∨
   ∃ sub, normalizeHost host = sub +:+ "." +:+ normalizeHost rule).
Proof.
  unfold hostMatchesRule.
  destruct (String.eqb (normalizeHost host) "") eqn:Eh.
  { apply String.eqb_eq in Eh. simpl. split; [discriminate|]. intros (H & _). contradiction. }
  destruct (String.eqb (normalizeHost rule) "") eqn:Er.
  { apply String.eqb_eq in Er. simpl. split; [discriminate|]. intros (_ & H & _). contradiction. }
  apply String.eqb_neq in Eh, Er. simpl.
  rewrite orb_true_iff, String.eqb_eq, endsWith_spec. tauto.
Qed.
End Hosts.

(** X1.  [normalizeHost] is idempotent, so a host or rule that was already
    normalised (as [domainFromUrl] does before the callers pass it on) is treated
    exactly like its raw spelling: [hostMatchesRule] and [getSitePolicy] give the
    same answer on a string and on its normal form. *)
Theorem X1_normalizeHost_idempotent (host rule : string) (policies : gmap string JS.value) :
  Content.normalizeHost (Content.normalizeHost host) = Content.normalizeHost host ∧
  Content.hostMatchesRule (Content.normalizeHost host) (Content.normalizeHost rule)
    = Content.hostMatchesRule host rule ∧
  Content.getSitePolicy policies (Content.normalizeHost host)
    = Content.getSitePolicy policies host.
Proof.
  split; [apply normalizeHost_fixed|]. split.
  - unfold Content.hostMatchesRule. rewrite !normalizeHost_fixed. reflexivity.
  - unfold Content.getSitePolicy. rewrite normalizeHost_fixed. reflexivity.
Qed.

(** X2.  A rule matches exactly the hosts whose normal form is the rule's normal
    form or ends with a dot followed by it: the rule's own domain and its
    subdomains.  An empty host or rule matches nothing, every non-empty rule matches
    itself, and a host that merely ends with the rule's letters, with no dot before
    them, is not matched. *)
Theorem X2_hostMatchesRule_label_boundary (host rule : string) :
  (Content.hostMatchesRule host rule = true ↔
   Content.normalizeHost host ≠ "" ∧ Content.normalizeHost rule ≠ "" ∧
   (Content.normalizeHost host = Content.normalizeHost rule ∨
    ∃ sub, Content.normalizeHost host = sub +:+ "." +:+ Content.normalizeHost rule)) ∧
  (Content.normalizeHost rule ≠ "" → Content.hostMatchesRule rule rule = true) ∧
  (∀ pre, Content.normalizeHost host = pre +:+ Content.normalizeHost rule →
          pre ≠ "" → Str.last_char pre ≠ Some "."%char →
          Content.hostMatchesRule host rule = false).
Proof.
  split; [apply hostMatchesRule_spec|]. split.
  - intros Hr. apply hostMatchesRule_spec. auto.
  - intros pre Hpre Hne Hlast.
    destruct (Content.hostMatchesRule host rule) eqn:E; [|reflexivity].
    apply hostMatchesRule_spec in E as (_ & _ & [E | (sub & E)]).
    + exfalso. apply Hne. apply chars_inj.
      apply (f_equal chars) in Hpre. rewrite E, chars_app in Hpre.
      apply (app_inv_tail (chars (Content.normalizeHost rule))).
      simpl. symmetry. exact Hpre.
    + exfalso. apply Hlast.
      assert (pre = sub +:+ ".") as ->.
      { apply chars_inj. apply (f_equal chars) in Hpre.
        rewrite E, !chars_app in Hpre. rewrite chars_app.
        apply (app_inv_tail (chars (Content.normalizeHost rule))).
        rewrite <- app_assoc. symmetry. exact Hpre. }
      rewrite last_char_chars, chars_app. simpl. apply last_snoc.
Qed.

(** ** Gesture sessions of scripts/content.js *)

Section Session.
Import JS Num Content.
#[local] Open Scope R_scope.

(** What the script executes along an input sequence: the effects of every
    [endGesture] call, in order. *)
Fixpoint executed (st : state) (inputs : list input) : list effect :=
  match inputs with
  | [] => []
  | i :: rest =>
      match i with
      | MouseUp e => snd (endGesture st e)
      | _ => []
      end ++ executed (step st i) rest
  end.

Lemma run_app (st : state) (a b : list input) : run st (a ++ b) = run (run st a) b.
Proof. unfold run. apply fold_left_app. Qed.

Lemma executed_app (st : state) (a b : list input) :
  executed st (a ++ b) = executed st a ++ executed (run st a) b.
Proof.
  revert st. induction a as [|i a IH]; intros st; [reflexivity|].
  simpl. rewrite IH, app_assoc. reflexivity.
Qed.

Lemma executed_moves (st : state) (ms : list mouse_event) :
  executed st (MouseMove <$> ms) = [].
Proof. revert st. induction ms as [|m ms IH]; intros st; simpl; [reflexivity | apply IH]. Qed.

(** A press that turns an idle state into a tracking one was accepted. *)
Lemma startGesture_accepted (st : state) (e : mouse_event) :
  tracking st = false → tracking (startGesture st e) = true →
  startGesture st e
  = with_session st true false [pagePointFromMouse e] [] (target e)
      (suppressContextOnce st) (_lastTokenIndex st).
Proof.
  intros Hidle. unfold startGesture.
  repeat match goal with |- context [if ?b then _ else _] => destruct b end;
    try (rewrite Hidle; discriminate); reflexivity.
Qed.

Lemma sample_head (st : state) (p a : point) :
  points st !! O = Some a → sample st p !! O = Some a.
Proof.
  intros H. unfold sample. destruct (last (points st)).
  - destruct (leR _ _); [|exact H]. apply lookup_app_l_Some. exact H.
  - apply lookup_app_l_Some. exact H.
Qed.

(** *** The idle state holds no gesture data *)

Definition session_clean (st : state) : Prop :=
  (tracking st = false →
   moved st = false ∧ points st = [] ∧ tokens st = [] ∧ startTarget st = None) ∧
  (tracking st = true → points st ≠ []).

Lemma tracking_cases (st : state) : tracking st = true ∨ tracking st = false.
Proof. destruct (tracking st); auto. Qed.

Lemma updateGesture_idle (st : state) (e : mouse_event) :
  tracking st = false → updateGesture st e = st.
Proof. intros Ht. unfold updateGesture. rewrite Ht. reflexivity. Qed.

Lemma endGesture_idle (st : state) (e : mouse_event) :
  tracking st = false → endGesture st e = (st, []).
Proof. intros Ht. unfold endGesture. rewrite Ht. reflexivity. Qed.

Lemma step_session_clean (st : state) (i : input) :
  session_clean st → session_clean (step st i).
Proof.
  intros H. destruct i as [e|e|e| |c]; simpl.
  - unfold startGesture.
    repeat match goal with |- context [if ?b then _ else _] => destruct b end;
      try exact H.
    split; simpl; [discriminate | intros _; discriminate].
  - destruct (tracking_cases st) as [Ht|Ht]; [|rewrite updateGesture_idle; assumption].
    destruct (closestEditableOrEditor (target e)) eqn:He.
    { unfold updateGesture. rewrite Ht, He.
      split; simpl; [intros _; repeat split | discriminate]. }
    rewrite (updateGesture_tracked st e Ht He). cbv zeta.
    destruct (sample_length st (pagePointFromMouse e)) as [_ Hpos].
    assert (sample st (pagePointFromMouse e) ≠ [])
      by (intros E; rewrite E in Hpos; simpl in Hpos; lia).
    destruct (leR _ (dist _ _)); [destruct (negb (String.eqb _ ""))|];
      (split; simpl; [discriminate | intros _; assumption]).
  - destruct (tracking_cases st) as [Ht|Ht]; [|rewrite endGesture_idle; assumption].
    unfold endGesture. rewrite Ht. simpl.
    destruct (moved st); simpl; (split; [intros _; repeat split | discriminate]).
  - unfold onContextMenu. destruct (suppressContextOnce st); exact H.
  - exact H.
Qed.

Lemma run_session_clean (st : state) (inputs : list input) :
  session_clean st → session_clean (run st inputs).
Proof.
  revert st. induction inputs as [|i inputs IH]; intros st H; [exact H|].
  apply IH. apply step_session_clean. exact H.
Qed.

(** *** A press and release without a drag *)

(** What holds between an accepted press at [p0] and the release, while the pointer
    stays closer than [movedPx] to [p0]. *)
Definition undragged (c : settings) (p0 : point) (st : state) : Prop :=
  conf st = c ∧
  ((tracking st = true ∧ moved st = false ∧ points st !! O = Some p0) ∨
   (tracking st = false ∧ suppressContextOnce st = false)).

Lemma updateGesture_undragged (c : settings) (p0 : point) (st : state) (m : mouse_event) :
  dist p0 (pagePointFromMouse m) < movedPx (prefs c) →
  undragged c p0 st → undragged c p0 (updateGesture st m).
Proof.
  intros Hd [Hc [(Ht & Hm & H0) | (Ht & Hs)]];
    [|unfold updateGesture; rewrite Ht; split; [exact Hc | right; auto]].
  destruct (closestEditableOrEditor (target m)) eqn:He.
  { unfold updateGesture. rewrite Ht, He. split; [exact Hc | right; auto]. }
  rewrite (updateGesture_tracked st m Ht He). cbv zeta.
  rewrite Hm, (sample_head st _ p0 H0), Hc. cbn [default from_option Datatypes.id].
  rewrite (leR_false _ _ Hd).
  destruct (leR _ (dist _ _)); [destruct (negb (String.eqb _ ""))|];
    (split; [exact Hc | left; cbn [tracking moved points with_session];
                        repeat split; apply sample_head; exact H0]).
Qed.

Lemma moves_undragged (c : settings) (p0 : point) (ms : list mouse_event) (st : state) :
  (∀ m, m ∈ ms → dist p0 (pagePointFromMouse m) < movedPx (prefs c)) →
  undragged c p0 st → undragged c p0 (run st (MouseMove <$> ms)).
Proof.
  revert st. induction ms as [|m ms IH]; intros st Hms H; [exact H|].
  simpl. apply IH.
  - intros m' Hm'. apply Hms. right. exact Hm'.
  - apply updateGesture_undragged; [apply Hms; left | exact H].
Qed.

(** *** Pages on which no press is accepted *)

Definition no_config_change (inputs : list input) : Prop :=
  Forall (fun i => match i with ConfigChanged _ => False | _ => True end) inputs.

(** No press of [inputs] passes the guards of [startGesture] under [c] on [host]:
    the page is not allowed, or it asks for Alt and no press holds it. *)
Definition never_accepted (c : settings) (host : string) (inputs : list input) : Prop :=
  isAllowedOnThisSite (initial c host) = false ∨
  (shouldRequireAltHere (initial c host) = true ∧
   ∀ e, MouseDown e ∈ inputs → altKey e = false).

Lemma guards_of_conf (st st' : state) :
  conf st = conf st' → location_host st = location_host st' →
  isAllowedOnThisSite st = isAllowedOnThisSite st' ∧
  shouldRequireAltHere st = shouldRequireAltHere st'.
Proof.
  intros Hc Hh. unfold isAllowedOnThisSite, shouldRequireAltHere.
  rewrite Hc, Hh. split; reflexivity.
Qed.

Definition dormant (c : settings) (host : string) (st : state) : Prop :=
  conf st = c ∧ location_host st = host ∧ tracking st = false.

Lemma step_dormant (c : settings) (host : string) (st : state) (i : input) :
  never_accepted c host [i] → no_config_change [i] →
  dormant c host st →
  dormant c host (step st i) ∧ executed st [i] = [].
Proof.
  intros Hnever Hcfg (Hc & Hh & Ht).
  destruct (guards_of_conf st (initial c host) Hc Hh) as [Ga Gr].
  destruct i as [e|e|e| |c']; simpl.
  - split; [|reflexivity]. unfold startGesture.
    destruct (negb (Z.eqb (button e) 2)); [repeat split; assumption|].
    destruct Hnever as [Hno | (Halt & Hpress)].
    + destruct (shouldRequireAltHere st && negb (altKey e)); [repeat split; assumption|].
      destruct (closestEditableOrEditor (target e)); [repeat split; assumption|].
      rewrite Ga, Hno. repeat split; assumption.
    + rewrite Gr, Halt, (Hpress e) by (left). repeat split; assumption.
  - split; [|reflexivity]. unfold updateGesture. rewrite Ht. repeat split; assumption.
  - unfold endGesture. rewrite Ht. simpl. repeat split; assumption.
  - split; [|reflexivity]. unfold onContextMenu.
    destruct (suppressContextOnce st); repeat split; assumption.
  - inversion Hcfg as [|? ? F _]. destruct F.
Qed.

Lemma run_dormant (c : settings) (host : string) (inputs : list input) (st : state) :
  never_accepted c host inputs → no_config_change inputs →
  dormant c host st →
  dormant c host (run st inputs) ∧ executed st inputs = [].
Proof.
  revert st. induction inputs as [|i inputs IH]; intros st Hnever Hcfg Hd;
    [split; [exact Hd | reflexivity]|].
  inversion Hcfg as [|? ? Hi Hrest]; subst.
  assert (Hnever1 : never_accepted c host [i]).
  { destruct Hnever as [Hno | (Halt & Hpress)]; [left; exact Hno | right].
    split; [exact Halt|]. intros e He. apply Hpress.
    apply list_elem_of_singleton in He. rewrite He. left. }
  assert (Hnever2 : never_accepted c host inputs).
  { destruct Hnever as [Hno | (Halt & Hpress)]; [left; exact Hno | right].
    split; [exact Halt|]. intros e He. apply Hpress. right. exact He. }
  destruct (step_dormant c host st i Hnever1 (Forall_cons_2 _ _ _ Hi (Forall_nil_2 _)) Hd)
    as [Hd' He'].
  destruct (IH (step st i) Hnever2 Hrest Hd') as [Hd'' He''].
  split; [exact Hd''|].
  change (executed st (i :: inputs)) with (executed st ([i] ++ inputs)).
  rewrite executed_app, He'. exact He''.
Qed.

(** *** A straight drag to the right *)

(** The moves [ms] stay on the horizontal line [y], never go back left of [x] or of
    one another, and never pass over an editable element. *)
Fixpoint rightward (y x : R) (ms : list mouse_event) : Prop :=
  match ms with
  | [] => True
  | m :: ms' =>
      closestEditableOrEditor (target m) = false ∧ clientY m = y ∧ x <= clientX m ∧
      rightward y (clientX m) ms'
  end.

Lemma rightward_app (y x : R) (ms : list mouse_event) (m : mouse_event) :
  rightward y x (ms ++ [m]) →
  ∃ x', x <= x' ∧ x' <= clientX m ∧ rightward y x ms ∧
        closestEditableOrEditor (target m) = false ∧ clientY m = y ∧
        (∀ m', m' ∈ ms → clientX m' <= x') ∧ (ms = [] → x' = x) ∧
        (∀ m', last ms = Some m' → x' = clientX m').
Proof.
  revert x. induction ms as [|m0 ms IH]; intros x; simpl.
  - intros (He & Hy & Hx & _). exists x. repeat split; try assumption; try lra.
    + intros m' Hm'. inversion Hm'.
    + intros m' Hm'. discriminate.
  - intros (He & Hy & Hx & Hrest).
    destruct (IH _ Hrest) as (x' & H1 & H2 & H3 & H4 & H5 & H6 & H7 & H8).
    exists x'. repeat split; try assumption; try lra.
    + intros m' Hm'. inversion Hm' as [|? ? ? Hm'']; subst; [lra | auto].
    + discriminate.
    + intros m' Hm'. destruct ms as [|m1 ms'].
      * injection Hm' as <-. apply H7. reflexivity.
      * apply H8. exact Hm'.
Qed.

(** Displacements that point right along a horizontal line classify as R or as
    nothing, and as R once they reach the jitter threshold. *)
Lemma angle_deg_origin : angle_deg 0 0 = 0.
Proof.
  unfold angle_deg, atan2.
  destruct (Rlt_dec 0 0); [lra|]. field. pose proof PI_RGT_0. lra.
Qed.

Lemma dir8_rightward (dx dy jitter : R) :
  0 <= dx → dy = 0 →
  (dir8 dx dy jitter = "" ∨ dir8 dx dy jitter = "R") ∧
  (jitter <= dx → dir8 dx dy jitter = "R").
Proof.
  intros Hdx ->.
  assert (Hang : angle_deg dx 0 = 0).
  { destruct (Req_dec dx 0) as [->|Hne]; [apply angle_deg_origin|].
    apply angle_deg_right. lra. }
  destruct (ltR (Rabs dx) jitter && ltR (Rabs 0) jitter) eqn:Hj.
  - split; [left; unfold dir8; rewrite Hj; reflexivity|].
    intros Hle. apply andb_true_iff in Hj as [Hj _]. apply ltR_iff in Hj.
    rewrite Rabs_pos_eq in Hj by exact Hdx. lra.
  - destruct (band_dir8 dx 0 jitter Hj) as [Hband _].
    rewrite Hang, Rabs_R0 in Hband.
    specialize (Hband ltac:(left; lra)).
    rewrite (leR_true 0 dx Hdx) in Hband. auto.
Qed.

(** What holds during a rightward drag that started at [p0], once the pointer has
    reached the abscissa [x]. *)
Definition dragging_right (c : settings) (e0 : mouse_event) (x : R) (st : state) : Prop :=
  tracking st = true ∧ conf st = c ∧ startTarget st = target e0 ∧
  points st !! O = Some (pagePointFromMouse e0) ∧
  (∀ a, a ∈ points st → py a = clientY e0 ∧ px a <= x) ∧
  (tokens st = [] ∨ tokens st = ["R"]).

Lemma dragging_right_mono (c : settings) (e0 : mouse_event) (x x' : R) (st : state) :
  x <= x' → dragging_right c e0 x st → dragging_right c e0 x' st.
Proof.
  intros Hx (H1 & H2 & H3 & H4 & H5 & H6). repeat split; try assumption.
  - apply H5. assumption.
  - destruct (H5 a H) as [_ Hle]. lra.
Qed.

Lemma updateGesture_dragging_right (c : settings) (e0 m : mouse_event) (x : R)
    (st : state) :
  closestEditableOrEditor (target m) = false → clientY m = clientY e0 → x <= clientX m →
  dragging_right c e0 x st →
  dragging_right c e0 (clientX m) (updateGesture st m) ∧
  (tokens st = ["R"] → tokens (updateGesture st m) = ["R"]) ∧
  (clientX e0 <= clientX m →
   minSegmentPx (prefs c) <= clientX m - clientX e0 →
   jitterPx (prefs c) <= clientX m - clientX e0 →
   tokens (updateGesture st m) = ["R"]) ∧
  (clientX e0 <= clientX m →
   movedPx (prefs c) <= clientX m - clientX e0 → moved (updateGesture st m) = true).
Proof.
  intros He Hy Hx (Ht & Hc & Htgt & H0 & Hpts & Htok).
  rewrite (updateGesture_tracked st m Ht He). cbv zeta.
  set (p := pagePointFromMouse m).
  assert (Hp : py p = clientY e0 ∧ px p <= clientX m) by (simpl; split; [exact Hy | lra]).
  assert (Hsample : ∀ a, a ∈ sample st p → py a = clientY e0 ∧ px a <= clientX m).
  { intros a Ha. apply sample_subset in Ha as [Ha| ->]; [|exact Hp].
    destruct (Hpts a Ha). split; [assumption | lra]. }
  assert (Hanchor : py (anchor_in st (sample st p) p) = clientY e0 ∧
                    px (anchor_in st (sample st p) p) <= clientX m).
  { destruct (anchor_in_elem st (sample st p) p) as [Ha | ->]; [auto | exact Hp]. }
  assert (Hhead : sample st p !! O = Some (pagePointFromMouse e0))
    by (apply sample_head; exact H0).
  set (a := anchor_in st (sample st p) p) in *.
  destruct Hanchor as [Hay Hax].
  assert (Hdx : 0 <= px p - px a) by (simpl; lra).
  assert (Hdy : py p - py a = 0) by (rewrite Hay; simpl; lra).
  destruct (dir8_rightward (px p - px a) (py p - py a) (jitterPx (prefs (conf st))) Hdx Hdy)
    as [Hd Hd'].
  assert (Hfirst : clientX e0 <= clientX m →
                   dist (pagePointFromMouse e0) p = clientX m - clientX e0).
  { intros Hle. unfold p, pagePointFromMouse. rewrite Hy. apply dist_x_axis. exact Hle. }
  assert (Hempty : tokens st = [] → a = pagePointFromMouse e0).
  { intros E. unfold a, anchor_in, anchorIndex. rewrite E. simpl. rewrite Hhead. reflexivity. }
  rewrite Hc in *.
  repeat split.
  - destruct (leR (minSegmentPx (prefs c)) _); [destruct (negb (String.eqb _ ""))|]; reflexivity.
  - destruct (leR (minSegmentPx (prefs c)) _); [destruct (negb (String.eqb _ ""))|]; exact Hc.
  - destruct (leR (minSegmentPx (prefs c)) _); [destruct (negb (String.eqb _ ""))|]; exact Htgt.
  - destruct (leR (minSegmentPx (prefs c)) _); [destruct (negb (String.eqb _ ""))|]; exact Hhead.
  - destruct (leR (minSegmentPx (prefs c)) _); [destruct (negb (String.eqb _ ""))|];
      cbn [points with_session] in H; apply Hsample; exact H.
  - destruct (leR (minSegmentPx (prefs c)) _); [destruct (negb (String.eqb _ ""))|];
      cbn [points with_session] in H; apply Hsample; exact H.
  - destruct (leR (minSegmentPx (prefs c)) _); [|exact Htok].
    destruct Hd as [-> | ->]; simpl; [exact Htok|].
    destruct Htok as [-> | ->]; simpl; auto.
  - intros E. destruct (leR (minSegmentPx (prefs c)) _); [|exact E].
    destruct Hd as [-> | ->]; simpl; [exact E|]. rewrite E. reflexivity.
  - intros Hle Hseg Hjit.
    destruct Htok as [E | E].
    + rewrite (Hempty E) in *. rewrite (Hfirst Hle), (leR_true _ _ Hseg).
      assert (Hdx' : px p - px (pagePointFromMouse e0) = clientX m - clientX e0)
        by reflexivity.
      rewrite Hd' by (rewrite Hdx'; exact Hjit).
      rewrite E. reflexivity.
    + destruct (leR (minSegmentPx (prefs c)) _); [|exact E].
      destruct Hd as [-> | ->]; simpl; [exact E|]. rewrite E. reflexivity.
  - intros Hle Hmov.
    assert (Hm : (if moved st then true
                  else leR (movedPx (prefs c)) (dist (default p (sample st p !! O)) p)) = true).
    { destruct (moved st); [reflexivity|]. rewrite Hhead. cbn [default from_option Datatypes.id].
      rewrite (Hfirst Hle). apply leR_true. exact Hmov. }
    destruct (leR (minSegmentPx (prefs c)) _); [destruct (negb (String.eqb _ ""))|];
      cbn [moved with_session]; exact Hm.
Qed.

Lemma moves_dragging_right (c : settings) (e0 : mouse_event) (ms : list mouse_event)
    (x : R) (st : state) :
  rightward (clientY e0) x ms → dragging_right c e0 x st →
  ∃ x', x <= x' ∧ (∀ m, last ms = Some m → x' = clientX m) ∧ (ms = [] → x' = x) ∧
        dragging_right c e0 x' (run st (MouseMove <$> ms)).
Proof.
  revert x st. induction ms as [|m ms IH]; intros x st Hr Hd.
  - exists x. split; [lra|]. split; [discriminate|]. split; [reflexivity | exact Hd].
  - destruct Hr as (He & Hy & Hx & Hrest).
    destruct (updateGesture_dragging_right c e0 m x st He Hy Hx Hd) as [Hd' _].
    destruct (IH _ _ Hrest Hd') as (x' & H1 & H2 & H3 & H4).
    exists x'. split; [lra|]. split; [|split; [discriminate | exact H4]].
    intros m' Hm'. destruct ms as [|m1 ms'].
    + injection Hm' as <-. apply H3. reflexivity.
    + apply H2. exact Hm'.
Qed.
End Session.

(** X3.  Between gestures the script holds no gesture data: in every state reachable
    from the initial one, under any mouse, context-menu and configuration events, a
    state that is not tracking has no trajectory points, no tokens, no start target
    and a cleared moved flag; a state that is tracking has at least one trajectory
    point. *)
Theorem X3_idle_session_is_clean (c : Content.settings) (host : string)
    (inputs : list Content.input) :
  (Content.tracking (Content.run (Content.initial c host) inputs) = false →
   Content.moved (Content.run (Content.initial c host) inputs) = false ∧
   Content.points (Content.run (Content.initial c host) inputs) = [] ∧
   Content.tokens (Content.run (Content.initial c host) inputs) = [] ∧
   Content.startTarget (Content.run (Content.initial c host) inputs) = None) ∧
  (Content.tracking (Content.run (Content.initial c host) inputs) = true →
   Content.points (Content.run (Content.initial c host) inputs) ≠ []).
Proof.
  apply run_session_clean. split; simpl; [intros _; repeat split | discriminate].
Qed.

(** X4.  A right click without a drag stays a right click: when a press is accepted
    in an idle state and every move before the release stays closer than movedPx to
    the press point, nothing is executed along the whole sequence, and after the
    release the script is idle and does not suppress the context menu. *)
Theorem X4_click_without_drag (st : Content.state) (e0 : Content.mouse_event)
    (ms : list Content.mouse_event) (e1 : Content.mouse_event) :
  Content.tracking st = false →
  Content.tracking (Content.startGesture st e0) = true →
  (∀ m, m ∈ ms →
        (Num.dist (Content.pagePointFromMouse e0) (Content.pagePointFromMouse m)
         < Content.movedPx (Content.prefs (Content.conf st)))%R) →
  executed st (Content.MouseDown e0 :: (Content.MouseMove <$> ms) ++ [Content.MouseUp e1]) = [] ∧
  Content.tracking
    (Content.run st (Content.MouseDown e0 :: (Content.MouseMove <$> ms) ++ [Content.MouseUp e1]))
    = false ∧
  Content.suppressContextOnce
    (Content.run st (Content.MouseDown e0 :: (Content.MouseMove <$> ms) ++ [Content.MouseUp e1]))
    = false.
Proof.
  intros Hidle Hacc Hms.
  pose proof (startGesture_accepted st e0 Hidle Hacc) as Hst.
  assert (Hu : undragged (Content.conf st) (Content.pagePointFromMouse e0)
                 (Content.run (Content.startGesture st e0) (Content.MouseMove <$> ms))).
  { apply moves_undragged; [exact Hms|]. rewrite Hst.
    split; [reflexivity | left; repeat split]. }
  change (Content.run st (Content.MouseDown e0 :: (Content.MouseMove <$> ms) ++ [Content.MouseUp e1]))
    with (Content.run (Content.startGesture st e0)
            ((Content.MouseMove <$> ms) ++ [Content.MouseUp e1])).
  change (executed st (Content.MouseDown e0 :: (Content.MouseMove <$> ms) ++ [Content.MouseUp e1]))
    with (executed (Content.startGesture st e0)
            ((Content.MouseMove <$> ms) ++ [Content.MouseUp e1])).
  rewrite run_app, executed_app, executed_moves.
  set (s := Content.run (Content.startGesture st e0) (Content.MouseMove <$> ms)) in *.
  cbn [executed Content.run fold_left Content.step app].
  destruct Hu as [_ [(Ht & Hm & _) | (Ht & Hs)]].
  - unfold Content.endGesture. rewrite Ht, Hm. simpl. repeat split.
  - rewrite (endGesture_idle s e1 Ht). simpl. repeat split; assumption.
Qed.

Lemma X4_click_without_drag_witness :
  executed (Content.initial (settings_with default_tuning) "x.test")
    (Content.MouseDown (mouse_at 0 0)
       :: (Content.MouseMove <$> [mouse_at 1 0]) ++ [Content.MouseUp (mouse_at 1 0)]) = [] ∧
  Content.tracking
    (Content.run (Content.initial (settings_with default_tuning) "x.test")
       (Content.MouseDown (mouse_at 0 0)
          :: (Content.MouseMove <$> [mouse_at 1 0]) ++ [Content.MouseUp (mouse_at 1 0)]))
    = false ∧
  Content.suppressContextOnce
    (Content.run (Content.initial (settings_with default_tuning) "x.test")
       (Content.MouseDown (mouse_at 0 0)
          :: (Content.MouseMove <$> [mouse_at 1 0]) ++ [Content.MouseUp (mouse_at 1 0)]))
    = false.
Proof.
  apply X4_click_without_drag; [reflexivity | reflexivity |].
  intros m Hm. apply list_elem_of_singleton in Hm. rewrite Hm.
  change (Num.dist (Num.Point 0 0) (Num.Point 1 0) < 3)%R.
  rewrite dist_x_axis; lra.
Defined.

(** X5.  Where no press passes the guards of startGesture, the script stays inert:
    if the page is not allowed (extension disabled, site policy "disabled",
    blacklisted, or missing from the whitelist), or the site policy asks for Alt and
    no press holds Alt, then, as long as the configuration is not reloaded, no
    sequence of mouse and context-menu events starts tracking or executes an
    action. *)
Theorem X5_no_press_accepted (c : Content.settings) (host : string)
    (inputs : list Content.input) :
  no_config_change inputs → never_accepted c host inputs →
  Content.tracking (Content.run (Content.initial c host) inputs) = false ∧
  executed (Content.initial c host) inputs = [].
Proof.
  intros Hcfg Hnever.
  destruct (run_dormant c host inputs (Content.initial c host) Hnever Hcfg) as [(_ & _ & Ht) He].
  - repeat split.
  - split; assumption.
Qed.

Lemma X5_no_press_accepted_witness :
  Content.tracking
    (Content.run (Content.initial (settings_with default_tuning) "gist.github.com")
       [Content.MouseDown (mouse_at 0 0); Content.MouseMove (mouse_at 50 0);
        Content.MouseUp (mouse_at 50 0)]) = false ∧
  executed (Content.initial (settings_with default_tuning) "gist.github.com")
    [Content.MouseDown (mouse_at 0 0); Content.MouseMove (mouse_at 50 0);
     Content.MouseUp (mouse_at 50 0)] = [].
Proof.
  apply X5_no_press_accepted.
  - repeat constructor.
  - right. split; [reflexivity|]. intros e He.
    apply elem_of_cons in He as [He|He]; [injection He as ->; reflexivity|].
    apply elem_of_cons in He as [He|He]; [discriminate|].
    apply list_elem_of_singleton in He. discriminate.
Defined.

(** X6.  A straight drag to the right is read as R: after an accepted press, for
    moves that stay on the press point's horizontal line, never step back to the
    left and never pass over an editable element, if the last move lies at least
    minSegmentPx, jitterPx and movedPx to the right of the press point, then the
    gesture is still tracked, counts as moved, and its token list is exactly R; when
    the press was not on a link and R is mapped to "forward", releasing executes
    history.forward() and nothing else. *)
Theorem X6_straight_drag_right (st : Content.state) (e0 : Content.mouse_event)
    (ms : list Content.mouse_event) (m e1 : Content.mouse_event) :
  Content.tracking st = false →
  Content.tracking (Content.startGesture st e0) = true →
  rightward (Content.clientY e0) (Content.clientX e0) (ms ++ [m]) →
  (Content.minSegmentPx (Content.prefs (Content.conf st))
     <= Content.clientX m - Content.clientX e0)%R →
  (Content.jitterPx (Content.prefs (Content.conf st))
     <= Content.clientX m - Content.clientX e0)%R →
  (Content.movedPx (Content.prefs (Content.conf st))
     <= Content.clientX m - Content.clientX e0)%R →
  Content.tracking
    (Content.run st (Content.MouseDown e0 :: (Content.MouseMove <$> ms ++ [m]))) = true ∧
  Content.moved
    (Content.run st (Content.MouseDown e0 :: (Content.MouseMove <$> ms ++ [m]))) = true ∧
  Content.tokens
    (Content.run st (Content.MouseDown e0 :: (Content.MouseMove <$> ms ++ [m]))) = ["R"] ∧
  (Content.getLinkHref (Content.target e0) = "" →
   JS.read (Content.gestureMap (Content.conf st)) "R" = JS.VStr "forward" →
   snd (Content.endGesture
          (Content.run st (Content.MouseDown e0 :: (Content.MouseMove <$> ms ++ [m]))) e1)
   = [Content.HistoryForward]).
Proof.
  intros Hidle Hacc Hr Hseg Hjit Hmov.
  pose proof (startGesture_accepted st e0 Hidle Hacc) as Hst.
  destruct (rightward_app _ _ _ _ Hr) as (x' & Hx0 & Hxm & Hrms & He & Hy & _ & Hnil & Hlast).
  change (Content.run st (Content.MouseDown e0 :: (Content.MouseMove <$> ms ++ [m])))
    with (Content.run (Content.startGesture st e0) (Content.MouseMove <$> ms ++ [m])).
  rewrite fmap_app, run_app.
  assert (Hd0 : dragging_right (Content.conf st) e0 (Content.clientX e0)
                  (Content.startGesture st e0)).
  { rewrite Hst. repeat split; cbn [Content.points Content.with_session] in *.
    - apply list_elem_of_singleton in H. rewrite H. reflexivity.
    - apply list_elem_of_singleton in H. rewrite H. simpl. lra.
    - left. reflexivity. }
  destruct (moves_dragging_right _ e0 ms _ _ Hrms Hd0) as (x1 & Hx1 & Hl1 & Hn1 & Hd1).
  set (s := Content.run (Content.startGesture st e0) (Content.MouseMove <$> ms)) in *.
  assert (Hx1m : (x1 <= Content.clientX m)%R).
  { destruct ms as [|m0 ms'] eqn:Ems.
    - rewrite (Hn1 eq_refl). rewrite <- (Hnil eq_refl). exact Hxm.
    - destruct (last (m0 :: ms')) as [ml|] eqn:El.
      + rewrite (Hl1 ml eq_refl). rewrite <- (Hlast ml eq_refl). exact Hxm.
      + apply last_None in El. discriminate. }
  destruct (updateGesture_dragging_right _ e0 m x1 s He Hy Hx1m Hd1)
    as (Hd2 & _ & Htok & Hmoved).
  assert (Hle : (Content.clientX e0 <= Content.clientX m)%R) by lra.
  cbn [Content.run fold_left fmap list_fmap Content.step].
  destruct Hd2 as (Ht2 & Hc2 & Htgt2 & _ & _ & _).
  specialize (Htok Hle Hseg Hjit). specialize (Hmoved Hle Hmov).
  split; [exact Ht2|]. split; [exact Hmoved|]. split; [exact Htok|].
  intros Hlink Hmap.
  unfold Content.endGesture. rewrite Ht2, Hmoved. cbn [negb snd].
  unfold Content.resolveAction. rewrite Htok.
  change (Content.pattern_of ["R"]) with "R". rewrite Hc2, Hmap, Htgt2, Hlink.
  cbn. destruct (bool_decide _); reflexivity.
Qed.

Lemma X6_straight_drag_right_witness :
  Content.tokens
    (Content.run (Content.initial (settings_with default_tuning) "x.test")
       (Content.MouseDown (mouse_at 0 0) :: (Content.MouseMove <$> [] ++ [mouse_at 20 0])))
    = ["R"] ∧
  snd (Content.endGesture
         (Content.run (Content.initial (settings_with default_tuning) "x.test")
            (Content.MouseDown (mouse_at 0 0) :: (Content.MouseMove <$> [] ++ [mouse_at 20 0])))
         (mouse_at 20 0))
  = [Content.HistoryForward].
Proof.
  assert (H := X6_straight_drag_right
                 (Content.initial (settings_with default_tuning) "x.test")
                 (mouse_at 0 0) [] (mouse_at 20 0) (mouse_at 20 0)).
  destruct H as (_ & _ & Htok & Hfwd).
  - reflexivity.
  - reflexivity.
  - simpl. repeat split; lra.
  - simpl. lra.
  - simpl. lra.
  - simpl. lra.
  - split; [exact Htok|]. apply Hfwd; reflexivity.
Defined.

(** ** The batch recogniser and the Alt override of its content script *)

Section BatchFacts.
Import JS Num.
#[local] Open Scope R_scope.

(** The input sequence with the keyboard events left out. *)
Fixpoint without_keys (inputs : list Batch.input) : list Batch.input :=
  match inputs with
  | [] => []
  | Batch.AltKey _ :: rest => without_keys rest
  | i :: rest => i :: without_keys rest
  end.

(** The actions [endGesture] resolves along an input sequence, one per release. *)
Fixpoint released (st : Batch.gestureState) (inputs : list Batch.input) : list value :=
  match inputs with
  | [] => []
  | i :: rest =>
      match i with
      | Batch.MouseUp e => [snd (Batch.endGesture st e)]
      | _ => []
      end ++ released (Batch.step st i) rest
  end.

(** Two states that agree on everything but [altOverrideActive]. *)
Definition same_gesture (a b : Batch.gestureState) : Prop :=
  Batch.conf a = Batch.conf b ∧ Batch.location_host a = Batch.location_host b ∧
  Batch.tracking a = Batch.tracking b ∧ Batch.moved a = Batch.moved b ∧
  Batch.points a = Batch.points b ∧ Batch.pattern a = Batch.pattern b ∧
  Batch.startTarget a = Batch.startTarget b ∧
  Batch.suppressContextOnce a = Batch.suppressContextOnce b ∧
  Batch.altOverride a = Batch.altOverride b.

Lemma same_gesture_refl (a : Batch.gestureState) : same_gesture a a.
Proof. repeat split. Qed.

Ltac same_fields H :=
  destruct H as (? & ? & ? & ? & ? & ? & ? & ? & ?);
  repeat match goal with s : Batch.gestureState |- _ => destruct s end;
  simpl in *; subst.

Lemma key_same_gesture (a b : Batch.gestureState) (down : bool) :
  same_gesture a b → same_gesture (Batch.step a (Batch.AltKey down)) b.
Proof. intros H. same_fields H. repeat split. Qed.

Lemma mouse_same_gesture (a b : Batch.gestureState) (i : Batch.input) :
  (∀ down, i ≠ Batch.AltKey down) →
  same_gesture a b →
  same_gesture (Batch.step a i) (Batch.step b i) ∧ released a [i] = released b [i].
Proof.
  intros Hi H. same_fields H. destruct i as [e|e|e|down]; simpl.
  - split; [|reflexivity]. unfold Batch.startGesture.
    destruct (negb (Z.eqb (Content.button e) 2)); [repeat split|].
    unfold Batch.shouldIgnoreGestureStart, Batch.isAllowedOnThisSite, Batch.with_session.
    simpl.
    repeat match goal with |- context [if ?b then _ else _] => destruct b end;
      repeat split.
  - split; [|reflexivity]. unfold Batch.updateGesture, Batch.cancelGesture, Batch.with_session.
    simpl.
    repeat match goal with |- context [if ?b then _ else _] => destruct b end;
      repeat split.
  - unfold Batch.endGesture, Batch.cancelGesture, Batch.resolveAction, Batch.with_session.
    simpl.
    repeat match goal with |- context [if ?b then _ else _] => destruct b end;
      repeat split.
  - exfalso. apply (Hi down). reflexivity.
Qed.

Lemma run_without_keys (inputs : list Batch.input) (a b : Batch.gestureState) :
  same_gesture a b →
  same_gesture (Batch.run a inputs) (Batch.run b (without_keys inputs)) ∧
  released a inputs = released b (without_keys inputs).
Proof.
  revert a b. induction inputs as [|i inputs IH]; intros a b H; [split; [exact H | reflexivity]|].
  destruct i as [e|e|e|down].
  - destruct (mouse_same_gesture a b (Batch.MouseDown e) ltac:(discriminate) H) as [H1 H2].
    destruct (IH _ _ H1) as [H3 H4]. split; [exact H3|]. simpl. exact H4.
  - destruct (mouse_same_gesture a b (Batch.MouseMove e) ltac:(discriminate) H) as [H1 H2].
    destruct (IH _ _ H1) as [H3 H4]. split; [exact H3|]. simpl. exact H4.
  - destruct (mouse_same_gesture a b (Batch.MouseUp e) ltac:(discriminate) H) as [H1 H2].
    destruct (IH _ _ H1) as [H3 H4]. split; [exact H3|].
    simpl in *. injection H2 as H2. rewrite H2, H4. reflexivity.
  - destruct (IH _ _ (key_same_gesture a b down H)) as [H3 H4]. split; [exact H3|].
    simpl. exact H4.
Qed.

(** The letters of [detectPattern] and its growth. *)
Lemma dir_letter (jitter dx dy : R) :
  Batch.dir jitter dx dy = "" ∨
  ∃ c, is_LRUD c ∧ Batch.dir jitter dx dy = String c EmptyString.
Proof.
  unfold Batch.dir.
  repeat match goal with |- context [if ?b then _ else _] => destruct b end;
    first [left; reflexivity | right; eexists; split; [|reflexivity]; reflexivity].
Qed.

(** One iteration keeps [out] or appends one of the four letters. *)
Lemma detect_step_out (minSeg jitter : R) (s : Batch.loop) (p : point) :
  Batch.l_out (Batch.detect_step minSeg jitter s p) = Batch.l_out s ∨
  ∃ c, is_LRUD c ∧
       Batch.l_out (Batch.detect_step minSeg jitter s p)
       = Batch.l_out s +:+ String c EmptyString.
Proof.
  unfold Batch.detect_step.
  destruct (leR minSeg _); [|left; reflexivity]. cbn [Batch.l_out].
  destruct (dir_letter jitter (px p - px (Batch.l_last s)) (py p - py (Batch.l_last s)))
    as [-> | (c & Hc & ->)]; [left; reflexivity|].
  destruct (negb _ && _); [right; exists c; auto | left; reflexivity].
Qed.

Lemma length_snoc (s : string) (c : ascii) :
  String.length (s +:+ String c EmptyString) = S (String.length s).
Proof.
  induction s as [|a s IH]; [reflexivity|]. rewrite app_cons. simpl. rewrite IH. reflexivity.
Qed.

Lemma detect_fold_letters (minSeg jitter : R) (pts : list point) (s : Batch.loop) :
  Forall is_LRUD (chars (Batch.l_out s)) →
  Forall is_LRUD (chars (Batch.l_out (fold_left (Batch.detect_step minSeg jitter) pts s))) ∧
  (String.length (Batch.l_out (fold_left (Batch.detect_step minSeg jitter) pts s))
   <= String.length (Batch.l_out s) + length pts)%nat.
Proof.
  revert s. induction pts as [|p pts IH]; intros s H; [split; [exact H | simpl; lia]|].
  simpl.
  destruct (detect_step_out minSeg jitter s p) as [E | (c & Hc & E)].
  - destruct (IH (Batch.detect_step minSeg jitter s p)) as [H1 H2]; [rewrite E; exact H|].
    split; [exact H1|]. rewrite E in H2. lia.
  - destruct (IH (Batch.detect_step minSeg jitter s p)) as [H1 H2].
    { rewrite E, chars_snoc. apply Forall_app. split; [exact H | repeat constructor; exact Hc]. }
    split; [exact H1|]. rewrite E in H2.
    rewrite length_snoc in H2. lia.
Qed.

Lemma detectPattern_cons (p0 : point) (rest : list point) (minSeg jitter : R) :
  Batch.detectPattern (p0 :: rest) minSeg jitter
  = Batch.l_out (fold_left (Batch.detect_step minSeg jitter) rest (Batch.Loop p0 0 "")).
Proof. destruct rest; reflexivity. Qed.
End BatchFacts.

(** X7.  In the content script with the Alt override, the Alt state tracked from
    keydown and keyup events never influences a gesture: startGesture overwrites it
    with the press event's own altKey before reading it.  Leaving the key events out
    of any input sequence yields a state that agrees on every field except
    altOverrideActive, and the same released action at every release. *)
Theorem X7_alt_key_events_are_inert (c : Batch.settings) (host : string)
    (inputs : list Batch.input) :
  same_gesture (Batch.run (Batch.initial c host) inputs)
               (Batch.run (Batch.initial c host) (without_keys inputs)) ∧
  released (Batch.initial c host) inputs
  = released (Batch.initial c host) (without_keys inputs).
Proof. apply run_without_keys. apply same_gesture_refl. Qed.

(** X8.  The batch detectPattern spells its pattern with the four letters L, R, U, D
    only, writes at most one letter per sample after the first, and is append-only:
    adding one more sample to the trajectory either keeps the pattern computed so
    far or appends a single letter to it, so a pattern shown while drawing is never
    revised. *)
Theorem X8_detectPattern_append_only (p0 : Num.point) (rest : list Num.point)
    (p : Num.point) (minSeg jitter : R) :
  Forall is_LRUD (chars (Batch.detectPattern (p0 :: rest) minSeg jitter)) ∧
  (String.length (Batch.detectPattern (p0 :: rest) minSeg jitter) <= length rest)%nat ∧
  (Batch.detectPattern (p0 :: rest ++ [p]) minSeg jitter
   = Batch.detectPattern (p0 :: rest) minSeg jitter ∨
   ∃ c, is_LRUD c ∧
        Batch.detectPattern (p0 :: rest ++ [p]) minSeg jitter
        = Batch.detectPattern (p0 :: rest) minSeg jitter +:+ String c EmptyString).
Proof.
  rewrite detectPattern_snoc, detectPattern_cons.
  destruct (detect_fold_letters minSeg jitter rest (Batch.Loop p0 0 "")) as [H1 H2];
    [constructor|].
  split; [exact H1|]. split; [exact H2|]. apply detect_step_out.
Qed.

(** ** The service worker's message protocol *)

Section Protocol.
Import Sw.
Variable URL : string → option url.

(** A call that acts on tabs, as opposed to the response to the sender. *)
Definition is_response (c : call) : bool :=
  match c with
  | SendResponse _ => true
  | _ => false
  end.

(** What a tab call made for the action [action] by a sender in tab [tabId] may be:
    the creation of one active tab (for "new_tab" only), or an operation on the
    sender's own tab that matches the action. *)
Definition in_scope (action : string) (tabId : option nat) (c : call) : Prop :=
  (∃ u, c = TabsCreate u true ∧ action = "new_tab") ∨
  (∃ t, tabId = Some t ∧
        ((c = TabsRemove t ∧ action = "close_tab") ∨
         (c = TabsReload t ∧ action = "reload") ∨
         (c = TabsGoBack t ∧ action = "back") ∨
         (c = TabsGoForward t ∧ action = "forward"))).

Lemma scope_none (action : string) (tabId : option nat) :
  (length (@nil call) <= 1)%nat ∧ Forall (in_scope action tabId) [] ∧
  Forall (fun c => is_response c = false) [].
Proof. split; [simpl; lia|]. split; constructor. Qed.

Lemma scope_one (action : string) (tabId : option nat) (c : call) :
  in_scope action tabId c → is_response c = false →
  (length [c] <= 1)%nat ∧ Forall (in_scope action tabId) [c] ∧
  Forall (fun c => is_response c = false) [c].
Proof.
  intros H1 H2. split; [simpl; lia|].
  split; (apply Forall_cons; split; [assumption | apply Forall_nil_2]).
Qed.

Lemma execActionFromMessage_scope (action : string) (tabId : option nat) (href : string) :
  (length (execActionFromMessage URL action tabId href) <= 1)%nat ∧
  Forall (in_scope action tabId) (execActionFromMessage URL action tabId href) ∧
  Forall (fun c => is_response c = false) (execActionFromMessage URL action tabId href).
Proof.
  unfold execActionFromMessage, openNewTab.
  destruct (String.eqb action "new_tab") eqn:E1.
  { apply String.eqb_eq in E1.
    destruct (negb _); (apply scope_one; [|reflexivity]);
      left; eexists; split; [reflexivity | exact E1 | reflexivity | exact E1]. }
  destruct (String.eqb action "close_tab") eqn:E2.
  { apply String.eqb_eq in E2. destruct tabId as [t|]; [|apply scope_none].
    apply scope_one; [|reflexivity]. right. exists t. split; [reflexivity|]. auto. }
  destruct (String.eqb action "reload") eqn:E3.
  { apply String.eqb_eq in E3. destruct tabId as [t|]; [|apply scope_none].
    apply scope_one; [|reflexivity]. right. exists t. split; [reflexivity|]. auto. }
  destruct (String.eqb action "back") eqn:E4.
  { apply String.eqb_eq in E4. destruct tabId as [t|]; [|apply scope_none].
    apply scope_one; [|reflexivity]. right. exists t. split; [reflexivity|]. auto. }
  destruct (String.eqb action "forward") eqn:E5.
  { apply String.eqb_eq in E5. destruct tabId as [t|]; [|apply scope_none].
    apply scope_one; [|reflexivity]. right. exists t. split; [reflexivity|]. auto 6. }
  apply scope_none.
Qed.

(** The message types the listener of scripts/sw.js knows. *)
Definition known_type (t : string) : bool :=
  String.eqb t "MG_OPEN_OPTIONS" || String.eqb t "MG_EXEC_ACTION" ||
  String.eqb t "MG_GET_DEFAULTS".

(** X9.  The listener of scripts/sw.js, with every browser call resolving, answers
    each message exactly once and as its last call; the answer is ok:false exactly
    for an unknown message type, and then nothing else is done.  For an
    MG_EXEC_ACTION message the calls before the answer are those of
    execActionFromMessage: at most one, and only the creation of one active tab
    (for "new_tab") or the matching operation on the sender's own tab, so a sender
    without a tab can only open a tab, and "top", "bottom" and unknown actions do
    nothing. *)
Theorem X9_one_response_per_message (msg : message) (tabId : option nat) :
  (∃ calls ok,
     onMessage URL msg tabId = calls ++ [SendResponse ok] ∧
     Forall (fun c => is_response c = false) calls ∧
     ok = known_type (m_type msg) ∧
     (ok = false → calls = []) ∧
     (m_type msg = "MG_EXEC_ACTION" →
      calls = execActionFromMessage URL (m_action msg) tabId (m_href msg))) ∧
  (length (execActionFromMessage URL (m_action msg) tabId (m_href msg)) <= 1)%nat ∧
  Forall (in_scope (m_action msg) tabId)
         (execActionFromMessage URL (m_action msg) tabId (m_href msg)) ∧
  (tabId = None → m_action msg ≠ "new_tab" →
   execActionFromMessage URL (m_action msg) tabId (m_href msg) = []).
Proof.
  destruct (execActionFromMessage_scope (m_action msg) tabId (m_href msg))
    as (Hlen & Hscope & Hresp).
  split; [|split; [exact Hlen | split; [exact Hscope|]]].
  - unfold onMessage, known_type.
    destruct (String.eqb (m_type msg) "MG_OPEN_OPTIONS") eqn:E1.
    { apply String.eqb_eq in E1. exists [OpenOptionsPage], true.
      split; [reflexivity|]. split; [repeat constructor|]. split; [reflexivity|].
      split; [discriminate|]. rewrite E1. discriminate. }
    destruct (String.eqb (m_type msg) "MG_EXEC_ACTION") eqn:E2.
    { eexists _, true. split; [reflexivity|]. split; [exact Hresp|].
      split; [reflexivity|]. split; [discriminate | reflexivity]. }
    apply String.eqb_neq in E2.
    destruct (String.eqb (m_type msg) "MG_GET_DEFAULTS") eqn:E3.
    { exists [], true. split; [reflexivity|]. split; [constructor|].
      split; [reflexivity|]. split; [discriminate|]. intros E. contradiction. }
    exists [], false. split; [reflexivity|]. split; [constructor|].
    split; [reflexivity|]. split; [reflexivity|]. intros E. contradiction.
  - intros -> Hne. unfold execActionFromMessage.
    apply String.eqb_neq in Hne. rewrite Hne.
    repeat match goal with |- context [if ?b then _ else _] => destruct b end; reflexivity.
Qed.
End Protocol.

(** ** The comet trail *)

Section TrailFacts.
Import JS Num Trail.
#[local] Open Scope R_scope.
Variable StringToNumber : string → number.
Variable ObjectToNumber : value → completion number.
Variable ToString : value → completion string.

#[local] Abbreviation drawComet := (Trail.drawComet StringToNumber ObjectToNumber ToString).

(** The opacity and the stroke width the canvas is asked for stay in range. *)
Definition op_in_bounds (op : canvas_op) : Prop :=
  match op with
  | SetGlobalAlpha a => 0 < a <= 1
  | SetLineWidth w => 1 <= w <= 18
  | _ => True
  end.

(** How often the call [op] occurs. *)
Definition is_stroke (op : canvas_op) : bool :=
  match op with Stroke => true | _ => false end.

Definition is_fill (op : canvas_op) : bool :=
  match op with Fill => true | _ => false end.

Lemma Q2R_1 : Q2R 1 = 1.
Proof. unfold Q2R. simpl. lra. Qed.

Lemma clamp_range (v : value) (a b q : Q) :
  (a <= b)%Q → Content.clamp StringToNumber ObjectToNumber v a b = Normal q →
  Q2R a <= Q2R q <= Q2R b.
Proof.
  intros Hab H. apply clamp_spec in H as (n & _ & ->).
  destruct (clamp_number_range n a b Hab) as [H1 H2].
  split; apply Qle_Rle; assumption.
Qed.

Lemma segment_in_bounds (color : string) (baseAlpha lw : R) (points : list point)
    (n i : nat) :
  0 < baseAlpha <= 1 → 1 <= lw <= 18 → (1 <= i <= n - 1)%nat →
  Forall op_in_bounds (segment color baseAlpha lw points n i).
Proof.
  intros Ha Hw Hi. unfold segment.
  destruct (points !! (i - 1)%nat); [|constructor].
  destruct (points !! i); [|constructor].
  assert (Hn : 0 < INR (n - 1)) by (apply lt_0_INR; lia).
  assert (Hi0 : 0 < INR i) by (apply lt_0_INR; lia).
  assert (Hin : INR i <= INR (n - 1)) by (apply le_INR; lia).
  assert (Ht : 0 < INR i / INR (n - 1) <= 1).
  { split.
    - apply Rdiv_lt_0_compat; assumption.
    - apply (Rmult_le_reg_r (INR (n - 1))); [exact Hn|].
      unfold Rdiv. rewrite Rmult_assoc, Rinv_l by lra. lra. }
  set (t := INR i / INR (n - 1)) in *.
  apply Forall_cons. split; [simpl; split; nra|].
  apply Forall_cons. split; [simpl; split; [apply Rmax_l | apply Rmax_lub; nra]|].
  repeat (apply Forall_cons; split; [exact I|]). apply Forall_nil_2.
Qed.

Lemma segments_in_bounds (color : string) (baseAlpha lw : R) (points : list point)
    (n : nat) (l : list nat) :
  0 < baseAlpha <= 1 → 1 <= lw <= 18 → Forall (fun i => (1 <= i <= n - 1)%nat) l →
  Forall op_in_bounds (flat_map (segment color baseAlpha lw points n) l).
Proof.
  intros Ha Hw Hl. induction Hl as [|i l Hi _ IH]; simpl; [constructor|].
  apply Forall_app. split; [apply segment_in_bounds; assumption | exact IH].
Qed.

Lemma tip_in_bounds (color : string) (baseAlpha lw : R) (a b : point) :
  0 < baseAlpha <= 1 → Forall op_in_bounds (tip color baseAlpha lw a b).
Proof.
  intros Ha. unfold tip. destruct (tip_corners lw a b) as [[apex b1] b2].
  apply Forall_cons. split; [simpl; lra|].
  repeat (apply Forall_cons; split; [exact I|]). apply Forall_nil_2.
Qed.

Lemma seq_bounds (n : nat) : Forall (fun i => (1 <= i <= n - 1)%nat) (seq 1 (n - 1)).
Proof. apply Forall_forall. intros i Hi. apply elem_of_seq in Hi. lia. Qed.

(** Strokes and fills of the parts. *)
Lemma segment_strokes (color : string) (baseAlpha lw : R) (points : list point)
    (n i : nat) :
  (1 <= i < length points)%nat →
  length (filter is_stroke (segment color baseAlpha lw points n i)) = 1%nat ∧
  length (filter is_fill (segment color baseAlpha lw points n i)) = 0%nat.
Proof.
  intros Hi. unfold segment.
  destruct (lookup_lt_is_Some_2 points (i - 1)) as [a ->]; [lia|].
  destruct (lookup_lt_is_Some_2 points i) as [b ->]; [lia|].
  split; reflexivity.
Qed.

Lemma segments_strokes (color : string) (baseAlpha lw : R) (points : list point)
    (n : nat) (l : list nat) :
  Forall (fun i => (1 <= i < length points)%nat) l →
  length (filter is_stroke (flat_map (segment color baseAlpha lw points n) l)) = length l ∧
  length (filter is_fill (flat_map (segment color baseAlpha lw points n) l)) = 0%nat.
Proof.
  intros Hl. induction Hl as [|i l Hi _ [IH1 IH2]]; simpl; [split; reflexivity|].
  destruct (segment_strokes color baseAlpha lw points n i Hi) as [H1 H2].
  rewrite !filter_app, !length_app, H1, H2, IH1, IH2. split; reflexivity.
Qed.

Lemma tip_strokes (color : string) (baseAlpha lw : R) (a b : point) :
  length (filter is_stroke (tip color baseAlpha lw a b)) = 0%nat ∧
  length (filter is_fill (tip color baseAlpha lw a b)) = 1%nat.
Proof. unfold tip. destruct (tip_corners lw a b) as [[apex b1] b2]. split; reflexivity. Qed.

Lemma drawComet_ops (ctx : bool) (prefs : gmap string value) (points : list point)
    (ops : list canvas_op) :
  drawComet ctx prefs points = Normal ops →
  (ops = [] ∧ (ctx = false ∨ (length points < 2)%nat)) ∨
  (ctx = true ∧ (2 <= length points)%nat ∧
   ∃ color baseAlpha lw a b,
     0 < baseAlpha <= 1 ∧ 1 <= lw <= 18 ∧
     points !! (length points - 2)%nat = Some a ∧
     points !! (length points - 1)%nat = Some b ∧
     ops = [Save; SetLineJoin "round"; SetLineCap "round"]
           ++ flat_map (segment color baseAlpha lw points (length points))
                       (seq 1 (length points - 1))
           ++ tip color baseAlpha lw a b ++ [Restore]).
Proof.
  unfold Trail.drawComet.
  destruct ctx; simpl; [|intros [= <-]; left; auto].
  destruct (length points <? 2)%nat eqn:En.
  { apply Nat.ltb_lt in En. intros [= <-]. left. auto. }
  apply Nat.ltb_ge in En.
  intros H.
  apply bind_normal_inv in H as (color & _ & H).
  apply bind_normal_inv in H as (qa & Ha & H).
  apply bind_normal_inv in H as (qw & Hw & H).
  apply clamp_range in Ha; [|discriminate].
  apply clamp_range in Hw; [|discriminate].
  rewrite Q2R_1 in Ha, Hw.
  assert (Q2R (5 # 100) = 5 / 100) by (unfold Q2R; simpl; lra).
  assert (Q2R 18 = 18) by (unfold Q2R; simpl; lra).
  destruct (lookup_lt_is_Some_2 points (length points - 2)) as [a Ea]; [lia|].
  destruct (lookup_lt_is_Some_2 points (length points - 1)) as [b Eb]; [lia|].
  rewrite Ea, Eb in H. injection H as <-.
  right. split; [reflexivity|]. split; [exact En|].
  exists color, (Q2R qa), (Q2R qw), a, b.
  split; [lra|]. split; [lra|]. auto.
Qed.

(** X10.  Whatever is stored in the preferences, drawComet keeps the trail visible
    and bounded: every opacity it sets lies in (0, 1] and every stroke width in
    [1, 18].  With a context and at least two points it strokes one segment per
    pair of consecutive points and fills exactly one tip; without a context or with
    fewer than two points it draws nothing. *)
Theorem X10_trail_within_bounds (ctx : bool) (prefs : gmap string value)
    (points : list point) (ops : list canvas_op) :
  drawComet ctx prefs points = Normal ops →
  Forall op_in_bounds ops ∧
  (ctx = true → (2 <= length points)%nat →
   length (filter is_stroke ops) = (length points - 1)%nat ∧
   length (filter is_fill ops) = 1%nat) ∧
  (ctx = false ∨ (length points < 2)%nat → ops = []).
Proof.
  intros H. apply drawComet_ops in H as [[-> Hn] | (Hc & Hn & H)].
  { split; [constructor|]. split; [|reflexivity].
    intros Hc Hlen. destruct Hn as [Hn|Hn]; [congruence | lia]. }
  destruct H as (color & baseAlpha & lw & a & b & Ha & Hw & Ea & Eb & ->).
  split; [|split].
  - apply Forall_app. split; [repeat constructor|].
    apply Forall_app. split; [apply segments_in_bounds; auto using seq_bounds|].
    apply Forall_app. split; [apply tip_in_bounds; exact Ha | repeat constructor].
  - intros _ _.
    destruct (segments_strokes color baseAlpha lw points (length points)
                (seq 1 (length points - 1))) as [S1 S2].
    { apply Forall_forall. intros i Hi. apply elem_of_seq in Hi. lia. }
    destruct (tip_strokes color baseAlpha lw a b) as [T1 T2].
    rewrite !filter_app, !length_app, S1, S2, T1, T2, length_seq. simpl. lia.
  - intros [Hf|Hf]; [congruence | lia].
Qed.

(** The corners of the tip. *)
Lemma hypot_square (dx dy : R) : hypot dx dy * hypot dx dy = dx * dx + dy * dy.
Proof. unfold hypot. apply sqrt_sqrt. nra. Qed.

Lemma hypot_zero (dx dy : R) : hypot dx dy = 0 → dx = 0 ∧ dy = 0.
Proof.
  intros H. pose proof (hypot_square dx dy) as Hs. rewrite H in Hs. split; nra.
Qed.

Lemma hypot_nonneg (dx dy : R) : 0 <= hypot dx dy.
Proof. unfold hypot. apply sqrt_pos. Qed.

(** X11.  The tip drawComet fills is an arrow head that points where the pointer is
    going.  For the last two trajectory points a and b, the base of the triangle is
    centred on b; when a and b differ, the apex lies max(6, 4 lw) ahead of b on the
    ray from a through b, the base ends lie max(4, 2 lw) from b on the
    perpendicular through b, and the two sides from the apex are equally long; when
    a and b coincide the triangle collapses to the point b. *)
Theorem X11_tip_points_ahead (lw : R) (a b : point) :
  ∃ apex base1 base2,
    tip_corners lw a b = (apex, base1, base2) ∧
    (∀ color baseAlpha,
       tip color baseAlpha lw a b
       = [ SetGlobalAlpha baseAlpha; SetFillStyle color; BeginPath;
           MoveTo (px apex) (py apex); LineTo (px base1) (py base1);
           LineTo (px base2) (py base2); ClosePath; Fill ]) ∧
    (px base1 + px base2 = 2 * px b ∧ py base1 + py base2 = 2 * py b) ∧
    (a = b → apex = b ∧ base1 = b ∧ base2 = b) ∧
    (a ≠ b →
     dist apex b = Rmax 6 (lw * 4) ∧
     dist base1 b = Rmax 4 (lw * 2) ∧ dist base2 b = Rmax 4 (lw * 2) ∧
     (px apex - px b) * (px base1 - px b) + (py apex - py b) * (py base1 - py b) = 0 ∧
     dist apex base1 = dist apex base2 ∧
     ∃ k, 0 < k ∧ px apex - px b = k * (px b - px a) ∧ py apex - py b = k * (py b - py a)).
Proof.
  eexists _, _, _. split; [reflexivity|]. split; [reflexivity|].
  cbn [px py].
  set (dx := px b - px a). set (dy := py b - py a).
  set (T := Rmax 6 (lw * 4)). set (W := Rmax 4 (lw * 2)).
  assert (HT : 6 <= T) by apply Rmax_l.
  assert (HW : 4 <= W) by apply Rmax_l.
  split; [split; ring|]. split.
  - intros <-. unfold dx, dy.
    replace (px a - px a) with 0 by ring. replace (py a - py a) with 0 by ring.
    assert (E : hypot 0 0 = 0) by (apply hypot_eval; lra).
    rewrite E. destruct (Req_dec_T 0 0) as [_|F]; [|contradiction].
    destruct a as [x y]. cbn [px py]. repeat split; f_equal; field.
  - intros Hab.
    destruct (Req_dec_T (hypot dx dy) 0) as [E|NE].
    { exfalso. apply hypot_zero in E as [Ex Ey]. apply Hab.
      destruct a as [ax ay], b as [bx' by']. unfold dx, dy in *. cbn [px py] in *.
      f_equal; lra. }
    pose proof (hypot_square dx dy) as HL. pose proof (hypot_nonneg dx dy) as HL0.
    set (L := hypot dx dy) in *.
    assert (HLpos : 0 < L) by lra.
    assert (Hu : dx / L * (dx / L) + dy / L * (dy / L) = 1).
    { replace (dx / L * (dx / L) + dy / L * (dy / L)) with ((dx * dx + dy * dy) / (L * L))
        by (field; lra).
      rewrite <- HL. field. lra. }
    set (ux := dx / L) in *. set (uy := dy / L) in *.
    assert (Hside : 0 <= sqrt (T * T + W * W) ∧
                    sqrt (T * T + W * W) * sqrt (T * T + W * W) = T * T + W * W).
    { split; [apply sqrt_pos | apply sqrt_sqrt; nra]. }
    destruct Hside as [Hs0 Hs].
    split; [|split; [|split; [|split; [|split]]]].
    + apply dist_eval; [lra|]. cbn [px py].
      replace ((px b + ux * T - px b) * (px b + ux * T - px b)
               + (py b + uy * T - py b) * (py b + uy * T - py b))
        with ((ux * ux + uy * uy) * (T * T)) by ring.
      rewrite Hu. ring.
    + apply dist_eval; [lra|]. cbn [px py].
      replace ((px b + - uy * W - px b) * (px b + - uy * W - px b)
               + (py b + ux * W - py b) * (py b + ux * W - py b))
        with ((ux * ux + uy * uy) * (W * W)) by ring.
      rewrite Hu. ring.
    + apply dist_eval; [lra|]. cbn [px py].
      replace ((px b - - uy * W - px b) * (px b - - uy * W - px b)
               + (py b - ux * W - py b) * (py b - ux * W - py b))
        with ((ux * ux + uy * uy) * (W * W)) by ring.
      rewrite Hu. ring.
    + ring.
    + transitivity (sqrt (T * T + W * W)); [|symmetry];
        (apply dist_eval; [exact Hs0|]); cbn [px py]; rewrite Hs.
      * replace ((px b + ux * T - (px b + - uy * W)) * (px b + ux * T - (px b + - uy * W))
                 + (py b + uy * T - (py b + ux * W)) * (py b + uy * T - (py b + ux * W)))
          with ((ux * ux + uy * uy) * (T * T + W * W)) by ring.
        rewrite Hu. ring.
      * replace ((px b + ux * T - (px b - - uy * W)) * (px b + ux * T - (px b - - uy * W))
                 + (py b + uy * T - (py b - ux * W)) * (py b + uy * T - (py b - ux * W)))
          with ((ux * ux + uy * uy) * (T * T + W * W)) by ring.
        rewrite Hu. ring.
    + exists (T / L). split; [apply Rdiv_lt_0_compat; lra|].
      unfold ux, uy, dx, dy. split; field; lra.
Qed.
End TrailFacts.

Lemma X10_trail_within_bounds_witness :
  ∃ ops,
    Trail.drawComet (fun _ => JS.NaN) (fun _ => JS.Normal JS.NaN) (fun _ => JS.Normal "")
      true Content.DEFAULTS_prefs [Num.Point 0 0; Num.Point 10 0] = JS.Normal ops ∧
    Forall op_in_bounds ops.
Proof.
  eexists. split; [reflexivity|].
  refine (proj1 (X10_trail_within_bounds
                   (fun _ => JS.NaN) (fun _ => JS.Normal JS.NaN) (fun _ => JS.Normal "")
                   true Content.DEFAULTS_prefs [Num.Point 0 0; Num.Point 10 0] _ _)).
  reflexivity.
Defined.

(** ** The settings the service worker installs *)

Section InstallFacts.
Import JS Install.
Variable StringToNumber : string → number.
Variable ObjectToNumber : value → completion number.

#[local] Abbreviation ensureDefaultsExist :=
  (Install.ensureDefaultsExist StringToNumber ObjectToNumber).

Lemma Qcompare_cases (a b : Q) :
  (Qcompare a b = Lt ∧ (a < b)%Q) ∨ (Qcompare a b = Eq ∧ (a == b)%Q) ∨
  (Qcompare a b = Gt ∧ (b < a)%Q).
Proof.
  destruct (Qcompare a b) eqn:E.
  - right. left. split; [reflexivity|]. apply Qeq_alt. exact E.
  - left. split; [reflexivity|]. apply Qlt_alt. exact E.
  - right. right. split; [reflexivity|]. apply Qgt_alt. exact E.
Qed.

(** A clamped number is a fixed point of clamping into the same range, or into one
    with the same lower bound and a larger upper bound. *)
Lemma clamp_number_fixed (n : number) (a b b' : Q) :
  (a < b)%Q → b' = b ∨ (b < b')%Q →
  clamp_number (Fin (clamp_number n a b)) a b' = clamp_number n a b.
Proof.
  intros Hab Hb'.
  assert (Hrange : (a <= clamp_number n a b <= b)%Q)
    by (apply clamp_number_range; Lqa.lra).
  assert (Hcases : clamp_number n a b = a ∨ clamp_number n a b = b ∨
                   (a < clamp_number n a b)%Q ∧ (clamp_number n a b < b)%Q).
  { destruct n as [q| | |]; simpl; auto.
    unfold Qmin, Qmax, GenericMinMax.gmin, GenericMinMax.gmax.
    destruct (Qcompare_cases a q) as [[-> H1] | [[-> H1] | [-> H1]]];
      [destruct (Qcompare_cases b q) as [[-> H2] | [[-> H2] | [-> H2]]]
      |destruct (Qcompare_cases b a) as [[-> H2] | [[-> H2] | [-> H2]]]
      |destruct (Qcompare_cases b a) as [[-> H2] | [[-> H2] | [-> H2]]]]; auto. }
  set (q := clamp_number n a b) in *. simpl.
  unfold Qmin, Qmax, GenericMinMax.gmin, GenericMinMax.gmax.
  destruct Hcases as [E | [E | [E1 E2]]].
  - rewrite E.
    destruct (Qcompare_cases a a) as [[-> H1] | [[-> H1] | [-> H1]]]; try Lqa.lra.
    destruct (Qcompare_cases b' a) as [[-> H2] | [[-> H2] | [-> H2]]];
      try reflexivity; destruct Hb' as [-> | Hb']; Lqa.lra.
  - rewrite E.
    destruct (Qcompare_cases a b) as [[-> H1] | [[-> H1] | [-> H1]]]; try Lqa.lra.
    destruct Hb' as [-> | Hb'].
    + destruct (Qcompare_cases b b) as [[-> H2] | [[-> H2] | [-> H2]]];
        try reflexivity; Lqa.lra.
    + destruct (Qcompare_cases b' b) as [[-> H2] | [[-> H2] | [-> H2]]];
        try reflexivity; Lqa.lra.
  - destruct (Qcompare_cases a q) as [[-> H1] | [[-> H1] | [-> H1]]]; try Lqa.lra.
    destruct (Qcompare_cases b' q) as [[-> H2] | [[-> H2] | [-> H2]]];
      try reflexivity; destruct Hb' as [-> | Hb']; Lqa.lra.
Qed.

Lemma Install_clamp_field :
  Install.clamp_field StringToNumber ObjectToNumber
  = Content.clamp_field StringToNumber ObjectToNumber.
Proof. reflexivity. Qed.

(** The choices [ensureDefaultsExist] makes for the scalar fields of [cfg]. *)
Definition chosen_enabled (cfg : value) : bool :=
  match get cfg "enabled" with
  | VBool b => b
  | _ => true
  end.

Definition chosen_mode (cfg : value) : string :=
  match get cfg "mode" with
  | VStr s => if String.eqb s "blacklist" || String.eqb s "whitelist" then s else "blacklist"
  | _ => "blacklist"
  end.

Definition chosen_theme (cfg : value) : string :=
  match get cfg "theme" with
  | VStr s => if String.eqb s "dark" || String.eqb s "dim" || String.eqb s "light"
              then s else "dark"
  | _ => "dark"
  end.

Definition chosen_list (res : gmap string value) : value :=
  if isArray (read res KEYS_list) then read res KEYS_list else VArr [].

Lemma chosen_mode_valid (cfg : value) :
  String.eqb (chosen_mode cfg) "blacklist" || String.eqb (chosen_mode cfg) "whitelist" = true.
Proof.
  unfold chosen_mode. destruct (get cfg "mode"); try reflexivity.
  destruct (String.eqb s "blacklist" || String.eqb s "whitelist") eqn:E; [exact E | reflexivity].
Qed.

Lemma chosen_theme_valid (cfg : value) :
  String.eqb (chosen_theme cfg) "dark" || String.eqb (chosen_theme cfg) "dim"
  || String.eqb (chosen_theme cfg) "light" = true.
Proof.
  unfold chosen_theme. destruct (get cfg "theme"); try reflexivity.
  destruct (String.eqb s "dark" || String.eqb s "dim" || String.eqb s "light") eqn:E;
    [exact E | reflexivity].
Qed.

Lemma chosen_list_array (res : gmap string value) : isArray (chosen_list res) = true.
Proof. unfold chosen_list. destruct (isArray (read res KEYS_list)) eqn:E; [exact E | reflexivity]. Qed.

(** The four preferences the worker clamps, written over the merged object [p0]. *)
Definition clamped_prefs (q1 q2 q3 q4 : Q) (p0 : gmap string value) : gmap string value :=
  <["trailAlpha" := num q4]> (<["lineWidth" := num q3]> (<["jitterPx" := num q2]>
  (<["minSegmentPx" := num q1]> p0))).

(** What a successful [ensureDefaultsExist] writes. *)
Lemma ensureDefaultsExist_shape (res w : gmap string value) :
  ensureDefaultsExist res = Normal w →
  ∃ n1 n2 n3 n4 s g,
    w = <[KEYS_cfg :=
            merged_cfg (chosen_enabled (object_or_empty (read res KEYS_cfg)))
                       (chosen_mode (object_or_empty (read res KEYS_cfg)))
                       (chosen_theme (object_or_empty (read res KEYS_cfg)))
                       (clamped_prefs (clamp_number n1 6 60) (clamp_number n2 0 20)
                                      (clamp_number n3 1 12) (clamp_number n4 (5 # 100) 1)
                                      (s ∪ DEFAULTS_prefs))
                       (g ∪ DEFAULTS_gestureMap)]>
          (<[KEYS_list := chosen_list res]> ∅).
Proof.
  unfold Install.ensureDefaultsExist. cbv zeta. rewrite Install_clamp_field. intros H.
  apply bind_normal_inv in H as (p1 & E1 & H).
  apply clamp_field_spec in E1 as (q1 & C1 & ->).
  apply bind_normal_inv in H as (p2 & E2 & H).
  apply clamp_field_spec in E2 as (q2 & C2 & ->).
  apply bind_normal_inv in H as (p3 & E3 & H).
  apply clamp_field_spec in E3 as (q3 & C3 & ->).
  apply bind_normal_inv in H as (p4 & E4 & H).
  apply clamp_field_spec in E4 as (q4 & C4 & ->).
  apply clamp_spec in C1 as (n1 & _ & ->). apply clamp_spec in C2 as (n2 & _ & ->).
  apply clamp_spec in C3 as (n3 & _ & ->). apply clamp_spec in C4 as (n4 & _ & ->).
  injection H as <-.
  exists n1, n2, n3, n4. eexists _, _.
  unfold chosen_list. destruct (isArray (read res KEYS_list)); reflexivity.
Qed.

(** Reads of what was written. *)
Lemma read_written_cfg (c l : value) (res : gmap string value) :
  read (storage_set (<[KEYS_cfg := c]> (<[KEYS_list := l]> ∅)) res) KEYS_cfg = c.
Proof. apply read_union_stored. apply lookup_insert_eq. Qed.

Lemma read_written_list (c l : value) (res : gmap string value) :
  read (storage_set (<[KEYS_cfg := c]> (<[KEYS_list := l]> ∅)) res) KEYS_list = l.
Proof.
  apply read_union_stored. rewrite lookup_insert_ne by discriminate. apply lookup_insert_eq.
Qed.

Lemma get_merged (e : bool) (m t : string) (p g : gmap string value) :
  get (merged_cfg e m t p g) "enabled" = VBool e ∧
  get (merged_cfg e m t p g) "mode" = VStr m ∧
  get (merged_cfg e m t p g) "theme" = VStr t ∧
  get (merged_cfg e m t p g) "prefs" = VObj p ∧
  get (merged_cfg e m t p g) "gestureMap" = VObj g.
Proof.
  unfold merged_cfg, get.
  repeat split; rewrite ?read_insert_ne by discriminate; apply read_insert_eq.
Qed.

Lemma union_absorb (a d : gmap string value) : (a ∪ d) ∪ d = a ∪ d.
Proof. rewrite <- (assoc_L (∪)). rewrite (idemp_L (∪) d). reflexivity. Qed.

Lemma clamped_prefs_union (q1 q2 q3 q4 : Q) (s d : gmap string value) :
  clamped_prefs q1 q2 q3 q4 (s ∪ d) ∪ d = clamped_prefs q1 q2 q3 q4 (s ∪ d).
Proof.
  unfold clamped_prefs. rewrite !insert_union_l. apply union_absorb.
Qed.

Lemma clamped_prefs_lookup (q1 q2 q3 q4 : Q) (p0 : gmap string value) :
  clamped_prefs q1 q2 q3 q4 p0 !! "minSegmentPx" = Some (num q1) ∧
  clamped_prefs q1 q2 q3 q4 p0 !! "jitterPx" = Some (num q2) ∧
  clamped_prefs q1 q2 q3 q4 p0 !! "lineWidth" = Some (num q3) ∧
  clamped_prefs q1 q2 q3 q4 p0 !! "trailAlpha" = Some (num q4).
Proof.
  unfold clamped_prefs.
  repeat split; rewrite ?lookup_insert_ne by discriminate; apply lookup_insert_eq.
Qed.

(** Clamping a preference that already holds a clamped number changes nothing. *)
Lemma clamp_field_fixed (k : string) (a b b0 : Q) (p : gmap string value) (n : number) :
  p !! k = Some (num (clamp_number n a b0)) → (a < b0)%Q → b = b0 ∨ (b0 < b)%Q →
  Content.clamp_field StringToNumber ObjectToNumber k a b p = Normal p.
Proof.
  intros Hk Hab Hb.
  rewrite (clamp_field_converted _ _ k a b p (Fin (clamp_number n a b0))).
  - rewrite clamp_number_fixed by assumption. f_equal. apply insert_id. exact Hk.
  - unfold read. rewrite Hk. reflexivity.
Qed.

Lemma ensureDefaultsExist_on_written (res : gmap string value) (e : bool) (m t : string)
    (n1 n2 n3 n4 : number) (s g : gmap string value) (l : value) :
  String.eqb m "blacklist" || String.eqb m "whitelist" = true →
  String.eqb t "dark" || String.eqb t "dim" || String.eqb t "light" = true →
  isArray l = true →
  ensureDefaultsExist
    (storage_set
       (<[KEYS_cfg :=
            merged_cfg e m t
              (clamped_prefs (clamp_number n1 6 60) (clamp_number n2 0 20)
                             (clamp_number n3 1 12) (clamp_number n4 (5 # 100) 1)
                             (s ∪ DEFAULTS_prefs))
              (g ∪ DEFAULTS_gestureMap)]>
          (<[KEYS_list := l]> ∅)) res)
  = Normal (<[KEYS_cfg :=
                merged_cfg e m t
                  (clamped_prefs (clamp_number n1 6 60) (clamp_number n2 0 20)
                                 (clamp_number n3 1 12) (clamp_number n4 (5 # 100) 1)
                                 (s ∪ DEFAULTS_prefs))
                  (g ∪ DEFAULTS_gestureMap)]>
              (<[KEYS_list := l]> ∅)).
Proof.
  intros Hm Ht Hl.
  set (P := clamped_prefs _ _ _ _ _). set (G := g ∪ DEFAULTS_gestureMap).
  unfold Install.ensureDefaultsExist. cbv zeta.
  rewrite read_written_cfg, read_written_list, Hl.
  change (truthy (merged_cfg e m t P G) && typeof_object (merged_cfg e m t P G)) with true.
  cbv iota.
  destruct (get_merged e m t P G) as (-> & -> & -> & -> & ->).
  cbv iota beta. rewrite Hm, Ht.
  change (own_props (object_or_empty (VObj P))) with P.
  change (own_props (object_or_empty (VObj G))) with G.
  unfold P at 1. rewrite clamped_prefs_union. fold P.
  unfold G at 1. rewrite union_absorb. fold G.
  rewrite Install_clamp_field.
  destruct (clamped_prefs_lookup (clamp_number n1 6 60) (clamp_number n2 0 20)
              (clamp_number n3 1 12) (clamp_number n4 (5 # 100) 1) (s ∪ DEFAULTS_prefs))
    as (L1 & L2 & L3 & L4).
  fold P in L1, L2, L3, L4.
  rewrite (clamp_field_fixed "minSegmentPx" 6 60 60 P n1 L1) by (auto; reflexivity).
  change (Normal ?a ≫= ?k) with (k a). cbv beta.
  rewrite (clamp_field_fixed "jitterPx" 0 20 20 P n2 L2) by (auto; reflexivity).
  change (Normal ?a ≫= ?k) with (k a). cbv beta.
  rewrite (clamp_field_fixed "lineWidth" 1 12 12 P n3 L3) by (auto; reflexivity).
  change (Normal ?a ≫= ?k) with (k a). cbv beta.
  rewrite (clamp_field_fixed "trailAlpha" (5 # 100) 1 1 P n4 L4) by (auto; reflexivity).
  reflexivity.
Qed.

(** X12.  ensureDefaultsExist is idempotent on the storage: once it has written its
    merged settings, running it again on the storage that holds them writes exactly
    the same object, so repeated installs and updates never drift the stored
    configuration. *)
Theorem X12_ensureDefaultsExist_idempotent (res w : gmap string value) :
  ensureDefaultsExist res = Normal w →
  ensureDefaultsExist (storage_set w res) = Normal w.
Proof.
  intros H. apply ensureDefaultsExist_shape in H as (n1 & n2 & n3 & n4 & s & g & ->).
  apply ensureDefaultsExist_on_written.
  - apply chosen_mode_valid.
  - apply chosen_theme_valid.
  - apply chosen_list_array.
Qed.

(** *** The content script reading what the worker wrote *)

(** Every key of the content script's default gesture map is a key of the worker's. *)
Lemma content_map_keys (k : string) :
  DEFAULTS_gestureMap !! k = None → Content.DEFAULTS_gestureMap !! k = None.
Proof.
  unfold DEFAULTS_gestureMap, Content.DEFAULTS_gestureMap. intros H.
  repeat (apply lookup_insert_None in H as [H ?]).
  rewrite !lookup_insert_ne by assumption. apply lookup_empty.
Qed.

Lemma union_covers (g d d' : gmap string value) :
  (∀ k, d !! k = None → d' !! k = None) → (g ∪ d) ∪ d' = g ∪ d.
Proof.
  intros H. apply map_eq. intros k. rewrite (lookup_union_match (g ∪ d) d' k).
  destruct ((g ∪ d) !! k) eqn:E; [reflexivity|].
  apply lookup_union_None in E as [_ E]. apply H. exact E.
Qed.

Lemma Number_total (v : value) :
  (∀ v, ∃ n, ObjectToNumber v = Normal n) →
  ∃ n, Number StringToNumber ObjectToNumber v = Normal n.
Proof. intros H. destruct v as [| |[]| | | |]; simpl; eauto. Qed.

Lemma clamp_field_total (k : string) (a b : Q) (p : gmap string value) :
  (∀ v, ∃ n, ObjectToNumber v = Normal n) →
  ∃ p', Content.clamp_field StringToNumber ObjectToNumber k a b p = Normal p'.
Proof.
  intros H. destruct (Number_total (read p k) H) as [n Hn].
  eexists. apply clamp_field_converted. exact Hn.
Qed.

(** The settings object the worker wrote. *)
Definition written_cfg (w : gmap string value) : value := read w KEYS_cfg.

(** The preferences both scripts clamp. *)
Definition shared_prefs : list string := ["minSegmentPx"; "jitterPx"; "lineWidth"; "trailAlpha"].

(** X13.  The content script reads back what the service worker installed.  After a
    successful ensureDefaultsExist, whenever the content script's readAll runs its
    try block to the end on the resulting storage, its enabled flag, mode, gesture
    map and domain list are exactly the written ones (so the diagonal mappings of
    the worker's defaults reach the content script although its own defaults leave
    them out), and minSegmentPx, jitterPx, lineWidth and trailAlpha are the written
    numbers, untouched by the second clamp.  The try block does run to the end when
    converting an object to a number never throws. *)
Theorem X13_content_reads_installed_settings (res w : gmap string value) :
  ensureDefaultsExist res = Normal w →
  (∀ r, Content.readAll_try StringToNumber ObjectToNumber (storage_set w res) = Normal r →
        Content.readAll StringToNumber ObjectToNumber (Normal (storage_set w res)) = Normal r ∧
        VBool (Content.cfg_enabled (Content.r_cfg r)) = get (written_cfg w) "enabled" ∧
        VStr (Content.cfg_mode (Content.r_cfg r)) = get (written_cfg w) "mode" ∧
        VObj (Content.cfg_gestureMap (Content.r_cfg r)) = get (written_cfg w) "gestureMap" ∧
        VArr (Content.r_list r) = read w KEYS_list ∧
        Forall (fun k => read (Content.cfg_prefs (Content.r_cfg r)) k
                         = get (get (written_cfg w) "prefs") k) shared_prefs) ∧
  ((∀ v, ∃ n, ObjectToNumber v = Normal n) →
   ∃ r, Content.readAll_try StringToNumber ObjectToNumber (storage_set w res) = Normal r).
Proof.
  intros H. apply ensureDefaultsExist_shape in H as (n1 & n2 & n3 & n4 & s & g & ->).
  set (cfg0 := object_or_empty (read res KEYS_cfg)).
  set (P := clamped_prefs _ _ _ _ _). set (G := g ∪ DEFAULTS_gestureMap).
  set (w := <[KEYS_cfg := _]> _).
  assert (Rc : read (storage_set w res) Content.KEYS_cfg
               = merged_cfg (chosen_enabled cfg0) (chosen_mode cfg0) (chosen_theme cfg0) P G)
    by apply read_written_cfg.
  assert (Rl : read (storage_set w res) Content.KEYS_list = chosen_list res)
    by apply read_written_list.
  assert (Rw : written_cfg w
               = merged_cfg (chosen_enabled cfg0) (chosen_mode cfg0) (chosen_theme cfg0) P G).
  { unfold written_cfg, w. apply read_insert_eq. }
  assert (Rwl : read w KEYS_list = chosen_list res).
  { unfold w. rewrite read_insert_ne by discriminate. apply read_insert_eq. }
  destruct (get_merged (chosen_enabled cfg0) (chosen_mode cfg0) (chosen_theme cfg0) P G)
    as (Ge & Gm & Gt & Gp & Gg).
  assert (Ro : object_or_empty (read (storage_set w res) Content.KEYS_cfg)
               = merged_cfg (chosen_enabled cfg0) (chosen_mode cfg0) (chosen_theme cfg0) P G)
    by (rewrite Rc; reflexivity).
  split.
  - intros r Hr. split.
    { unfold Content.readAll. change (Normal (storage_set w res) ≫= ?k) with (k (storage_set w res)).
      cbv beta. rewrite Hr. reflexivity. }
    destruct (readAll_try_settings _ _ _ _ Hr) as (Se & Sm & Sg & Sl & _).
    pose proof (readAll_try_prefs _ _ _ _ Hr) as Sp.
    rewrite Ro in Se, Sm, Sg. rewrite Rl in Sl. rewrite Rw, Rwl.
    rewrite Ge in Se. rewrite Gm in Sm. rewrite Ge, Gm, Gg, Gp.
    split; [rewrite Se; reflexivity|]. split.
    { rewrite Sm. pose proof (chosen_mode_valid cfg0) as Hv.
      rewrite orb_comm in Hv. rewrite Hv. reflexivity. }
    split.
    { f_equal. apply map_eq. intros k. rewrite Sg, Gg.
      change (own_props (object_or_empty (VObj G))) with G.
      destruct (G !! k) eqn:E; [reflexivity|].
      apply lookup_union_None in E as [_ E]. apply content_map_keys. exact E. }
    split.
    { rewrite Sl. pose proof (chosen_list_array res) as Ha.
      destruct (chosen_list res); try discriminate. reflexivity. }
    unfold stored_prefs in Sp. rewrite Ro, Gp in Sp.
    change (own_props (object_or_empty (VObj P))) with P in Sp.
    destruct (clamped_prefs_lookup (clamp_number n1 6 60) (clamp_number n2 0 20)
                (clamp_number n3 1 12) (clamp_number n4 (5 # 100) 1) (s ∪ DEFAULTS_prefs))
      as (L1 & L2 & L3 & L4).
    fold P in L1, L2, L3, L4.
    unfold numeric_fields in Sp.
    apply Forall_cons in Sp as [(q1 & C1 & F1) Sp].
    apply Forall_cons in Sp as [(q2 & C2 & F2) Sp].
    apply Forall_cons in Sp as [_ Sp]. apply Forall_cons in Sp as [_ Sp].
    apply Forall_cons in Sp as [(q5 & C5 & F5) Sp].
    apply Forall_cons in Sp as [(q6 & C6 & F6) _].
    rewrite (read_union_stored _ _ _ _ L1) in C1.
    rewrite (read_union_stored _ _ _ _ L2) in C2.
    rewrite (read_union_stored _ _ _ _ L3) in C5.
    rewrite (read_union_stored _ _ _ _ L4) in C6.
    apply clamp_spec in C1 as (m1 & N1 & ->). apply clamp_spec in C2 as (m2 & N2 & ->).
    apply clamp_spec in C5 as (m5 & N5 & ->). apply clamp_spec in C6 as (m6 & N6 & ->).
    injection N1 as <-. injection N2 as <-. injection N5 as <-. injection N6 as <-.
    rewrite clamp_number_fixed in F1, F2, F5, F6
      by (first [reflexivity | left; reflexivity | right; reflexivity]).
    unfold shared_prefs, get, read.
    repeat (apply Forall_cons; split); [..| apply Forall_nil_2].
    + rewrite F1, L1. reflexivity.
    + rewrite F2, L2. reflexivity.
    + rewrite F5, L3. reflexivity.
    + rewrite F6, L4. reflexivity.
  - intros Htot. unfold Content.readAll_try. cbv zeta.
    repeat match goal with
           | |- ∃ r, (Content.clamp_field _ _ ?k ?a ?b ?p ≫= _) = Normal r =>
               let p' := fresh "p" in let Hp := fresh "Hp" in
               destruct (clamp_field_total k a b p Htot) as [p' Hp]; rewrite Hp;
               change (Normal p' ≫= ?f) with (f p'); cbv beta
           end.
    eexists. reflexivity.
Qed.
End InstallFacts.

Lemma X12_ensureDefaultsExist_idempotent_witness :
  ∃ w,
    Install.ensureDefaultsExist (fun _ => JS.NaN) (fun _ => JS.Normal JS.NaN) ∅ = JS.Normal w ∧
    Install.ensureDefaultsExist (fun _ => JS.NaN) (fun _ => JS.Normal JS.NaN)
      (Install.storage_set w ∅) = JS.Normal w.
Proof.
  eexists. split; [reflexivity|].
  refine (X12_ensureDefaultsExist_idempotent
            (fun _ => JS.NaN) (fun _ => JS.Normal JS.NaN) ∅ _ _).
  reflexivity.
Defined.

Lemma X13_content_reads_installed_settings_witness :
  ∃ w,
    Install.ensureDefaultsExist (fun _ => JS.NaN) (fun _ => JS.Normal JS.NaN) ∅ = JS.Normal w ∧
    ∃ r, Content.readAll_try (fun _ => JS.NaN) (fun _ => JS.Normal JS.NaN)
           (Install.storage_set w ∅) = JS.Normal r.
Proof.
  eexists. split; [reflexivity|].
  refine (proj2 (X13_content_reads_installed_settings
                   (fun _ => JS.NaN) (fun _ => JS.Normal JS.NaN) ∅ _ _) _).
  - reflexivity.
  - intros v. eexists. reflexivity.
Defined.

(** ** The trail colour *)

Section Colour.
Import JS Overlay.
#[local] Open Scope Z_scope.
Variable round_to_double : Z → number.

#[local] Abbreviation parseInt16 := (Overlay.parseInt16 round_to_double).
#[local] Abbreviation hexToRgb := (Overlay.hexToRgb round_to_double).

(** The integer a string of hexadecimal digits spells, [None] when a character is
    not a digit. *)
Fixpoint hex_value (s : string) (acc : Z) : option Z :=
  match s with
  | EmptyString => Some acc
  | String c s' =>
      match hex_digit c with
      | Some d => hex_value s' (16 * acc + d)
      | None => None
      end
  end.

Lemma hex_digit_range (c : ascii) (d : Z) : hex_digit c = Some d → 0 <= d < 16.
Proof.
  unfold hex_digit.
  repeat match goal with |- context [if ?b then _ else _] => destruct b eqn:? end;
    intros [= <-]; lia.
Qed.

(** A hexadecimal digit is not white space, not a sign and not the letter x. *)
Lemma hex_digit_plain (c : ascii) (d : Z) :
  hex_digit c = Some d →
  Ascii.is_space c = false ∧ c ≠ "-"%char ∧ c ≠ "+"%char ∧ c ≠ "x"%char ∧ c ≠ "X"%char.
Proof.
  intros H.
  destruct c as [[] [] [] [] [] [] [] []]; try discriminate H;
    repeat split; try reflexivity; discriminate.
Qed.

Lemma hex_prefix_value (s : string) (acc v : Z) (seen : bool) :
  hex_value s acc = Some v → s ≠ "" → hex_prefix s acc seen = (v, true).
Proof.
  revert acc seen. induction s as [|c s IH]; intros acc seen H Hne; [contradiction|].
  simpl in *. destruct (hex_digit c) as [d|]; [|discriminate].
  destruct s as [|c' s'].
  - simpl in *. injection H as <-. reflexivity.
  - apply IH; [exact H | discriminate].
Qed.

(** [parseInt] on a non-empty string of hexadecimal digits. *)
Lemma parseInt16_digits (s : string) (v : Z) :
  hex_value s 0 = Some v → s ≠ "" → parseInt16 s = number_of_Z round_to_double v.
Proof.
  intros H Hne. destruct s as [|c1 s]; [contradiction|].
  assert (Hp := hex_prefix_value _ 0 v false H Hne).
  simpl in H. destruct (hex_digit c1) as [d1|] eqn:E1; [|discriminate].
  destruct (hex_digit_plain c1 d1 E1) as (Hs & Hm & Hpl & _).
  unfold Overlay.parseInt16.
  assert (Ht : Str.trimStart (String c1 s) = String c1 s) by (simpl; rewrite Hs; reflexivity).
  rewrite Ht.
  assert (Hsign : (match String c1 s with
                   | String "-"%char s' => (-1, s')
                   | String "+"%char s' => (1, s')
                   | _ => (1, String c1 s)
                   end) = (1, String c1 s)).
  { destruct c1 as [[] [] [] [] [] [] [] []]; try reflexivity; congruence. }
  rewrite Hsign.
  assert (Hx : (match String c1 s with
                | String "0"%char (String "x"%char s') => s'
                | String "0"%char (String "X"%char s') => s'
                | _ => String c1 s
                end) = String c1 s).
  { destruct s as [|c2 s']; [destruct c1 as [[] [] [] [] [] [] [] []]; reflexivity|].
    simpl in H. destruct (hex_digit c2) as [d2|] eqn:E2; [|discriminate].
    destruct (hex_digit_plain c2 d2 E2) as (_ & _ & _ & Hx1 & Hx2).
    destruct c1 as [[] [] [] [] [] [] [] []]; try reflexivity;
      destruct c2 as [[] [] [] [] [] [] [] []]; try reflexivity; congruence. }
  rewrite Hx, Hp. rewrite Z.mul_1_l. reflexivity.
Qed.

(** The three channels read off a number that is an exact integer. *)
Lemma ToInt32_exact (v : Z) :
  ∃ k, ToInt32 (Fin (inject_Z v)) = v + k * 2 ^ 32.
Proof.
  unfold ToInt32, inject_Z. cbn [Qnum Qden]. rewrite Z.quot_1_r.
  destruct (v mod 2 ^ 32 <? 2 ^ 31).
  - exists (- (v / 2 ^ 32)). pose proof (Z.div_mod v (2 ^ 32) ltac:(lia)). lia.
  - exists (- (v / 2 ^ 32) - 1). pose proof (Z.div_mod v (2 ^ 32) ltac:(lia)). lia.
Qed.

Lemma land_255 (x : Z) : Z.land x 255 = x mod 256.
Proof. change 255 with (Z.ones 8). rewrite Z.land_ones by lia. reflexivity. Qed.

Lemma channels_exact (v : Z) :
  Z.land (Z.shiftr (ToInt32 (Fin (inject_Z v))) 16) 255 = (v / 65536) mod 256 ∧
  Z.land (Z.shiftr (ToInt32 (Fin (inject_Z v))) 8) 255 = (v / 256) mod 256 ∧
  Z.land (ToInt32 (Fin (inject_Z v))) 255 = v mod 256.
Proof.
  destruct (ToInt32_exact v) as [k ->].
  rewrite !land_255, !Z.shiftr_div_pow2 by lia.
  change (2 ^ 32) with 4294967296. change (2 ^ 16) with 65536. change (2 ^ 8) with 256.
  repeat split.
  - replace (v + k * 4294967296) with (v + (k * 65536) * 65536) by ring.
    rewrite Z.div_add by lia.
    replace (v / 65536 + k * 65536) with (v / 65536 + (k * 256) * 256) by ring.
    apply Z.mod_add. lia.
  - replace (v + k * 4294967296) with (v + (k * 16777216) * 256) by ring.
    rewrite Z.div_add by lia.
    replace (v / 256 + k * 16777216) with (v / 256 + (k * 65536) * 256) by ring.
    apply Z.mod_add. lia.
  - replace (v + k * 4294967296) with (v + (k * 16777216) * 256) by ring.
    apply Z.mod_add. lia.
Qed.

(** [trim] leaves a string alone that neither starts nor ends with white space. *)
Lemma trim_fixed (s : string) :
  starts_solid (chars s) → starts_solid (reverse (chars s)) → Str.trim s = s.
Proof.
  intros H1 H2. apply chars_inj. rewrite chars_trim.
  apply (ltrim_both_fixed (chars s) H1 H2).
Qed.

(** [hexToRgb] on "#" followed by a string whose digits (doubled when there are
    three) spell an integer of magnitude up to 2^53: the three low bytes of that
    integer. *)
Lemma hexToRgb_digits (s : string) (v : Z) :
  hex_value (if Nat.eqb (String.length s) 3 then double_chars s else s) 0 = Some v →
  s ≠ "" → Z.abs v <= 2 ^ 53 →
  starts_solid (reverse (chars (String "#" s))) →
  hexToRgb (String "#" s)
  = {| r := (v / 65536) mod 256; g := (v / 256) mod 256; b := v mod 256 |}.
Proof.
  intros Hv Hne Hsmall Hend. unfold Overlay.hexToRgb.
  rewrite trim_fixed; [|reflexivity | exact Hend].
  rewrite (parseInt16_digits _ v Hv).
  - unfold number_of_Z. apply Z.leb_le in Hsmall. rewrite Hsmall. cbn [isFinite negb].
    destruct (channels_exact v) as (-> & -> & ->). reflexivity.
  - destruct (Nat.eqb (String.length s) 3); [|exact Hne].
    destruct s; [contradiction | discriminate].
Qed.

Lemma three_bytes (x y z : Z) :
  0 <= x < 256 → 0 <= y < 256 → 0 <= z < 256 →
  ((x * 65536 + y * 256 + z) / 65536) mod 256 = x ∧
  ((x * 65536 + y * 256 + z) / 256) mod 256 = y ∧
  (x * 65536 + y * 256 + z) mod 256 = z.
Proof. intros Hx Hy Hz. repeat split; Z.div_mod_to_equations; lia. Qed.

Lemma four_bytes (w x y z : Z) :
  0 <= w < 256 → 0 <= x < 256 → 0 <= y < 256 → 0 <= z < 256 →
  ((w * 16777216 + x * 65536 + y * 256 + z) / 65536) mod 256 = x ∧
  ((w * 16777216 + x * 65536 + y * 256 + z) / 256) mod 256 = y ∧
  (w * 16777216 + x * 65536 + y * 256 + z) mod 256 = z.
Proof. intros Hw Hx Hy Hz. repeat split; Z.div_mod_to_equations; lia. Qed.

Lemma channel_range (x : Z) : 0 <= Z.land x 255 <= 255.
Proof. rewrite land_255. pose proof (Z.mod_pos_bound x 256 ltac:(lia)). lia. Qed.

(** X14.  hexToRgb decodes the usual colour notations and nothing else leaves its
    range.  For characters that are hexadecimal digits (either case) with values
    d1, d2, ...: "#" with six digits gives the channels 16 d1 + d2, 16 d3 + d4,
    16 d5 + d6; "#" with three digits gives 17 d1, 17 d2, 17 d3; "#" with eight
    digits (a colour with an alpha byte) gives the last three bytes, so the first
    byte is dropped and the alpha byte is read as blue.  A string that, once
    trimmed, does not start with "#" gives the default colour (0, 229, 255), and
    for every string each channel lies between 0 and 255. *)
Theorem X14_hexToRgb_decodes :
  (∀ c1 c2 c3 c4 c5 c6 d1 d2 d3 d4 d5 d6,
     hex_digit c1 = Some d1 → hex_digit c2 = Some d2 → hex_digit c3 = Some d3 →
     hex_digit c4 = Some d4 → hex_digit c5 = Some d5 → hex_digit c6 = Some d6 →
     hexToRgb (String "#" (String c1 (String c2 (String c3 (String c4 (String c5
                 (String c6 EmptyString)))))))
     = {| r := 16 * d1 + d2; g := 16 * d3 + d4; b := 16 * d5 + d6 |}) ∧
  (∀ c1 c2 c3 d1 d2 d3,
     hex_digit c1 = Some d1 → hex_digit c2 = Some d2 → hex_digit c3 = Some d3 →
     hexToRgb (String "#" (String c1 (String c2 (String c3 EmptyString))))
     = {| r := 17 * d1; g := 17 * d2; b := 17 * d3 |}) ∧
  (∀ c1 c2 c3 c4 c5 c6 c7 c8 d1 d2 d3 d4 d5 d6 d7 d8,
     hex_digit c1 = Some d1 → hex_digit c2 = Some d2 → hex_digit c3 = Some d3 →
     hex_digit c4 = Some d4 → hex_digit c5 = Some d5 → hex_digit c6 = Some d6 →
     hex_digit c7 = Some d7 → hex_digit c8 = Some d8 →
     hexToRgb (String "#" (String c1 (String c2 (String c3 (String c4 (String c5
                 (String c6 (String c7 (String c8 EmptyString)))))))))
     = {| r := 16 * d3 + d4; g := 16 * d5 + d6; b := 16 * d7 + d8 |}) ∧
  (∀ hex, (∀ rest, Str.trim hex ≠ String "#" rest) →
          hexToRgb hex = {| r := 0; g := 229; b := 255 |}) ∧
  (∀ hex, 0 <= r (hexToRgb hex) <= 255 ∧ 0 <= g (hexToRgb hex) <= 255 ∧
          0 <= b (hexToRgb hex) <= 255).
Proof.
  split; [|split; [|split; [|split]]].
  - intros c1 c2 c3 c4 c5 c6 d1 d2 d3 d4 d5 d6 H1 H2 H3 H4 H5 H6.
    pose proof (hex_digit_range _ _ H1). pose proof (hex_digit_range _ _ H2).
    pose proof (hex_digit_range _ _ H3). pose proof (hex_digit_range _ _ H4).
    pose proof (hex_digit_range _ _ H5). pose proof (hex_digit_range _ _ H6).
    destruct (hex_digit_plain _ _ H6) as [Hs _].
    rewrite (hexToRgb_digits _ ((16 * d1 + d2) * 65536 + (16 * d3 + d4) * 256 + (16 * d5 + d6))).
    + destruct (three_bytes (16 * d1 + d2) (16 * d3 + d4) (16 * d5 + d6)) as (-> & -> & ->);
        [lia | lia | lia | reflexivity].
    + cbn [String.length Nat.eqb hex_value]. rewrite H1, H2, H3, H4, H5, H6. f_equal. ring.
    + discriminate.
    + lia.
    + exact Hs.
  - intros c1 c2 c3 d1 d2 d3 H1 H2 H3.
    pose proof (hex_digit_range _ _ H1). pose proof (hex_digit_range _ _ H2).
    pose proof (hex_digit_range _ _ H3).
    destruct (hex_digit_plain _ _ H3) as [Hs _].
    rewrite (hexToRgb_digits _ ((17 * d1) * 65536 + (17 * d2) * 256 + 17 * d3)).
    + destruct (three_bytes (17 * d1) (17 * d2) (17 * d3)) as (-> & -> & ->);
        [lia | lia | lia | reflexivity].
    + cbn [String.length Nat.eqb double_chars hex_value].
      rewrite H1, H2, H3. f_equal. ring.
    + discriminate.
    + lia.
    + exact Hs.
  - intros c1 c2 c3 c4 c5 c6 c7 c8 d1 d2 d3 d4 d5 d6 d7 d8 H1 H2 H3 H4 H5 H6 H7 H8.
    pose proof (hex_digit_range _ _ H1). pose proof (hex_digit_range _ _ H2).
    pose proof (hex_digit_range _ _ H3). pose proof (hex_digit_range _ _ H4).
    pose proof (hex_digit_range _ _ H5). pose proof (hex_digit_range _ _ H6).
    pose proof (hex_digit_range _ _ H7). pose proof (hex_digit_range _ _ H8).
    destruct (hex_digit_plain _ _ H8) as [Hs _].
    rewrite (hexToRgb_digits _ ((16 * d1 + d2) * 16777216 + (16 * d3 + d4) * 65536
                                + (16 * d5 + d6) * 256 + (16 * d7 + d8))).
    + destruct (four_bytes (16 * d1 + d2) (16 * d3 + d4) (16 * d5 + d6) (16 * d7 + d8))
        as (-> & -> & ->); [lia | lia | lia | lia | reflexivity].
    + cbn [String.length Nat.eqb hex_value].
      rewrite H1, H2, H3, H4, H5, H6, H7, H8. f_equal. ring.
    + discriminate.
    + lia.
    + exact Hs.
  - intros hex Hno. unfold Overlay.hexToRgb.
    destruct (Str.trim hex) as [|c rest] eqn:E; [reflexivity|].
    destruct c as [[] [] [] [] [] [] [] []]; try reflexivity.
    exfalso. apply (Hno rest). reflexivity.
  - intros hex. unfold Overlay.hexToRgb.
    assert (Hd : 0 <= r {| r := 0; g := 229; b := 255 |} <= 255 ∧
                 0 <= g {| r := 0; g := 229; b := 255 |} <= 255 ∧
                 0 <= b {| r := 0; g := 229; b := 255 |} <= 255) by (simpl; lia).
    destruct (Str.trim hex) as [|c rest]; [exact Hd|].
    destruct c as [[] [] [] [] [] [] [] []]; try exact Hd.
    destruct (negb _); [exact Hd|]. cbn [r g b].
    repeat split; apply channel_range.
Qed.
End Colour.

(** ** The left-button link swipe *)

Section LinkSwipeFacts.
Import Num LinkSwipe.
#[local] Open Scope R_scope.



(** Every link sent along a run. *)
Definition all_sent (outs : list reaction) : list string := flat_map sent outs.

Lemma run_cons (st : state) (i : input) (rest : list input) :
  run st (i :: rest)
  = (fst (run (fst (step st i)) rest), snd (step st i) :: snd (run (fst (step st i)) rest)).
Proof. simpl. destruct (step st i) as [st' out]. simpl. destruct (run st' rest). reflexivity. Qed.







End LinkSwipeFacts.



(** ** The site gate of the link-swipe variant *)

Section SiteGate.
Import LinkSwipe.

Definition no_config_read (inputs : list input) : Prop :=
  Forall (fun i => match i with ConfigRead _ _ _ _ => False | _ => True end) inputs.

(** The swipe is switched off and idle. *)
Definition switched_off (st : state) : Prop :=
  (enabledOnSite st = false ∨ enabled st = false) ∧ leftActive st = false.

Lemma step_switched_off (st : state) (i : input) :
  no_config_read [i] → switched_off st →
  switched_off (fst (step st i)) ∧ sent (snd (step st i)) = [].
Proof.
  intros Hcfg [Hoff Hidle]. destruct i; cbn [step].
  - unfold onDragStart. rewrite Hidle. split; [split; assumption | reflexivity].
  - unfold onClick. destruct (leftTriggered st); (split; [split; assumption | reflexivity]).
  - unfold onPointerDown.
    destruct (negb (Z.eqb (button e) 0)); [split; [split; assumption | reflexivity]|].
    assert (Hg : negb (enabledOnSite st) || negb (enabled st) = true)
      by (destruct Hoff as [-> | ->]; [reflexivity | apply orb_true_r]).
    rewrite Hg. split; [split; assumption | reflexivity].
  - unfold onPointerMove. rewrite Hidle. split; [split; assumption | reflexivity].
  - unfold onPointerUp. rewrite Hidle. split; [split; assumption | reflexivity].
  - unfold onPointerCancel. rewrite Hidle. split; [split; assumption | reflexivity].
  - unfold onSettled. destruct (awaiting st); (split; [split; [assumption | first [assumption | reflexivity]] | reflexivity]).
  - unfold onTimer. destruct (timers st); (split; [split; assumption | reflexivity]).
  - inversion Hcfg as [|? ? F _]. destruct F.
Qed.

Lemma run_switched_off (st : state) (inputs : list input) :
  no_config_read inputs → switched_off st →
  switched_off (fst (run st inputs)) ∧ all_sent (snd (run st inputs)) = [].
Proof.
  revert st. induction inputs as [|i inputs IH]; intros st Hcfg Hoff;
    [split; [exact Hoff | reflexivity]|].
  inversion Hcfg as [|? ? Hi Hrest]; subst.
  destruct (step_switched_off st i (Forall_cons_2 _ _ _ Hi (Forall_nil_2 _)) Hoff) as [H1 H2].
  destruct (IH _ Hrest H1) as [H3 H4].
  rewrite run_cons. cbn [fst snd]. split; [exact H3|].
  unfold all_sent in *. cbn [flat_map]. rewrite H2, H4. reflexivity.
Qed.

Lemma no_rule_matches_empty_host (l : list string) :
  existsb (fun rule => Content.hostMatchesRule "" rule) l = false.
Proof. induction l as [|r l IH]; [reflexivity | exact IH]. Qed.
End SiteGate.

(** X16.  The site gate of the link-swipe variant.  shouldRunOnThisSite refuses
    every page when the extension is disabled and, when it is enabled, accepts every
    page whose URL has no host, whatever the mode and the list.  For a page with a
    host and a mode that is "blacklist" or "whitelist" it decides exactly like
    isAllowedOnThisSite of the variant that recomputes the pattern, which, unlike
    it, refuses a page without host in whitelist mode.  While the gate or the
    enabled flag is off and no swipe is in progress, no sequence of pointer, click
    and timer events makes the left-button swipe send anything until the
    configuration is read again. *)
Theorem X16_site_gate (c : Batch.settings) (host : string) :
  LinkSwipe.shouldRunOnThisSite false (Batch.mode c) (Batch.list_ c) host = false ∧
  LinkSwipe.shouldRunOnThisSite true (Batch.mode c) (Batch.list_ c) "" = true ∧
  (host ≠ "" → Batch.mode c = "blacklist" ∨ Batch.mode c = "whitelist" →
   LinkSwipe.shouldRunOnThisSite (Batch.enabled c) (Batch.mode c) (Batch.list_ c) host
   = Batch.isAllowedOnThisSite (Batch.initial c host)) ∧
  (Batch.mode c = "whitelist" → Batch.isAllowedOnThisSite (Batch.initial c "") = false) ∧
  (∀ st inputs,
     no_config_read inputs → switched_off st →
     all_sent (snd (LinkSwipe.run st inputs)) = [] ∧
     LinkSwipe.leftActive (fst (LinkSwipe.run st inputs)) = false).
Proof.
  split; [reflexivity|]. split; [reflexivity|]. split; [|split].
  - intros Hh Hm. apply String.eqb_neq in Hh.
    unfold LinkSwipe.shouldRunOnThisSite, Batch.isAllowedOnThisSite.
    cbn [Batch.conf Batch.location_host Batch.initial]. rewrite Hh.
    destruct (Batch.enabled c); [|reflexivity]. cbn [negb].
    destruct Hm as [-> | ->]; reflexivity.
  - intros Hm. unfold Batch.isAllowedOnThisSite.
    cbn [Batch.conf Batch.location_host Batch.initial]. rewrite Hm.
    destruct (Batch.enabled c); [|reflexivity]. cbn.
    apply no_rule_matches_empty_host.
  - intros st inputs Hcfg Hoff.
    destruct (run_switched_off st inputs Hcfg Hoff) as [[_ Hidle] Hsent].
    split; assumption.
Qed.

(** ** The domain list editor *)

Section ListEditor.
Import Options.

#[local] Abbreviation nl := ("010"%char).

(** *** [split] and [join] *)

Lemma split_not_nil (sep : ascii) (s : string) : Str.split sep s ≠ [].
Proof.
  induction s as [|c s IH]; simpl; [discriminate|].
  destruct (Ascii.eqb c sep); [discriminate|].
  destruct (Str.split sep s); discriminate.
Qed.

(** No piece of a split contains the separator. *)
Lemma split_pieces (sep : ascii) (s e : string) :
  e ∈ Str.split sep s → sep ∉ chars e.
Proof.
  revert e. induction s as [|c s IH]; intros e; simpl.
  - intros H. apply list_elem_of_singleton in H. subst e. apply not_elem_of_nil.
  - destruct (Ascii.eqb c sep) eqn:Ec.
    + intros H. apply elem_of_cons in H as [-> | H]; [apply not_elem_of_nil | auto].
    + apply Ascii.eqb_neq in Ec.
      destruct (Str.split sep s) as [|h t] eqn:Es.
      * intros H. apply list_elem_of_singleton in H. subst e. simpl.
        intros F. apply elem_of_cons in F as [F | F]; [congruence | inversion F].
      * intros H. apply elem_of_cons in H as [-> | H].
        -- simpl. intros F. apply elem_of_cons in F as [F | F]; [congruence|].
           revert F. apply IH. left.
        -- apply IH. right. exact H.
Qed.

(** A string without the separator is one piece. *)
Lemma split_plain (sep : ascii) (s : string) : sep ∉ chars s → Str.split sep s = [s].
Proof.
  induction s as [|c s IH]; [reflexivity|]. simpl. intros H.
  apply not_elem_of_cons in H as [Hc Hs].
  destruct (Ascii.eqb c sep) eqn:Ec; [apply Ascii.eqb_eq in Ec; congruence|].
  rewrite (IH Hs). reflexivity.
Qed.

Lemma split_after (sep : ascii) (a rest : string) :
  sep ∉ chars a →
  Str.split sep (a +:+ String sep rest) = a :: Str.split sep rest.
Proof.
  induction a as [|c a IH]; intros H.
  - rewrite app_nil_l. simpl. rewrite Ascii.eqb_refl. reflexivity.
  - simpl in H. apply not_elem_of_cons in H as [Hc Hs].
    rewrite app_cons. simpl.
    destruct (Ascii.eqb c sep) eqn:Ec; [apply Ascii.eqb_eq in Ec; congruence|].
    rewrite (IH Hs). reflexivity.
Qed.

Lemma split_join (sep : ascii) (l : list string) :
  l ≠ [] → Forall (fun e => sep ∉ chars e) l →
  Str.split sep (Str.join (String sep EmptyString) l) = l.
Proof.
  intros Hne Hl. induction Hl as [|a l Ha Hl IH]; [contradiction|].
  destruct l as [|b l'].
  - simpl. apply split_plain. exact Ha.
  - change (Str.join (String sep "") (a :: b :: l'))
      with (a +:+ String sep "" +:+ Str.join (String sep "") (b :: l')).
    rewrite app_cons, app_nil_l, (split_after sep a _ Ha), IH by discriminate.
    reflexivity.
Qed.

(** *** [normalizeHost] keeps a string free of line breaks *)

Lemma ltrim_elem (l : list ascii) (x : ascii) : x ∈ ltrim l → x ∈ l.
Proof.
  destruct (ltrim_suffix l) as [k Hk]. intros H. rewrite Hk.
  apply elem_of_app. right. exact H.
Qed.

Lemma lower_nl (c : ascii) : Str.lower_char c = nl → c = nl.
Proof. destruct c as [[] [] [] [] [] [] [] []]; simpl; intros H; try discriminate H; reflexivity. Qed.

Lemma normalizeHost_no_nl (s : string) :
  nl ∉ chars s → nl ∉ chars (Content.normalizeHost s).
Proof.
  intros H F. rewrite chars_normalizeHost in F.
  apply list_elem_of_fmap in F as (c & Hc & F). symmetry in Hc. apply lower_nl in Hc. subst c.
  apply elem_of_reverse, ltrim_elem, elem_of_reverse, ltrim_elem in F. contradiction.
Qed.

(** *** [uniq] *)

Lemma set_add_all_spec (seen l : list string) :
  NoDup seen →
  NoDup (set_add_all seen l) ∧
  (∀ x, x ∈ set_add_all seen l ↔ x ∈ seen ∨ x ∈ l) ∧
  (NoDup (seen ++ l) → set_add_all seen l = seen ++ l).
Proof.
  revert seen. induction l as [|x l IH]; intros seen Hs; simpl.
  - split; [exact Hs|]. split; [|intros _; symmetry; apply app_nil_r].
    intros y. split; [auto | intros [H|H]; [exact H | inversion H]].
  - destruct (bool_decide (x ∈ seen)) eqn:E.
    + apply bool_decide_eq_true in E. destruct (IH seen Hs) as (H1 & H2 & H3).
      split; [exact H1|]. split.
      * intros y. rewrite H2, elem_of_cons. split; [tauto|].
        intros [H | [-> | H]]; auto.
      * intros Hnd. exfalso. apply NoDup_app in Hnd as (_ & Hd & _).
        apply (Hd x E). left.
    + apply bool_decide_eq_false in E.
      assert (Hs' : NoDup (seen ++ [x])).
      { apply NoDup_app. split; [exact Hs|]. split; [|apply NoDup_singleton].
        intros y Hy Hx. apply list_elem_of_singleton in Hx. subst y. contradiction. }
      destruct (IH (seen ++ [x]) Hs') as (H1 & H2 & H3).
      split; [exact H1|]. split.
      * intros y. rewrite H2, elem_of_app, list_elem_of_singleton, elem_of_cons. tauto.
      * intros Hnd. rewrite <- app_assoc in H3. simpl in H3. apply H3. exact Hnd.
Qed.

Lemma filter_all {A} (f : A → bool) (l : list A) :
  Forall (fun x => f x = true) l → List.filter f l = l.
Proof.
  intros H. induction H as [|x l Hx _ IH]; [reflexivity|]. simpl. rewrite Hx, IH. reflexivity.
Qed.

Lemma uniq_spec (arr : list string) :
  NoDup (uniq arr) ∧
  (∀ x, x ∈ uniq arr ↔ x ∈ arr ∧ x ≠ "") ∧
  (NoDup arr → Forall (fun x => x ≠ "") arr → uniq arr = arr).
Proof.
  unfold uniq.
  destruct (set_add_all_spec [] (List.filter (fun s => negb (String.eqb s "")) arr)
              (NoDup_nil_2)) as (H1 & H2 & H3).
  split; [exact H1|]. split.
  - intros x. rewrite H2. split.
    + intros [F|H]; [inversion F|].
      apply list_elem_of_In, filter_In in H as [H Hx].
      apply negb_true_iff, String.eqb_neq in Hx. split; [apply list_elem_of_In; exact H | exact Hx].
    + intros [H Hx]. right. apply list_elem_of_In, filter_In.
      split; [apply list_elem_of_In; exact H | apply negb_true_iff, String.eqb_neq; exact Hx].
  - intros Hnd Hne.
    assert (E : List.filter (fun s => negb (String.eqb s "")) arr = arr).
    { apply filter_all. eapply Forall_impl; [exact Hne|]. intros x Hx. simpl in Hx.
      apply negb_true_iff, String.eqb_neq. exact Hx. }
    rewrite E in *. apply H3. exact Hnd.
Qed.

(** *** The saved list *)

Lemma isValidHost_normal (s : string) :
  isValidHost (Content.normalizeHost s) = isValidHost s.
Proof. unfold isValidHost. rewrite normalizeHost_fixed. reflexivity. Qed.

Lemma isValidHost_nonempty (s : string) : isValidHost s = true → Content.normalizeHost s ≠ "".
Proof.
  unfold isValidHost. destruct (String.eqb (Content.normalizeHost s) "") eqn:E; [discriminate|].
  intros _. apply String.eqb_neq. exact E.
Qed.

(** What every entry of a saved list satisfies. *)
Definition clean_entry (e : string) : Prop :=
  Content.normalizeHost e = e ∧ isValidHost e = true ∧ e ≠ "" ∧ nl ∉ chars e.

Lemma saved_list_clean (raw : string) :
  NoDup (saved_list raw) ∧ Forall clean_entry (saved_list raw).
Proof.
  unfold saved_list. destruct (uniq_spec
    (List.filter isValidHost (List.map Content.normalizeHost (Str.split nl raw))))
    as (H1 & H2 & _).
  split; [exact H1|]. apply Forall_forall. intros e He.
  apply H2 in He as [He Hne].
  apply list_elem_of_In, filter_In in He as [He Hv].
  apply in_map_iff in He as (s & <- & Hs). apply list_elem_of_In in Hs.
  split; [apply normalizeHost_fixed|]. split; [exact Hv|]. split; [exact Hne|].
  apply normalizeHost_no_nl. apply (split_pieces nl raw). exact Hs.
Qed.

Lemma map_fixed {A} (f : A → A) (l : list A) :
  Forall (fun x => f x = x) l → List.map f l = l.
Proof.
  intros H. induction H as [|x l Hx _ IH]; [reflexivity|]. simpl. rewrite Hx, IH. reflexivity.
Qed.

Lemma saved_list_of_clean (l : list string) :
  NoDup l → Forall clean_entry l → saved_list (shown l) = l.
Proof.
  intros Hnd Hl. unfold saved_list, shown.
  destruct l as [|a l'] eqn:El; [reflexivity|]. rewrite <- El in *.
  rewrite split_join.
  - rewrite map_fixed by (eapply Forall_impl; [exact Hl|]; intros e (H & _); exact H).
    rewrite filter_all by (eapply Forall_impl; [exact Hl|]; intros e (_ & H & _); exact H).
    apply uniq_spec; [exact Hnd|].
    eapply Forall_impl; [exact Hl|]. intros e (_ & _ & H & _). exact H.
  - rewrite El. discriminate.
  - eapply Forall_impl; [exact Hl|]. intros e (_ & _ & _ & H). exact H.
Qed.
End ListEditor.

(** X17.  Saving the domain list is a clean-up with a fixed point.  Whatever text the
    textarea holds, the list the save handler writes has no duplicates and every
    entry is non-empty, already in normal form (trimmed, lower case), accepted by
    isValidHost and free of line breaks; and when the page shows a saved list again
    (its entries joined by line breaks) and the user saves without editing, exactly
    the same list is written. *)
Theorem X17_saved_list_is_stable (raw : string) :
  NoDup (Options.saved_list raw) ∧
  Forall (fun e => e ≠ "" ∧ Content.normalizeHost e = e ∧ Options.isValidHost e = true)
         (Options.saved_list raw) ∧
  Options.saved_list (Options.shown (Options.saved_list raw)) = Options.saved_list raw.
Proof.
  destruct (saved_list_clean raw) as [Hnd Hclean].
  split; [exact Hnd|]. split.
  - eapply Forall_impl; [exact Hclean|]. intros e (H1 & H2 & H3 & _). auto.
  - apply saved_list_of_clean; assumption.
Qed.

